(** * bebopc.js: the invocation bridge of the bebop compiler

  A shallow embedding of [src/bebopc/index.ts], [src/bebopc/worker.ts]
  and the memoize helper of [src/internal/helpers.ts], and the
  properties of the argument builder, the multiplex codec, the
  diagnostic extractor, the sandbox invoker, the output assembler and
  the methods of the compiler.

  JavaScript strings are sequences of UTF-16 code units: a string is a
  [list N], one number per code unit.  Maps are the insertion-ordered
  [Map] of the language, kept as association lists with unique keys.
  The argument array of the command builder is a mutable object shared
  between builder handles: it lives in a store ([gmap]) and the builder
  operations are written in a state monad over that store. *)

From Stdlib Require Import NArith ZArith Ascii String DecimalString Permutation.
From stdpp Require Import base numbers option list gmap.

Local Open Scope N_scope.
Set Warnings "-register-all".

(** ** Strings *)

Abbreviation jsstring := (list N) (only parsing).

(** [str] reads a literal: one code unit per character. *)
Definition str (s : string) : jsstring :=
  map N_of_ascii (list_ascii_of_string s).

(** [dq] reads a literal in which an apostrophe stands for the double quote
    character (code unit 34), so that JSON texts can be written inline. *)
Definition dq (s : string) : jsstring :=
  map (fun c => if c =? 39 then 34 else c) (str s).

Arguments str : simpl never.
Arguments dq : simpl never.

Definition LF : N := 10.
Definition CR : N := 13.
Definition SLASH : N := 47.
Definition DOT : N := 46.

Module JS.

(** LineTerminator of ECMAScript: LF, CR, LS, PS. *)
Definition is_line_terminator (c : N) : bool :=
  (c =? 10) || (c =? 13) || (c =? 8232) || (c =? 8233).

(** The class [\s] of regular expressions, which is also what
    [String.prototype.trim] strips: WhiteSpace and LineTerminator. *)
Definition is_white_space (c : N) : bool :=
  is_line_terminator c
  || (c =? 9) || (c =? 11) || (c =? 12) || (c =? 32) || (c =? 160)
  || (c =? 5760) || ((8192 <=? c) && (c <=? 8202))
  || (c =? 8239) || (c =? 8287) || (c =? 12288) || (c =? 65279).

Fixpoint trimStart (s : jsstring) : jsstring :=
  match s with
  | c :: s' => if is_white_space c then trimStart s' else s
  | [] => []
  end.

Definition trimEnd (s : jsstring) : jsstring := rev (trimStart (rev s)).

Definition trim (s : jsstring) : jsstring := trimEnd (trimStart s).

(** [lines.join(sep)] *)
Fixpoint join (sep : jsstring) (l : list jsstring) : jsstring :=
  match l with
  | [] => []
  | [x] => x
  | x :: l' => x ++ sep ++ join sep l'
  end.

Definition cons_line (c : N) (ls : list jsstring) : list jsstring :=
  match ls with
  | l :: ls' => (c :: l) :: ls'
  | [] => [[c]]
  end.

(** [input.split(/\r?\n/g)]: a line feed, with the carriage return just
    before it when there is one, separates two lines. *)
Fixpoint split_lines (s : jsstring) : list jsstring :=
  match s with
  | [] => [[]]
  | c :: s' =>
      if c =? LF then [] :: split_lines s'
      else
        match s' with
        | d :: s'' =>
            if (c =? CR) && (d =? LF) then [] :: split_lines s''
            else cons_line c (split_lines s')
        | [] => [[c]]
        end
  end.

(** [s.split(sep)] for a one-character separator. *)
Fixpoint split_on (sep : N) (s : jsstring) : list jsstring :=
  match s with
  | [] => [[]]
  | c :: s' =>
      if c =? sep then [] :: split_on sep s'
      else cons_line c (split_on sep s')
  end.

Fixpoint startsWith (s prefix : jsstring) : bool :=
  match prefix, s with
  | [], _ => true
  | p :: prefix', c :: s' => (c =? p) && startsWith s' prefix'
  | _ :: _, [] => false
  end.

Definition endsWith (s suffix : jsstring) : bool :=
  startsWith (rev s) (rev suffix).

Definition eqb (a b : jsstring) : bool := bool_decide (a = b).

(** [array.includes(x)] on an array of strings. *)
Definition includes (l : list jsstring) (x : jsstring) : bool :=
  existsb (eqb x) l.

(** [array.find(p)] *)
Definition find {A} (p : A -> bool) (l : list A) : option A := List.find p l.

End JS.

(** ** The insertion-ordered [Map<string, string>] *)

Module JsMap.

Abbreviation t := (list (jsstring * jsstring)) (only parsing).

Definition get (m : t) (k : jsstring) : option jsstring :=
  snd <$> List.find (fun e => JS.eqb (fst e) k) m.

Definition has (m : t) (k : jsstring) : bool :=
  existsb (fun e => JS.eqb (fst e) k) m.

(** [m.set(k, v)]: an existing key keeps its place, a new one goes last. *)
Fixpoint set (m : t) (k v : jsstring) : t :=
  match m with
  | [] => [(k, v)]
  | (k', v') :: m' =>
      if JS.eqb k' k then (k', v) :: m' else (k', v') :: set m' k v
  end.

Definition keys (m : t) : list jsstring := map fst m.

End JsMap.

(** ** [node:path], POSIX flavour

    The three functions the bridge calls, on the segments between slashes
    as [normalizeString] of the library treats them: empty and [.]
    segments are dropped, [..] removes the segment before it. *)

Module Path.

Definition is_dots (seg : jsstring) : bool := JS.eqb seg [DOT; DOT].

Fixpoint normalize_segments (allowAboveRoot : bool) (stack segs : list jsstring)
  : list jsstring :=
  match segs with
  | [] => rev stack
  | seg :: segs' =>
      if JS.eqb seg [] || JS.eqb seg [DOT] then
        normalize_segments allowAboveRoot stack segs'
      else if is_dots seg then
        match stack with
        | top :: stack' =>
            if is_dots top then
              normalize_segments allowAboveRoot
                (if allowAboveRoot then seg :: stack else stack) segs'
            else normalize_segments allowAboveRoot stack' segs'
        | [] =>
            normalize_segments allowAboveRoot
              (if allowAboveRoot then [seg] else []) segs'
        end
      else normalize_segments allowAboveRoot (seg :: stack) segs'
  end.

Definition normalizeString (path : jsstring) (allowAboveRoot : bool) : jsstring :=
  JS.join [SLASH] (normalize_segments allowAboveRoot [] (JS.split_on SLASH path)).

Definition isAbsolute (path : jsstring) : bool :=
  match path with c :: _ => c =? SLASH | [] => false end.

(** [path.resolve("/", p)]: the first argument is absolute, so the working
    directory of the process is never consulted. *)
Definition resolve_root (p : jsstring) : jsstring :=
  let resolvedPath :=
    if isAbsolute p then p ++ [SLASH]
    else match p with [] => [SLASH; SLASH] | _ => [SLASH; SLASH] ++ p ++ [SLASH] end in
  SLASH :: normalizeString resolvedPath false.

Definition normalize (path : jsstring) : jsstring :=
  match path with
  | [] => [DOT]
  | _ =>
      let trailingSeparator := JS.endsWith path [SLASH] in
      let res := normalizeString path (negb (isAbsolute path)) in
      match res with
      | [] =>
          if isAbsolute path then [SLASH]
          else if trailingSeparator then [DOT; SLASH] else [DOT]
      | _ =>
          let res' := if trailingSeparator then res ++ [SLASH] else res in
          if isAbsolute path then SLASH :: res' else res'
      end
  end.

(** [path.join(a, b)] *)
Definition join (a b : jsstring) : jsstring :=
  match a, b with
  | [], [] => [DOT]
  | [], _ => normalize b
  | _, [] => normalize a
  | _, _ => normalize (a ++ [SLASH] ++ b)
  end.

(** The backwards scan of [path.dirname] over the characters after the
    first one, last character first; the result is the index [end]. *)
Fixpoint dirname_scan (r : jsstring) (matchedSlash : bool) : option nat :=
  match r with
  | [] => None
  | c :: r' =>
      if c =? SLASH then
        if matchedSlash then dirname_scan r' true else Some (S (length r'))
      else dirname_scan r' false
  end.

Definition dirname (path : jsstring) : jsstring :=
  match path with
  | [] => [DOT]
  | c0 :: rest =>
      let hasRoot := c0 =? SLASH in
      match dirname_scan (rev rest) true with
      | None => if hasRoot then [SLASH] else [DOT]
      | Some e =>
          if hasRoot && Nat.eqb e 1 then [SLASH; SLASH] else take e path
      end
  end.

(** A path is absolute and normalized when it is a slash followed by
    segments joined by single slashes, none of them empty, [.] or [..]. *)
Definition good_segment (seg : jsstring) : bool :=
  negb (JS.eqb seg []) && negb (JS.eqb seg [DOT]) && negb (is_dots seg)
  && forallb (fun c => negb (c =? SLASH)) seg.

Definition is_normalized_absolute (p : jsstring) : bool :=
  match p with
  | c :: rest =>
      (c =? SLASH)
      && (JS.eqb rest [] || forallb good_segment (JS.split_on SLASH rest))
  | [] => false
  end.

End Path.

(** ** The marker pattern

    [/^\s*\/\/\s*@filename:\s*(.+)$/gim], as a backtracking matcher in
    continuation-passing style: every quantifier is greedy and gives
    characters back one at a time.  With flag [m] the anchors hold at the
    ends of the text and next to any line terminator, with flag [i] the
    letters match in either case, and [.] is any character but a line
    terminator.  The code resets [lastIndex] before every use, so every
    search starts at the first character. *)

Module FileNameRegexp.

(** Canonicalize of a non-Unicode pattern: only the letters a-z change. *)
Definition canonicalize (c : N) : N :=
  if (97 <=? c) && (c <=? 122) then c - 32 else c.

Fixpoint literal {A} (pat : jsstring) (k : jsstring -> option A) (s : jsstring)
  : option A :=
  match pat, s with
  | [], _ => k s
  | p :: pat', c :: s' =>
      if canonicalize c =? canonicalize p then literal pat' k s' else None
  | _ :: _, [] => None
  end.

(** [\s*] *)
Fixpoint spaces {A} (k : jsstring -> option A) (s : jsstring) : option A :=
  match s with
  | c :: s' =>
      if JS.is_white_space c then
        match spaces k s' with
        | Some r => Some r
        | None => k s
        end
      else k s
  | [] => k []
  end.

(** [(.+)]: [acc] is what the group has taken so far. *)
Fixpoint dots {A} (k : jsstring -> jsstring -> option A) (acc s : jsstring)
  : option A :=
  match s with
  | c :: s' =>
      if JS.is_line_terminator c then None
      else
        match dots k (acc ++ [c]) s' with
        | Some r => Some r
        | None => k (acc ++ [c]) s'
        end
  | [] => None
  end.

(** [$] *)
Definition at_end (s : jsstring) : bool :=
  match s with
  | [] => true
  | c :: _ => JS.is_line_terminator c
  end.

(** A match that starts at the first character of [s]; the result is the
    text of group 1. *)
Definition match_here (s : jsstring) : option jsstring :=
  spaces
    (literal (str "//")
       (spaces
          (literal (str "@filename:")
             (spaces
                (dots (fun cap rest => if at_end rest then Some cap else None)
                   [])))))
    s.

(** The search for the leftmost match; [bol] says whether [^] holds at
    the first character of [s]. *)
Fixpoint search (bol : bool) (s : jsstring) : option jsstring :=
  match (if bol then match_here s else None) with
  | Some cap => Some cap
  | None =>
      match s with
      | [] => None
      | c :: s' => search (JS.is_line_terminator c) s'
      end
  end.

(** [fileNameRegexp.exec(s)] with [lastIndex = 0]: group 1 of the match. *)
Definition exec (s : jsstring) : option jsstring := search true s.

(** [fileNameRegexp.test(s)] with [lastIndex = 0]. *)
Definition test (s : jsstring) : bool := bool_decide (is_Some (exec s)).

End FileNameRegexp.

(** ** JSON values and [JSON.parse]

    Numbers are not evaluated to floating point: an integer literal is
    kept as its value, any other number as its source text. *)

Inductive jsnum :=
| NumInt (z : Z)
| NumText (lexeme : jsstring).

Inductive json :=
| JNull
| JBool (b : bool)
| JNum (n : jsnum)
| JStr (s : jsstring)
| JArr (items : list json)
| JObj (fields : list (jsstring * json)).

(** A JavaScript value that may be [undefined]. *)
Abbreviation jsval := (option json) (only parsing).
Abbreviation undefined := (@None json) (only parsing).

Module Json.

Definition is_ws (c : N) : bool :=
  (c =? 32) || (c =? 9) || (c =? 10) || (c =? 13).

Fixpoint skip_ws (s : jsstring) : jsstring :=
  match s with
  | c :: s' => if is_ws c then skip_ws s' else s
  | [] => []
  end.

Definition is_digit (c : N) : bool := (48 <=? c) && (c <=? 57).

Definition hex_digit (c : N) : option N :=
  if is_digit c then Some (c - 48)
  else if (97 <=? c) && (c <=? 102) then Some (c - 87)
  else if (65 <=? c) && (c <=? 70) then Some (c - 55)
  else None.

(** The character an escape sequence of one letter stands for. *)
Definition escape (e : N) : option N :=
  if e =? 34 then Some 34        (* quote *)
  else if e =? 92 then Some 92   (* backslash *)
  else if e =? 47 then Some 47   (* slash *)
  else if e =? 98 then Some 8    (* b *)
  else if e =? 102 then Some 12  (* f *)
  else if e =? 110 then Some 10  (* n *)
  else if e =? 114 then Some 13  (* r *)
  else if e =? 116 then Some 9   (* t *)
  else None.

(** The characters of a string literal after its opening quote; [acc] is
    the text read so far, last character first. *)
Fixpoint parse_string (s acc : jsstring) : option (jsstring * jsstring) :=
  match s with
  | [] => None
  | c :: s' =>
      if c =? 34 then Some (rev acc, s')
      else if c =? 92 then
        match s' with
        | e :: s'' =>
            if e =? 117 then
              match s'' with
              | h1 :: h2 :: h3 :: h4 :: s3 =>
                  match hex_digit h1, hex_digit h2, hex_digit h3, hex_digit h4 with
                  | Some d1, Some d2, Some d3, Some d4 =>
                      parse_string s3 (((d1 * 16 + d2) * 16 + d3) * 16 + d4 :: acc)
                  | _, _, _, _ => None
                  end
              | _ => None
              end
            else
              match escape e with
              | Some x => parse_string s'' (x :: acc)
              | None => None
              end
        | [] => None
        end
      else if c <? 32 then None
      else parse_string s' (c :: acc)
  end.

Fixpoint span_digits (s : jsstring) : jsstring * jsstring :=
  match s with
  | c :: s' =>
      if is_digit c then let '(ds, r) := span_digits s' in (c :: ds, r)
      else ([], s)
  | [] => ([], [])
  end.

Definition digits_value (ds : jsstring) : Z :=
  fold_left (fun acc d => (acc * 10 + Z.of_N (d - 48))%Z) ds 0%Z.

(** A number: an optional minus sign, then a zero or digits that do not
    start with a zero, then an optional fraction (a dot and digits) and
    an optional exponent (e or E, an optional sign, and digits). *)
Definition parse_number (s : jsstring) : option (jsnum * jsstring) :=
  let '(neg, s1) :=
    match s with
    | c :: s' => if c =? 45 then (true, s') else (false, s)
    | [] => (false, s)
    end in
  let '(int, s2) := span_digits s1 in
  match int with
  | [] => None
  | d :: more =>
      if (d =? 48) && negb (bool_decide (more = [])) then None
      else
        let frac :=
          match s2 with
          | c :: s' =>
              if c =? 46 then
                match span_digits s' with
                | ([], _) => None
                | (fs, r) => Some (c :: fs, r)
                end
              else Some ([], s2)
          | [] => Some ([], s2)
          end in
        match frac with
        | None => None
        | Some (ftxt, s3) =>
            let exp :=
              match s3 with
              | c :: s' =>
                  if (c =? 101) || (c =? 69) then
                    let '(sign, s'') :=
                      match s' with
                      | g :: t => if (g =? 43) || (g =? 45) then ([g], t) else ([], s')
                      | [] => ([], s')
                      end in
                    match span_digits s'' with
                    | ([], _) => None
                    | (es, r) => Some (c :: sign ++ es, r)
                    end
                  else Some ([], s3)
              | [] => Some ([], s3)
              end in
            match exp with
            | None => None
            | Some (etxt, s4) =>
                let sign := if neg then [45] else [] in
                match ftxt, etxt with
                | [], [] =>
                    let v := digits_value int in
                    if neg && (v =? 0)%Z then Some (NumText (sign ++ int), s4)
                    else Some (NumInt (if neg then - v else v)%Z, s4)
                | _, _ => Some (NumText (sign ++ int ++ ftxt ++ etxt), s4)
                end
            end
        end
  end.

(** Writing a property of an object: a key that is there keeps its place. *)
Fixpoint set_field (fields : list (jsstring * json)) (k : jsstring) (v : json)
  : list (jsstring * json) :=
  match fields with
  | [] => [(k, v)]
  | (k', v') :: fields' =>
      if JS.eqb k' k then (k', v) :: fields' else (k', v') :: set_field fields' k v
  end.

Definition keyword (w : string) (v : json) (s : jsstring) : option (json * jsstring) :=
  if JS.startsWith s (str w) then Some (v, drop (length (str w)) s) else None.

(** The recursive descent; [fuel] bounds the depth of the calls.  Every
    call reads at least one character before it calls again. *)
Fixpoint parse_value (fuel : nat) (s : jsstring) : option (json * jsstring) :=
  match fuel with
  | O => None
  | S fuel' =>
      match skip_ws s with
      | [] => None
      | c :: r =>
          if c =? 123 then
            match skip_ws r with
            | c' :: r' =>
                if c' =? 125 then Some (JObj [], r')
                else parse_members fuel' (c' :: r') []
            | [] => None
            end
          else if c =? 91 then
            match skip_ws r with
            | c' :: r' =>
                if c' =? 93 then Some (JArr [], r')
                else parse_elements fuel' (c' :: r') []
            | [] => None
            end
          else if c =? 34 then
            match parse_string r [] with
            | Some (txt, r') => Some (JStr txt, r')
            | None => None
            end
          else if c =? 116 then keyword "true" (JBool true) (c :: r)
          else if c =? 102 then keyword "false" (JBool false) (c :: r)
          else if c =? 110 then keyword "null" JNull (c :: r)
          else
            match parse_number (c :: r) with
            | Some (n, r') => Some (JNum n, r')
            | None => None
            end
      end
  end
with parse_members (fuel : nat) (s : jsstring) (acc : list (jsstring * json))
  : option (json * jsstring) :=
  match fuel with
  | O => None
  | S fuel' =>
      match skip_ws s with
      | c :: r =>
          if c =? 34 then
            match parse_string r [] with
            | Some (key, r1) =>
                match skip_ws r1 with
                | c1 :: r2 =>
                    if c1 =? 58 then
                      match parse_value fuel' r2 with
                      | Some (v, r3) =>
                          match skip_ws r3 with
                          | c3 :: r4 =>
                              if c3 =? 44 then
                                parse_members fuel' r4 (set_field acc key v)
                              else if c3 =? 125 then
                                Some (JObj (set_field acc key v), r4)
                              else None
                          | [] => None
                          end
                      | None => None
                      end
                    else None
                | [] => None
                end
            | None => None
            end
          else None
      | [] => None
      end
  end
with parse_elements (fuel : nat) (s : jsstring) (acc : list json)
  : option (json * jsstring) :=
  match fuel with
  | O => None
  | S fuel' =>
      match parse_value fuel' s with
      | Some (v, r) =>
          match skip_ws r with
          | c :: r' =>
              if c =? 44 then parse_elements fuel' r' (acc ++ [v])
              else if c =? 93 then Some (JArr (acc ++ [v]), r')
              else None
          | [] => None
          end
      | None => None
      end
  end.

(** [JSON.parse(text)]; [None] stands for the SyntaxError it throws. *)
Definition parse (text : jsstring) : option json :=
  match parse_value (2 * length text + 2) text with
  | Some (v, r) =>
      match skip_ws r with
      | [] => Some v
      | _ :: _ => None
      end
  | None => None
  end.

End Json.

(** ** The types of [./types]

    The two source files import their types from [src/bebopc/types.ts].
    The order of the arguments of the CompilerError constructor
    (severity, message, errorCode, span, context) is the one of its calls
    in [index.ts]. *)

Inductive JsError :=
| SyntaxError
| TypeError.

(** Modelled from the spec: the optional context of a CompilerError of
    [types.ts], which is the error that was caught or an object of details. *)
Inductive ErrorContext :=
| CtxCause (e : JsError)
| CtxObject (fields : list (jsstring * jsstring)).

(** Modelled from the spec: the class CompilerError of [types.ts], a
    Diagnostic with severity, message, errorCode, optional span and
    optional context. *)
Record CompilerError := mkCompilerError {
  severity : jsval;
  message : jsval;
  errorCode : jsval;
  span : jsval;
  context : option ErrorContext
}.

(** What a call can throw. *)
Inductive Thrown :=
| ThrowCompilerError (e : CompilerError)
| ThrowJsError (e : JsError).

Inductive result (A : Type) :=
| Return (a : A)
| Throw (e : Thrown).
Arguments Return {A} a.
Arguments Throw {A} e.

#[export] Instance result_ret : MRet result := fun A a => Return a.
#[export] Instance result_bind : MBind result := fun A B f r =>
  match r with
  | Return a => f a
  | Throw e => Throw e
  end.

Definition jsstr (s : jsstring) : jsval := Some (JStr s).
Definition jsint (z : Z) : jsval := Some (JNum (NumInt z)).

(** [new CompilerError("error", message, code)] *)
Definition error3 (msg : jsstring) (code : Z) : CompilerError :=
  mkCompilerError (jsstr (str "error")) (jsstr msg) (jsint code) undefined None.

Definition error5 (msg : string) (ctx : ErrorContext) : CompilerError :=
  mkCompilerError (jsstr (str "error")) (jsstr (str msg)) (jsint 1) undefined
    (Some ctx).

(** Modelled from the spec: the body of a GeneratorConfig of [types.ts]:
    outFile, optional services selector, optional flags emitNotice and
    emitBinarySchema, optional namespace, optional key/value options. *)
Record GeneratorBody := {
  outFile : jsstring;
  services : option jsstring;
  emitNotice : bool;
  emitBinarySchema : bool;
  namespace : option jsstring;
  options : option (list (jsstring * jsstring))
}.

(** Modelled from the spec: the type GeneratorConfig of [types.ts], an
    object with exactly one key, the alias. *)
Record GeneratorConfig := {
  alias : jsstring;
  body : GeneratorBody
}.

(** Modelled from the spec: the auxiliaryFile of a GeneratedFile of
    [types.ts], a name and a content. *)
Record AuxiliaryFile := {
  aux_name : jsstring;
  aux_content : jsstring
}.

(** Modelled from the spec: the type GeneratedFile of [types.ts]: name,
    content, generator and optional auxiliaryFile. *)
Record GeneratedFile := {
  name : jsstring;
  content : jsstring;
  generator : jsstring;
  auxiliaryFile : option AuxiliaryFile
}.

(** Modelled from the spec: the type CompilerOutput of [types.ts], with
    warnings, errors and results.  A value of that type is either a parsed
    JSON value that the code returns under a cast, or an object the code
    builds itself. *)
Inductive CompilerOutput :=
| ParsedOutput (value : json)
| BuiltOutput (warnings errors : jsval) (results : option (list GeneratedFile)).

(** Modelled from the spec: the type BuildOptions of [types.ts]: the
    no-emit toggle, the suppressed warning codes, the write-to-stdout
    toggle. *)
Record BuildOptions := {
  noEmit : bool;
  noWarn : option (list Z);
  writeToStdOut : bool
}.

(** Modelled from the spec: the type BebopConfig of [types.ts], of which
    the bridge reads the generators, an object from alias to body. *)
Record BebopConfig := {
  generators : option (list (jsstring * GeneratorBody))
}.

(** Modelled from the spec: the type WorkerResponse of [types.ts], the
    InvocationResult with exitCode, stdOut and stdErr. *)
Record WorkerResponse := {
  exitCode : Z;
  stdErr : jsstring;
  stdOut : jsstring
}.

(** ** [worker.ts] *)

Module Worker.

(** How [wasi.start(instance)] ends: it returns, or throws a
    WASIExitError (whose [code] is a number or null), or throws anything
    else, of which only the [toString()] text is used. *)
Inductive Termination :=
| Completed
| ExitError (code : option Z)
| Fault (text : jsstring).

(** The virtual file system after the run. *)
Inductive FsNode :=
| File (data : jsstring)
| Directory (entries : list (jsstring * FsNode))
| Special.

(** One run of the binary: the black box of the bridge. *)
Record Execution := {
  termination : Termination;
  stdout : jsstring;
  stderr : jsstring;
  fs : FsNode
}.

(** The binary, as a function of the seeded files and the arguments. *)
Definition Sandbox : Type := JsMap.t -> list jsstring -> Execution.

(** What [runBebopc] resolves to: a response object, or a bare string. *)
Inductive WorkerReturn :=
| Response (r : WorkerResponse)
| ErrorText (text : jsstring).

(** [walk(fs, dir)], by recursion on the directory found at [dir]. *)
Fixpoint walk (node : FsNode) (dir : jsstring) : list jsstring :=
  match node with
  | Directory entries =>
      flat_map
        (fun e =>
           let entry := Path.join dir (fst e) in
           match snd e with
           | Directory _ => walk (snd e) entry
           | File _ => [entry]
           | Special => []
           end)
        entries
  | File _ | Special => []
  end.

Fixpoint lookup_node (node : FsNode) (segs : list jsstring) : option FsNode :=
  match segs with
  | [] => Some node
  | seg :: segs' =>
      match node with
      | Directory entries =>
          match List.find (fun e => JS.eqb (fst e) seg) entries with
          | Some e => lookup_node (snd e) segs'
          | None => None
          end
      | File _ | Special => None
      end
  end.

(** [fs.readFileSync(p, { encoding: "utf8" })]; it is only called on the
    paths [walk] yields, which are files. *)
Definition readFileSync (node : FsNode) (p : jsstring) : jsstring :=
  match lookup_node node (filter (fun seg => seg <> []) (JS.split_on SLASH p)) with
  | Some (File data) => data
  | _ => []
  end.

(** The body of the loop over the walked paths. *)
Definition multiplex_step (files : JsMap.t) (read : jsstring -> jsstring)
    (output p : jsstring) : jsstring :=
  if JsMap.has files p then output
  else ((output ++ (str "// @filename: " ++ p ++ [LF])) ++ read p) ++ [LF; LF].

Definition multiplex (files : JsMap.t) (read : jsstring -> jsstring)
    (walked : list jsstring) : jsstring :=
  fold_left (multiplex_step files read) walked [].

Definition runBebopc (sandbox : Sandbox) (files : JsMap.t) (args : list jsstring)
  : WorkerReturn :=
  let run := sandbox files args in
  let caught :=
    match termination run with
    | Completed => inl 0%Z
    | ExitError code => inl (default 127%Z code)
    | Fault text => inr text
    end in
  match caught with
  | inr text => ErrorText text
  | inl exitCode =>
      if negb (exitCode =? 0)%Z then
        Response {| exitCode := exitCode; stdErr := stderr run; stdOut := stdout run |}
      else if (JS.includes args (str "build") && negb (JS.includes args (str "--stdout")))
              || JS.includes args (str "--init") then
        let output := multiplex files (readFileSync (fs run)) (walk (fs run) [SLASH]) in
        Response {| exitCode := exitCode; stdErr := stderr run; stdOut := JS.trim output |}
      else
        Response {| exitCode := exitCode; stdErr := stderr run; stdOut := stdout run |}
  end.

(** The stream the worker builds when the files it finds are the entries
    of [m], in the order of [m]. *)
Definition encode (m : JsMap.t) : jsstring :=
  JS.trim (multiplex [] (fun p => default [] (JsMap.get m p)) (JsMap.keys m)).

End Worker.

(** ** [index.ts] *)

(** The pattern [/{[\S\s]*?}/g] of findErrorEntries: a match runs from an
    opening brace to the first closing brace after it, and the search
    goes on behind the match.  [opened] is the text of the match under
    way, if any. *)
Module JsonRegex.

Fixpoint matches (opened : option jsstring) (s : jsstring) : list jsstring :=
  match s with
  | [] => []
  | c :: s' =>
      match opened with
      | None =>
          if c =? 123 then matches (Some [c]) s' else matches None s'
      | Some m =>
          if c =? 125 then (m ++ [c]) :: matches None s'
          else matches (Some (m ++ [c])) s'
      end
  end.

(** [text.match(jsonRegex)]; the empty list stands for null. *)
Definition match_all (text : jsstring) : list jsstring := matches None text.

End JsonRegex.

Module Index.

Definition nonempty (s : option jsstring) : option jsstring :=
  match s with
  | Some (c :: r) => Some (c :: r)
  | _ => None
  end.

Definition generatorConfigToString (config : GeneratorConfig) : jsstring :=
  let b := body config in
  let opts :=
    JS.join (str ",")
      (map (fun e => fst e ++ str "=" ++ snd e) (default [] (options b))) in
  let result := alias config ++ str ":" ++ outFile b in
  let result :=
    match nonempty (services b) with
    | Some s => result ++ str "," ++ s
    | None => result
    end in
  let result := if emitNotice b then result ++ str ",emitNotice=true" else result in
  let result :=
    if emitBinarySchema b then result ++ str ",emitBinarySchema=true" else result in
  let result :=
    match nonempty (namespace b) with
    | Some ns => result ++ str ",namespace=" ++ ns
    | None => result
    end in
  match opts with
  | [] => result
  | _ :: _ => result ++ str "," ++ opts
  end.

(** *** The command builder

    The closures of one builder share the array [args]; a builder made by
    addSubCommand is given the same array.  Arrays live in a store and a
    builder handle is the location of its array. *)

Abbreviation loc := nat (only parsing).
Abbreviation store := (gmap nat (list jsstring)) (only parsing).

Definition St (A : Type) : Type := store -> A * store.

#[export] Instance St_ret : MRet St := fun A a h => (a, h).
#[export] Instance St_bind : MBind St := fun A B f m h =>
  let '(a, h') := m h in f a h'.

(** A new array. *)
Definition alloc (v : list jsstring) : St loc := fun h =>
  let l := fresh (dom h) in (l, <[l := v]> h).

(** [array.push(...xs)] *)
Definition push (l : loc) (xs : list jsstring) : St unit := fun h =>
  (tt, <[l := default [] (h !! l) ++ xs]> h).

(** The elements of the array at [l]. *)
Definition elements_of (l : loc) : St (list jsstring) := fun h =>
  (default [] (h !! l), h).

Record CommandBuilder := { args : loc }.

(** Modelled from the spec: the type FlagValue of [types.ts], a string or
    an ordered sequence of strings. *)
Inductive FlagValue :=
| One (value : jsstring)
| Many (values : list jsstring).

Definition createCommandBuilder (parentArgs : option loc) : St CommandBuilder :=
  match parentArgs with
  | Some l => mret {| args := l |}
  | None => l ← alloc [str "bebopc"]; mret {| args := l |}
  end.

Definition addFlag (b : CommandBuilder) (flag : jsstring) (value : option FlagValue)
  : St CommandBuilder :=
  _ ← push (args b) [flag];
  _ ← match value with
      | None => mret tt
      | Some (Many vs) => push (args b) vs
      | Some (One v) => push (args b) [v]
      end;
  mret b.

Definition addSubCommand (b : CommandBuilder) (subCommand : jsstring)
  : St CommandBuilder :=
  _ ← push (args b) [subCommand];
  createCommandBuilder (Some (args b)).

(** [build()] returns the array itself, not a copy. *)
Definition build (b : CommandBuilder) : St loc := mret (args b).

(** *** createFileMap *)

Record decoder := {
  currentFilename : option jsstring;
  currentLines : list jsstring;
  files : JsMap.t
}.

Definition finalizeFile (d : decoder) : JsMap.t :=
  match nonempty (currentFilename d) with
  | Some f => JsMap.set (files d) f (JS.join [LF] (currentLines d))
  | None => files d
  end.

(** The body of the loop over the lines. *)
Definition decode_line (d : decoder) (line : jsstring) : decoder :=
  match FileNameRegexp.exec line with
  | Some group1 =>
      {| currentFilename := Some (Path.resolve_root group1);
         currentLines := [];
         files := finalizeFile d |}
  | None =>
      match nonempty (currentFilename d) with
      | Some _ =>
          {| currentFilename := currentFilename d;
             currentLines := currentLines d ++ [line];
             files := files d |}
      | None => d
      end
  end.

Definition createFileMap (input : jsstring) : result JsMap.t :=
  if negb (FileNameRegexp.test input) then
    Throw (ThrowCompilerError (error3 (str "no input files found") 1))
  else
    let lines := JS.split_lines input in
    let start := {| currentFilename := None; currentLines := []; files := [] |} in
    Return (finalizeFile (fold_left decode_line lines start)).

(** *** createCompilerOutput *)

Record ExtInfo := {
  ext : option jsstring;
  auxiliaryExt : option jsstring
}.

(** The names every object inherits from [Object.prototype]: a lookup of
    one of them in the table finds a value that has no [auxiliaryExt]. *)
Definition inherited_names : list jsstring :=
  map str
    ["constructor"; "__defineGetter__"; "__defineSetter__"; "hasOwnProperty";
     "__lookupGetter__"; "__lookupSetter__"; "isPrototypeOf";
     "propertyIsEnumerable"; "toString"; "valueOf"; "__proto__";
     "toLocaleString"]%string.

Definition extLookupTable (key : jsstring) : option ExtInfo :=
  if JS.eqb key (str "cpp") then
    Some {| ext := Some (str "cpp"); auxiliaryExt := Some (str "hpp") |}
  else if JS.eqb key (str "cs") then
    Some {| ext := Some (str "cs"); auxiliaryExt := None |}
  else if JS.eqb key (str "dart") then
    Some {| ext := Some (str "dart"); auxiliaryExt := None |}
  else if JS.eqb key (str "py") then
    Some {| ext := Some (str "py"); auxiliaryExt := None |}
  else if JS.eqb key (str "rust") then
    Some {| ext := Some (str "rs"); auxiliaryExt := None |}
  else if JS.eqb key (str "ts") then
    Some {| ext := Some (str "ts"); auxiliaryExt := None |}
  else if JS.includes inherited_names key then
    Some {| ext := None; auxiliaryExt := None |}
  else None.

(** [s.match(/\.([^.]+)$/)]: the text after the last dot, when there is a
    dot and something after it.  [r] is the text read backwards and [acc]
    the characters passed so far. *)
Fixpoint ext_scan (r acc : jsstring) : option jsstring :=
  match r with
  | [] => None
  | c :: r' =>
      if c =? DOT then
        match acc with
        | [] => None
        | _ :: _ => Some acc
        end
      else ext_scan r' (c :: acc)
  end.

Definition extMatch (s : jsstring) : option jsstring := ext_scan (rev s) [].

(** [obj.k] for the property names the bridge reads, none of which a
    primitive, an array or [Object.prototype] has. *)
Definition property (k : string) (v : json) : jsval :=
  match v with
  | JObj fields => snd <$> List.find (fun e => JS.eqb (fst e) (str k)) fields
  | _ => None
  end.

(** [k in v], for the same property names; on a primitive it throws. *)
Definition js_in (k : string) (v : json) : result bool :=
  match v with
  | JObj fields => Return (existsb (fun e => JS.eqb (fst e) (str k)) fields)
  | JArr _ => Return false
  | _ => Throw (ThrowJsError TypeError)
  end.

(** [k1 in v && k2 in v && ...], left to right. *)
Fixpoint all_in (ks : list string) (v : json) : result bool :=
  match ks with
  | [] => Return true
  | k :: ks' => b ← js_in k v; if b : bool then all_in ks' v else Return false
  end.

(** The body of the loop over the configs. *)
Definition generate (files : JsMap.t) (config : GeneratorConfig)
  : result GeneratedFile :=
  let resolvedOutFile := Path.resolve_root (outFile (body config)) in
  match extMatch resolvedOutFile with
  | None =>
      Throw (ThrowCompilerError (error3 (str "unable to determine extension") 1))
  | Some _ =>
      match extLookupTable (alias config) with
      | None =>
          Throw (ThrowCompilerError
                   (error5 "unable to lookup extension"
                      (CtxObject [(str "alias", alias config)])))
      | Some extInfo =>
          match nonempty (JS.find (fun f => JS.endsWith f resolvedOutFile)
                            (JsMap.keys files)) with
          | None =>
              Throw (ThrowCompilerError
                       (error5 "unable to find output file"
                          (CtxObject [(str "resolvedOutFile", resolvedOutFile)])))
          | Some outFileMatch =>
              let generatedFile :=
                {| name := outFileMatch;
                   content := default [] (JsMap.get files outFileMatch);
                   generator := alias config;
                   auxiliaryFile := None |} in
              match nonempty (auxiliaryExt extInfo) with
              | Some auxExt =>
                  let outFileDir := Path.dirname resolvedOutFile in
                  match nonempty
                          (JS.find
                             (fun f =>
                                let fileDir := Path.dirname f in
                                JS.endsWith f (DOT :: auxExt)
                                && JS.eqb fileDir outFileDir)
                             (JsMap.keys files)) with
                  | Some auxiliaryFileMatch =>
                      Return
                        {| name := outFileMatch;
                           content := default [] (JsMap.get files outFileMatch);
                           generator := alias config;
                           auxiliaryFile :=
                             Some {| aux_name := auxiliaryFileMatch;
                                     aux_content :=
                                       default [] (JsMap.get files auxiliaryFileMatch) |} |}
                  | None =>
                      Throw (ThrowCompilerError
                               (error5 "unable to find auxiliary file"
                                  (CtxObject [(str "resolvedOutFile", resolvedOutFile)])))
                  end
              | None => Return generatedFile
              end
          end
      end
  end.

(** The loop: the first config that fails ends it. *)
Fixpoint generate_all (files : JsMap.t) (configs : list GeneratorConfig)
    (results : list GeneratedFile) : result (list GeneratedFile) :=
  match configs with
  | [] => Return results
  | config :: configs' =>
      generatedFile ← generate files config;
      generate_all files configs' (results ++ [generatedFile])
  end.

Definition parse_stdError (stdError : jsstring) : result (jsval * jsval) :=
  match stdError with
  | [] => Return (Some (JArr []), Some (JArr []))
  | _ :: _ =>
      match Json.parse stdError with
      | None =>
          Throw (ThrowCompilerError
                   (error5 "error while parsing standard error" (CtxCause SyntaxError)))
      | Some JNull =>
          Throw (ThrowCompilerError
                   (error5 "error while parsing standard error" (CtxCause TypeError)))
      | Some diagnostics =>
          Return (property "warnings" diagnostics, property "errors" diagnostics)
      end
  end.

Definition createCompilerOutput (files : JsMap.t) (configs : list GeneratorConfig)
    (stdError : jsstring) : result CompilerOutput :=
  match configs with
  | [] => Throw (ThrowCompilerError (error3 (str "no generators specified") 1))
  | _ :: _ =>
      d ← parse_stdError stdError;
      results ← generate_all files configs [];
      Return (BuiltOutput (fst d) (snd d) (Some results))
  end.

Definition mapToGeneratorConfigArray (config : option BebopConfig)
  : list GeneratorConfig :=
  match config with
  | Some c =>
      match generators c with
      | Some gs => map (fun e => {| alias := fst e; body := snd e |}) gs
      | None => []
      end
  | None => []
  end.

(** *** The diagnostics of the standard error stream *)

Definition findErrorEntries (stdError : jsstring) : list json :=
  omap Json.parse (JsonRegex.match_all stdError).

Definition isCompilerException (obj : jsval) : bool :=
  match obj with
  | Some (JObj fields) =>
      let has k := existsb (fun e => JS.eqb (fst e) (str k)) fields in
      has "severity"%string && has "message"%string && has "errorCode"%string
  | _ => false
  end.

(** [new CompilerError(e.severity, e.message, e.errorCode, e.span)] *)
Definition exception_error (e : json) : CompilerError :=
  mkCompilerError (property "severity" e) (property "message" e)
    (property "errorCode" e) (property "span" e) None.

Definition raise_last (errorEntries : list json) : result unit :=
  match last errorEntries with
  | Some compilerException =>
      if isCompilerException (Some compilerException) then
        Throw (ThrowCompilerError (exception_error compilerException))
      else Return tt
  | None => Return tt
  end.

Definition throwCompilerError (stdError : jsstring) (exitCode : Z) : result unit :=
  let errorEntries := findErrorEntries stdError in
  _ ← (if negb (bool_decide (errorEntries = [])) && (400 <=? exitCode)%Z then
         raise_last errorEntries
       else Return tt);
  Throw (ThrowCompilerError (error3 stdError exitCode)).

Definition parseStandardError (stdError : jsstring) (exitCode : Z)
  : result CompilerOutput :=
  let errorEntries := findErrorEntries stdError in
  match errorEntries with
  | [] => Throw (ThrowCompilerError (error3 stdError exitCode))
  | compilerOutput :: _ =>
      early ← (if (exitCode <? 400)%Z then
                 both ← all_in ["warnings"; "errors"]%string compilerOutput;
                 Return (if both : bool then Some compilerOutput else None)
               else Return None);
      match early with
      | Some o => Return (ParsedOutput o)
      | None =>
          _ ← raise_last errorEntries;
          Throw (ThrowCompilerError (error3 stdError exitCode))
      end
  end.

(** *** BebopCompiler and its build method *)

(** What the closures of one BebopCompiler share. *)
Record Compiler := {
  fileMap : JsMap.t;
  builder : CommandBuilder;
  bebopConfig : option BebopConfig
}.

(** *** [String(n)]

    A number of the language is a double.  An integer [z] stands for the
    double nearest to it, which is [z] itself up to 2^53.  Number::toString
    writes a double with as few digits as give the double back: the
    digits [s], [k] of them, and the exponent [n] with [s * 10^(n-k)]
    nearest to the double; up to [n = 21] it writes the digits and
    [n - k] zeros, beyond that the exponent form as in [1e+21]. *)

(** The double nearest to a natural number, ties to even; [None] is
    Infinity. *)
Definition nearest_double (v : Z) : option Z :=
  let bits := (Z.log2 v + 1)%Z in
  if (bits <=? 53)%Z then Some v
  else
    let shift := (bits - 53)%Z in
    let q := Z.shiftr v shift in
    let rest := (v - Z.shiftl q shift)%Z in
    let half := Z.shiftl 1 (shift - 1) in
    let q' :=
      if (half <? rest)%Z || ((rest =? half)%Z && Z.odd q) then (q + 1)%Z else q in
    let x := Z.shiftl q' shift in
    if (x <? 2 ^ 1024)%Z then Some x else None.

Definition decimal (v : Z) : jsstring := str (NilZero.string_of_int (Z.to_int v)).

(** A candidate for the digits of the double [x]: [s] has [k] digits and
    the double nearest to [s * 10^(n-k)] is [x]. *)
Definition digits_candidate (x n k s : Z) : option (Z * Z) :=
  if ((10 ^ (k - 1) <=? s) && (s <? 10 ^ k))%Z
     && bool_decide (nearest_double (s * 10 ^ (n - k)) = Some x)
  then Some (s, n) else None.

(** Of two candidates the one nearer to [x], the even one at a tie. *)
Definition nearer (x k : Z) (a b : Z * Z) : Z * Z :=
  let dist c := Z.abs (fst c * 10 ^ (snd c - k) - x) in
  if (dist a <? dist b)%Z then a
  else if (dist b <? dist a)%Z then b
  else if Z.even (fst a) then a else b.

(** The digits with [k] of them, if there are any: the exponent is the
    number of digits of [x] or one more. *)
Definition digits_with (x k : Z) : option (Z * Z) :=
  let d := Z.of_nat (length (decimal x)) in
  let found :=
    flat_map
      (fun n =>
         if (n <? k)%Z then []
         else
           let lo := (x / 10 ^ (n - k))%Z in
           omap (digits_candidate x n k) [lo; (lo + 1)%Z])
      [d; (d + 1)%Z] in
  match found with
  | [] => None
  | c :: cs => Some (fold_left (nearer x k) cs c)
  end.

(** As few digits as possible; seventeen always do. *)
Definition shortest_digits (x : Z) : option (Z * Z) :=
  List.find (fun _ => true)
    (omap (fun k => digits_with x (Z.of_nat k)) (seq 1 17)).

(** Number::toString for a positive double whose value is an integer. *)
Definition positive_toString (x : Z) : jsstring :=
  match shortest_digits x with
  | None => decimal x
  | Some (s, n) =>
      let ds := decimal s in
      let k := Z.of_nat (length ds) in
      if (n <=? 21)%Z then ds ++ repeat 48 (Z.to_nat (n - k))
      else
        match ds with
        | [] => []
        | d0 :: more =>
            (d0 :: match more with [] => [] | _ :: _ => 46 :: more end)
            ++ str "e+" ++ decimal (n - 1)
        end
  end.

(** [String(n)] for the number an integer stands for. *)
Definition String_of (n : Z) : jsstring :=
  match n with
  | Z0 => str "0"
  | _ =>
      (if (n <? 0)%Z then str "-" else [])
      ++ match nearest_double (Z.abs n) with
         | Some x => positive_toString x
         | None => str "Infinity"
         end
  end.

Fixpoint add_generators (buildCommand : CommandBuilder) (gs : list GeneratorConfig)
  : St unit :=
  match gs with
  | [] => mret tt
  | g :: gs' =>
      _ ← addFlag buildCommand (str "--generator") (Some (One (generatorConfigToString g)));
      add_generators buildCommand gs'
  end.

(** The arguments of a build: the statements before the call of the worker. *)
Definition build_command (self : Compiler) (gens : option (list GeneratorConfig))
    (opts : option BuildOptions) : St (list jsstring) :=
  buildCommand ← addSubCommand (builder self) (str "build");
  _ ← match gens with
      | Some gs => add_generators buildCommand gs
      | None => mret tt
      end;
  _ ← match opts with
      | Some o =>
          _ ← (if noEmit o then _ ← addFlag buildCommand (str "--no-emit") None; mret tt
               else mret tt);
          _ ← match noWarn o with
              | Some codes =>
                  _ ← addFlag buildCommand (str "--no-warn") (Some (Many (map String_of codes)));
                  mret tt
              | None => mret tt
              end;
          if writeToStdOut o then _ ← addFlag buildCommand (str "--stdout") None; mret tt
          else mret tt
      | None => mret tt
      end;
  a ← build buildCommand;
  elements_of a.

(** The statements after the call of the worker.  A response that is a
    bare string has no exitCode: undefined differs from 0, and
    parseStandardError then fails with a TypeError on [stdError.match]. *)
Definition build_response (self : Compiler) (gens : option (list GeneratorConfig))
    (opts : option BuildOptions) (response : Worker.WorkerReturn)
  : result CompilerOutput :=
  match response with
  | Worker.ErrorText _ => Throw (ThrowJsError TypeError)
  | Worker.Response response =>
      if negb (exitCode response =? 0)%Z then
        parseStandardError (stdErr response) (exitCode response)
      else if from_option noEmit false opts then
        match stdErr response with
        | [] => Return (BuiltOutput (Some (JArr [])) (Some (JArr [])) None)
        | _ :: _ => parseStandardError (stdErr response) (exitCode response)
        end
      else
        _ ← match stdOut response with
            | [] => throwCompilerError (stdErr response) (exitCode response)
            | _ :: _ => Return tt
            end;
        if from_option writeToStdOut false opts then
          match Json.parse (stdOut response) with
          | None => Throw (ThrowJsError SyntaxError)
          | Some compilerOutput =>
              complete ← all_in ["warnings"; "errors"; "results"]%string compilerOutput;
              if complete : bool then Return (ParsedOutput compilerOutput)
              else Throw (ThrowCompilerError
                            (error3 (stdOut response) (exitCode response)))
          end
        else
          emittedFiles ← createFileMap (stdOut response);
          createCompilerOutput emittedFiles
            (match gens with
             | Some gs => gs
             | None => mapToGeneratorConfigArray (bebopConfig self)
             end)
            (stdErr response)
  end.

Definition BebopCompiler_build (sandbox : Worker.Sandbox) (self : Compiler)
    (gens : option (list GeneratorConfig)) (opts : option BuildOptions)
  : St (result CompilerOutput) :=
  argv ← build_command self gens opts;
  let response := Worker.runBebopc sandbox (fileMap self) argv in
  mret (build_response self gens opts response).

End Index.

(** ** [internal/helpers.ts] *)

Module Helpers.

(** [memoize(fn)]: the closure it returns owns the variable [value],
    which starts undefined, and evaluates [value ??= fn()].  The thunk
    [fn] may have effects and may throw: it is a function of a world
    that gives the value it returns or the exception it throws, and the
    new world.  When the thunk throws, the assignment does not happen,
    [value] stays undefined and the exception goes to the caller.  The
    type of the values has no null and no undefined, so a value once
    stored is never computed again.  The state of the closure is its
    variable and the world. *)
Definition memoize {W T E : Type} (fn : W -> (T + E) * W) (state : option T * W)
  : (T + E) * (option T * W) :=
  match fst state with
  | Some v => (inl v, (Some v, snd state))
  | None =>
      match fn (snd state) with
      | (inl v, w') => (inl v, (Some v, w'))
      | (inr e, w') => (inr e, (None, w'))
      end
  end.

End Helpers.

(** ** [index.ts]: the constructor and the other methods of BebopCompiler *)

Module Commands.

Import Index.

(** Modelled from the spec: the type RootOptions of [types.ts]: config
    path, trace toggle, include and exclude path lists, locale and
    diagnostic format. *)
Record RootOptions := {
  config : option jsstring;
  trace : bool;
  include : option (list jsstring);
  exclude : option (list jsstring);
  locale : option jsstring;
  diagnosticFormat : option jsstring
}.

(** [if (x) builder.addFlag(flag, x)] for a string: the empty string is
    falsy. *)
Definition add_string (b : CommandBuilder) (flag : string) (x : option jsstring)
  : St unit :=
  match nonempty x with
  | Some v => _ ← addFlag b (str flag) (Some (One v)); mret tt
  | None => mret tt
  end.

(** The same for an array, which is truthy whenever it is there. *)
Definition add_list (b : CommandBuilder) (flag : string) (x : option (list jsstring))
  : St unit :=
  match x with
  | Some vs => _ ← addFlag b (str flag) (Some (Many vs)); mret tt
  | None => mret tt
  end.

Definition addRootOptions (o : RootOptions) (b : CommandBuilder) : St unit :=
  _ ← add_string b "--config" (config o);
  _ ← (if trace o then _ ← addFlag b (str "--trace") None; mret tt else mret tt);
  _ ← add_list b "--include" (include o);
  _ ← add_list b "--exclude" (exclude o);
  _ ← add_string b "--locale" (locale o);
  match nonempty (diagnosticFormat o) with
  | Some f => _ ← addFlag b (str "--diagnostic-format") (Some (One f)); mret tt
  | None => _ ← addFlag b (str "--diagnostic-format") (Some (One (str "json"))); mret tt
  end.

(** What the constructor leaves in the variables its closures share: the
    file map, the builder and the parsed configuration, which the code
    takes as a BebopConfig without a check. *)
Record Instance := {
  inst_fileMap : JsMap.t;
  inst_builder : CommandBuilder;
  inst_config : option json
}.


(** [builder.addFlag(flag); await runBebopc(fileMap, builder.build())] *)
Definition invoke (sandbox : Worker.Sandbox) (self : Compiler) (flag : string)
  : St Worker.WorkerReturn :=
  _ ← addFlag (builder self) (str flag) None;
  a ← build (builder self);
  argv ← elements_of a;
  mret (Worker.runBebopc sandbox (fileMap self) argv).

(** [if (response.exitCode !== 0) throwCompilerError(...)].  A response
    that is a bare string has no exitCode, and throwCompilerError then
    fails with a TypeError on [stdError.match]. *)
Definition check_exit (response : Worker.WorkerReturn) : result WorkerResponse :=
  match response with
  | Worker.ErrorText _ => Throw (ThrowJsError TypeError)
  | Worker.Response r =>
      _ ← (if negb (exitCode r =? 0)%Z then throwCompilerError (stdErr r) (exitCode r)
           else Return tt);
      Return r
  end.

(** The two checks that getHelp, getVersion, init and showConfig make. *)
Definition check_output (response : Worker.WorkerReturn) : result WorkerResponse :=
  r ← check_exit response;
  _ ← match stdOut r with
      | [] => throwCompilerError (stdErr r) (exitCode r)
      | _ :: _ => Return tt
      end;
  Return r.

Definition getHelp (sandbox : Worker.Sandbox) (self : Compiler) : St (result jsstring) :=
  response ← invoke sandbox self "--help";
  mret (r ← check_output response; Return (JS.trim (stdOut r))).

Definition getVersion (sandbox : Worker.Sandbox) (self : Compiler)
  : St (result jsstring) :=
  response ← invoke sandbox self "--version";
  mret (r ← check_output response; Return (JS.trim (stdOut r))).

(** The loop of init over the entries of the decoded map: the first key
    that ends with bebop.json decides. *)
Fixpoint first_config (entries : JsMap.t) : result json :=
  match entries with
  | [] => Throw (ThrowCompilerError (error3 (str "bebop.json not found") 1))
  | e :: entries' =>
      if JS.endsWith (fst e) (str "bebop.json") then
        match Json.parse (snd e) with
        | Some v => Return v
        | None => Throw (ThrowJsError SyntaxError)
        end
      else first_config entries'
  end.

Definition init (sandbox : Worker.Sandbox) (self : Compiler) : St (result json) :=
  response ← invoke sandbox self "--init";
  mret (r ← check_output response;
        emittedFiles ← createFileMap (stdOut r);
        first_config emittedFiles).

Definition showConfig (sandbox : Worker.Sandbox) (self : Compiler) : St (result json) :=
  response ← invoke sandbox self "--show-config";
  mret (r ← check_output response;
        match Json.parse (stdOut r) with
        | Some v => Return v
        | None => Throw (ThrowJsError SyntaxError)
        end).

Definition listSchemas (sandbox : Worker.Sandbox) (self : Compiler)
  : St (result (list jsstring)) :=
  response ← invoke sandbox self "--list-schemas-only";
  mret (r ← check_exit response;
        match stdOut r with
        | [] => Return []
        | _ :: _ => Return (JS.split_lines (JS.trim (stdOut r)))
        end).

End Commands.

(** ** Vocabulary of the properties *)

Import Index.

(** *** Literals *)

(** Text with line feeds between the given lines. *)
Definition text (lines : list string) : jsstring := JS.join [LF] (map str lines).

(** A generator config with an alias and an output file only. *)
Definition plain_config (a o : string) : GeneratorConfig :=
  {| alias := str a;
     body := {| outFile := str o; services := None; emitNotice := false;
                emitBinarySchema := false; namespace := None; options := None |} |}.

(** *** The argument builder *)

(** The tokens one call of addFlag appends. *)
Definition tokens (f : jsstring * option FlagValue) : list jsstring :=
  fst f ::
  match snd f with
  | None => []
  | Some (One v) => [v]
  | Some (Many vs) => vs
  end.

(** A chain of calls of addFlag, each on the builder the one before it
    returned. *)
Fixpoint add_flags (b : CommandBuilder) (flags : list (jsstring * option FlagValue))
  : St CommandBuilder :=
  match flags with
  | [] => mret b
  | f :: flags' => b' ← addFlag b (fst f) (snd f); add_flags b' flags'
  end.

(** [createCommandBuilder().addFlag("--config", "x").addSubCommand("build")
    .addFlag("--no-emit").build()] *)
Definition config_build_no_emit : St (list jsstring) :=
  b0 ← createCommandBuilder None;
  b1 ← addFlag b0 (str "--config") (Some (One (str "x")));
  b2 ← addSubCommand b1 (str "build");
  b3 ← addFlag b2 (str "--no-emit") None;
  a ← build b3;
  elements_of a.

(** Flags, then a subcommand, then flags on the builder it returned. *)
Definition flags_around_subcommand
    (before : list (jsstring * option FlagValue)) (subCommand : jsstring)
    (after : list (jsstring * option FlagValue)) : St (list jsstring) :=
  b0 ← createCommandBuilder None;
  b1 ← add_flags b0 before;
  b2 ← addSubCommand b1 subCommand;
  b3 ← add_flags b2 after;
  a ← build b3;
  elements_of a.

(** *** Runs of the binary *)

(** A compiler over no input files whose builder array is at location 0. *)
Definition bare_compiler : Compiler :=
  {| fileMap := []; builder := {| args := 0%nat |}; bebopConfig := None |}.

Definition bare_store : gmap nat (list jsstring) := {[ 0%nat := [str "bebopc"] ]}.

Definition emit_options : BuildOptions :=
  {| noEmit := false; noWarn := None; writeToStdOut := false |}.

(** A binary that traps: [wasi.start] throws a RuntimeError. *)
Definition trapping_sandbox : Worker.Sandbox := fun _ _ =>
  {| Worker.termination := Worker.Fault (str "RuntimeError: unreachable");
     Worker.stdout := [];
     Worker.stderr := str "thread main panicked";
     Worker.fs := Worker.Directory [] |}.

(** A binary that exits with code 1 after it wrote its diagnostics. *)
Definition diagnosing_sandbox : Worker.Sandbox := fun _ _ =>
  {| Worker.termination := Worker.ExitError (Some 1%Z);
     Worker.stdout := [];
     Worker.stderr := dq "note {'warnings':[],'errors':[3]} done";
     Worker.fs := Worker.Directory [] |}.

(** A binary that succeeds, writes no file and leaves plain text on the
    standard error stream. *)
Definition silent_sandbox : Worker.Sandbox := fun _ _ =>
  {| Worker.termination := Worker.Completed;
     Worker.stdout := [];
     Worker.stderr := str "oops";
     Worker.fs := Worker.Directory [] |}.

(** A binary that succeeds, writes [/out/a.ts] and leaves a note before
    its JSON diagnostics on the standard error stream. *)
Definition noisy_sandbox : Worker.Sandbox := fun _ _ =>
  {| Worker.termination := Worker.Completed;
     Worker.stdout := [];
     Worker.stderr := dq "note {'warnings':[],'errors':[]}";
     Worker.fs :=
       Worker.Directory
         [(str "out", Worker.Directory [(str "a.ts", Worker.File (str "x"))])] |}.

(** *** Failures *)

(** The error the bridge raises for a diagnostic that cannot be parsed. *)
Definition parsing_error (cause : JsError) : Thrown :=
  ThrowCompilerError (error5 "error while parsing standard error" (CtxCause cause)).

(** The error thrown for a failed invocation when the last object found
    in the standard error stream decides: the typed error if that object
    has the three fields, the generic one otherwise. *)
Definition classified (stdError : jsstring) (exitCode : Z) : CompilerError :=
  match last (findErrorEntries stdError) with
  | Some o =>
      if isCompilerException (Some o) then exception_error o
      else error3 stdError exitCode
  | None => error3 stdError exitCode
  end.


(** A line of prose, then an object with the three fields. *)
Definition spec_example_stderr : jsstring :=
  str "warning: foo" ++ [LF] ++ dq "{'severity':'error','message':'bad','errorCode':12}".

(** *** Produced files and requests *)

(** What the assembler promises about the file it returns for a config. *)
Definition answers (files : JsMap.t) (config : GeneratorConfig)
    (g : GeneratedFile) : Prop :=
  generator g = alias config
  /\ JS.endsWith (name g) (Path.resolve_root (outFile (body config))) = true
  /\ JsMap.get files (name g) = Some (content g).

(** A source file and its header under a root the request does not name. *)
Definition prefixed_files : JsMap.t :=
  [(str "/root/out/a.cpp", str "x"); (str "/root/out/a.hpp", str "y")].

(** Two produced files, and two requests in the other order. *)
Definition reversed_files : JsMap.t :=
  [(str "/out/b.cs", str "B"); (str "/out/a.ts", str "A")].

Definition two_configs : list GeneratorConfig :=
  [plain_config "ts" "out/a.ts"; plain_config "cs" "out/b.cs"].

(** *** Paths *)

Definition slash_free (seg : jsstring) : Prop := Forall (fun c => c <> SLASH) seg.

(** *** The blocks of a multiplexed text *)

(** The blocks in the words of the format: a marker line starts a file
    whose path is the captured text resolved against the root; the lines
    up to the next marker line, joined by line feeds, are its content;
    the lines before the first marker line belong to no file. *)
Fixpoint content_lines (lines : list jsstring) : list jsstring :=
  match lines with
  | [] => []
  | line :: rest =>
      match FileNameRegexp.exec line with
      | Some _ => []
      | None => line :: content_lines rest
      end
  end.

Fixpoint marker_blocks (lines : list jsstring) : list (jsstring * jsstring) :=
  match lines with
  | [] => []
  | line :: rest =>
      match FileNameRegexp.exec line with
      | Some group1 =>
          (Path.resolve_root group1, JS.join [LF] (content_lines rest))
          :: marker_blocks rest
      | None => marker_blocks rest
      end
  end.

(** Writing blocks into a map, first block first. *)
Definition write_all (blocks : list (jsstring * jsstring)) (m : JsMap.t) : JsMap.t :=
  fold_left (fun m b => JsMap.set m (fst b) (snd b)) blocks m.

Definition no_marker (lines : list jsstring) : Prop :=
  Forall (fun line => FileNameRegexp.exec line = None) lines.

(** The end of the pattern: the assertion [$] after group 1. *)
Definition last_step (cap rest : jsstring) : option jsstring :=
  if FileNameRegexp.at_end rest then Some cap else None.

(** Two lines that together look like a marker. *)
Definition straddling_marker : jsstring := text ["//"; "@filename: a"]%string.

(** *** File maps the stream can carry *)

Definition line_terminator_free (s : jsstring) : bool :=
  forallb (fun c => negb (JS.is_line_terminator c)) s.

(** A key the stream carries unchanged: an absolute normalized path with
    no line terminator in it and no white space at its end. *)
Definition portable_key (k : jsstring) : bool :=
  Path.is_normalized_absolute k && line_terminator_free k
  && JS.eqb (JS.trimEnd k) k.

(** A carriage return directly before a line feed. *)
Fixpoint has_crlf (s : jsstring) : bool :=
  match s with
  | c :: s' =>
      match s' with
      | d :: _ => ((c =? CR) && (d =? LF)) || has_crlf s'
      | [] => false
      end
  | [] => false
  end.

Definition marker_free (content : jsstring) : bool :=
  forallb (fun line => negb (bool_decide (is_Some (FileNameRegexp.exec line))))
    (JS.split_lines content).

(** A content whose lines survive: none of them matches the marker
    pattern, no carriage return stands before a line feed, and the
    content does not end in a carriage return. *)
Definition portable_content (v : jsstring) : bool :=
  negb (has_crlf (v ++ [LF])) && marker_free v.

Definition entry_ok (e : jsstring * jsstring) : Prop :=
  portable_key (fst e) = true /\ portable_content (snd e) = true.

Definition portable (m : JsMap.t) : Prop :=
  m <> [] /\ NoDup (JsMap.keys m) /\ Forall entry_ok m.

(** What decoding gives back: every content but the last has gained a
    line feed, the last has lost the white space at its end. *)
Fixpoint decoded (m : JsMap.t) : JsMap.t :=
  match m with
  | [] => []
  | e :: m' =>
      match m' with
      | [] => [(fst e, JS.trimEnd (snd e))]
      | _ :: _ => (fst e, snd e ++ [LF]) :: decoded m'
      end
  end.

Definition two_plain_files : JsMap.t := [(str "/a", str "x"); (str "/b", str "y")].

(** What the loop of the worker appends for one file. *)
Definition chunk (e : jsstring * jsstring) : jsstring :=
  (str "// @filename: " ++ fst e) ++ LF :: (snd e ++ [LF; LF]).

(** The stream after the trim. *)
Fixpoint stream (m : JsMap.t) : jsstring :=
  match m with
  | [] => []
  | e :: m' =>
      match m' with
      | [] =>
          (str "// @filename: " ++ fst e)
          ++ match JS.trimEnd (snd e) with
             | [] => []
             | c :: t => LF :: c :: t
             end
      | _ :: _ => chunk e ++ stream m'
      end
  end.

(** The lines of [p ++ w] from the lines of [p] and of [w]: the last
    line of [p] and the first line of [w] become one line. *)
Fixpoint glue (ls ws : list jsstring) : list jsstring :=
  match ls with
  | [] => ws
  | l :: ls' =>
      match ls' with
      | [] =>
          match ws with
          | [] => [l]
          | w0 :: ws' => (l ++ w0) :: ws'
          end
      | _ :: _ => l :: glue ls' ws
      end
  end.

(** *** The memoized thunk *)

(** Calls of a closure, one for every element of [others]; after each
    call the rest of the program changes the world by that element. *)
Fixpoint call_each {W T R : Type} (f : option T * W -> R * (option T * W))
    (others : list (W -> W)) (state : option T * W) : list R * (option T * W) :=
  match others with
  | [] => ([], state)
  | g :: others' =>
      let '(v, state') := f state in
      let '(vs, final) := call_each f others' (fst state', g (snd state')) in
      (v :: vs, final)
  end.

(** A thunk that throws at its first run and returns the number of its
    runs afterwards; the world counts the runs. *)
Definition flaky_thunk (w : nat) : (nat + unit) * nat :=
  match w with
  | O => (inr tt, 1%nat)
  | S _ => (inl (S w), S w)
  end.

(** *** The arguments of the commands *)

Import Commands.

(** The tokens addRootOptions appends. *)
Definition root_tokens (o : RootOptions) : list jsstring :=
  match nonempty (config o) with Some c => [str "--config"; c] | None => [] end
  ++ (if trace o then [str "--trace"] else [])
  ++ match include o with Some vs => str "--include" :: vs | None => [] end
  ++ match exclude o with Some vs => str "--exclude" :: vs | None => [] end
  ++ match nonempty (locale o) with Some l => [str "--locale"; l] | None => [] end
  ++ [str "--diagnostic-format";
      match nonempty (diagnosticFormat o) with Some f => f | None => str "json" end].

Definition generator_tokens (gs : list GeneratorConfig) : list jsstring :=
  flat_map (fun g => [str "--generator"; generatorConfigToString g]) gs.

Definition option_tokens (o : BuildOptions) : list jsstring :=
  (if noEmit o then [str "--no-emit"] else [])
  ++ match noWarn o with Some codes => str "--no-warn" :: map String_of codes | None => [] end
  ++ (if writeToStdOut o then [str "--stdout"] else []).

(** The tokens one call of build appends. *)
Definition build_tokens (gens : option (list GeneratorConfig))
    (opts : option BuildOptions) : list jsstring :=
  str "build" :: generator_tokens (default [] gens)
  ++ from_option option_tokens [] opts.



Definition traced_options : RootOptions :=
  {| config := None; trace := true; include := Some [str "a"; str "b"];
     exclude := None; locale := None; diagnosticFormat := None |}.

(** A binary that succeeds and prints a version. *)
Definition version_sandbox : Worker.Sandbox := fun _ _ =>
  {| Worker.termination := Worker.Completed;
     Worker.stdout := str " 3.0.4" ++ [LF];
     Worker.stderr := [];
     Worker.fs := Worker.Directory [] |}.

(** *** The objects the lazy pattern finds *)

(** The number of objects in a value, the value itself included. *)
Fixpoint objects (v : json) : nat :=
  match v with
  | JObj fields => S (list_sum (map (fun e => objects (snd e)) fields))
  | JArr items => list_sum (map objects items)
  | _ => 0%nat
  end.

Definition fields_objects (fields : list (jsstring * json)) : nat :=
  list_sum (map (fun e => objects (snd e)) fields).

(** The number of closing braces of a text. *)
Fixpoint closes (s : jsstring) : nat :=
  match s with
  | [] => 0%nat
  | c :: s' => if c =? 125 then S (closes s') else closes s'
  end.

(** An object none of whose fields holds an object, at any depth. *)
Definition flat_object (v : json) : Prop :=
  match v with
  | JObj fields => Forall (fun e => objects (snd e) = 0%nat) fields
  | _ => False
  end.

(** A text that opens with a brace and has its only closing brace at its
    end. *)
Definition braced (t : jsstring) : Prop :=
  exists body, t = 123 :: body ++ [125] /\ closes body = 0%nat.

(** *** The outcomes of the methods *)

(** The error throwCompilerError throws. *)
Definition failure (stdError : jsstring) (exitCode : Z) : CompilerError :=
  if (400 <=? exitCode)%Z then classified stdError exitCode
  else error3 stdError exitCode.

(** What getHelp and getVersion make of the answer of the worker. *)
Definition text_outcome (response : Worker.WorkerReturn) : result jsstring :=
  match response with
  | Worker.ErrorText _ => Throw (ThrowJsError TypeError)
  | Worker.Response r =>
      if (exitCode r =? 0)%Z && negb (bool_decide (stdOut r = [])) then
        Return (JS.trim (stdOut r))
      else Throw (ThrowCompilerError (failure (stdErr r) (exitCode r)))
  end.

(** *** The failures of the assembler *)

Definition assembler_messages : list jsstring :=
  map str
    ["no generators specified"; "error while parsing standard error";
     "unable to determine extension"; "unable to lookup extension";
     "unable to find output file"; "unable to find auxiliary file"]%string.

(** A compiler error of severity error and code 1 with one of the
    messages of the assembler. *)
Definition assembler_failure (t : Thrown) : Prop :=
  exists e m,
    t = ThrowCompilerError e
    /\ severity e = jsstr (str "error") /\ errorCode e = jsint 1
    /\ message e = jsstr m /\ m ∈ assembler_messages.

(** What the assembler promises about the header it attaches. *)
Definition header_of (files : JsMap.t) (config : GeneratorConfig)
    (a : AuxiliaryFile) : Prop :=
  JS.endsWith (aux_name a) (str ".hpp") = true
  /\ Path.dirname (aux_name a) = Path.dirname (Path.resolve_root (outFile (body config)))
  /\ JsMap.get files (aux_name a) = Some (aux_content a).

(** A source file and its header where the request names them. *)
Definition cpp_files : JsMap.t :=
  [(str "/out/a.cpp", str "x"); (str "/out/a.hpp", str "y")].

(** *** The generator string *)

(** The parts of a generator string: alias and output file, then the
    optional parts that are set, then every option as key=value. *)
Definition generator_parts (config : GeneratorConfig) : list jsstring :=
  let b := body config in
  [alias config ++ str ":" ++ outFile b]
  ++ match nonempty (services b) with Some s => [s] | None => [] end
  ++ (if emitNotice b then [str "emitNotice=true"] else [])
  ++ (if emitBinarySchema b then [str "emitBinarySchema=true"] else [])
  ++ match nonempty (namespace b) with Some ns => [str "namespace=" ++ ns] | None => [] end
  ++ map (fun e => fst e ++ str "=" ++ snd e) (default [] (options b)).

(** A config with every optional part set. *)
Definition full_config : GeneratorConfig :=
  {| alias := str "ts";
     body := {| outFile := str "out/a.ts"; services := Some (str "both");
                emitNotice := true; emitBinarySchema := false;
                namespace := Some (str "My.Api");
                options := Some [(str "k", str "v"); (str "x", str "y")] |} |}.

(** *** What the worker sends back *)

(** The files of the virtual file system after a run that the caller did
    not supply, with their contents, in the order of the walk. *)
Definition produced (files : JsMap.t) (run : Worker.Execution) : JsMap.t :=
  map (fun p => (p, Worker.readFileSync (Worker.fs run) p))
    (List.filter (fun p => negb (JsMap.has files p))
       (Worker.walk (Worker.fs run) [SLASH])).

(** A binary that succeeds and rewrites the input file [/in.bop]. *)
Definition rewriting_sandbox : Worker.Sandbox := fun _ _ =>
  {| Worker.termination := Worker.Completed;
     Worker.stdout := str "done";
     Worker.stderr := str "nothing new";
     Worker.fs := Worker.Directory [(str "in.bop", Worker.File (str "changed"))] |}.

Definition input_compiler : Compiler :=
  {| fileMap := [(str "/in.bop", str "struct A {}")];
     builder := {| args := 0%nat |}; bebopConfig := None |}.

(** *** The tree the walk visits *)

(** A name a directory can hold: not empty and without a slash. *)
Definition entry_name (n : jsstring) : bool :=
  negb (JS.eqb n []) && forallb (fun c => negb (c =? SLASH)) n.

Fixpoint well_named (node : Worker.FsNode) : bool :=
  match node with
  | Worker.Directory entries =>
      forallb (fun e => entry_name (fst e) && well_named (snd e)) entries
  | _ => true
  end.

Definition small_tree : Worker.FsNode :=
  Worker.Directory
    [(str "out", Worker.Directory [(str "a.ts", Worker.File (str "x"));
                                   (str "dev", Worker.Special)]);
     (str "b.cs", Worker.File (str "y"))].

(** A diagnostic whose span is an array, between two pieces of prose. *)
Definition span_array_stderr : jsstring :=
  dq "{'severity':'error','message':'bad','errorCode':12,'span':[1,2]}".

Definition prose_around_stderr : jsstring :=
  (str "error: " ++ span_array_stderr) ++ str " (see above)".

(** Two produced files whose names both end with the resolved path. *)
Definition ambiguous_files : JsMap.t :=
  [(str "/v1/out/a.ts", str "old"); (str "/out/a.ts", str "new")].

(** [k in o] for an object. *)
Definition has_field (k : string) (o : json) : bool :=
  match o with
  | JObj fields => existsb (fun e => JS.eqb (fst e) (str k)) fields
  | _ => false
  end.

(** *** Diagnostics that hold an object *)

(** An output with one warning, as the binary prints it. *)
Definition nested_stderr : jsstring :=
  dq "{'warnings':[{'message':'unused'}],'errors':[]}".

(** A binary that exits with code 1 after it wrote that output. *)
Definition warning_sandbox : Worker.Sandbox := fun _ _ =>
  {| Worker.termination := Worker.ExitError (Some 1%Z);
     Worker.stdout := [];
     Worker.stderr := nested_stderr;
     Worker.fs := Worker.Directory [] |}.

(** *** The configs of a build *)

(** [generators ?? mapToGeneratorConfigArray(bebopConfig)] *)
Definition requested (self : Compiler) (gens : option (list GeneratorConfig))
  : list GeneratorConfig :=
  match gens with
  | Some gs => gs
  | None => mapToGeneratorConfigArray (bebopConfig self)
  end.

(** A binary that succeeds and writes [/out/b.cs] before [/out/a.ts]. *)
Definition reversing_sandbox : Worker.Sandbox := fun _ _ =>
  {| Worker.termination := Worker.Completed;
     Worker.stdout := [];
     Worker.stderr := [];
     Worker.fs :=
       Worker.Directory
         [(str "out", Worker.Directory [(str "b.cs", Worker.File (str "B"));
                                        (str "a.ts", Worker.File (str "A"))])] |}.

(** The same binary, writing the files in the other order. *)
Definition ordered_sandbox : Worker.Sandbox := fun _ _ =>
  {| Worker.termination := Worker.Completed;
     Worker.stdout := [];
     Worker.stderr := [];
     Worker.fs :=
       Worker.Directory
         [(str "out", Worker.Directory [(str "a.ts", Worker.File (str "A"));
                                        (str "b.cs", Worker.File (str "B"))])] |}.

(** *** The binary behind the worker *)

(** Whether the worker collects the files the binary wrote instead of
    passing its standard output on. *)
Definition collects (argv : list jsstring) : bool :=
  (JS.includes argv (str "build") && negb (JS.includes argv (str "--stdout")))
  || JS.includes argv (str "--init").

(** The exit code of a run; a run that traps has none. *)
Definition binary_exit (run : Worker.Execution) : option Z :=
  match Worker.termination run with
  | Worker.Completed => Some 0%Z
  | Worker.ExitError code => Some (default 127%Z code)
  | Worker.Fault _ => None
  end.

(** What getHelp and getVersion make of a run whose output is passed on. *)
Definition run_text (run : Worker.Execution) : result jsstring :=
  match binary_exit run with
  | None => Throw (ThrowJsError TypeError)
  | Some code =>
      if (code =? 0)%Z && negb (bool_decide (Worker.stdout run = [])) then
        Return (JS.trim (Worker.stdout run))
      else Throw (ThrowCompilerError (failure (Worker.stderr run) code))
  end.

(** What listSchemas makes of such a run. *)
Definition run_names (run : Worker.Execution) : result (list jsstring) :=
  match binary_exit run with
  | None => Throw (ThrowJsError TypeError)
  | Some code =>
      if (code =? 0)%Z then
        Return match Worker.stdout run with
               | [] => []
               | _ :: _ => JS.split_lines (JS.trim (Worker.stdout run))
               end
      else Throw (ThrowCompilerError (failure (Worker.stderr run) code))
  end.

(** A binary that exits with code 3 and a note. *)
Definition failing_sandbox : Worker.Sandbox := fun _ _ =>
  {| Worker.termination := Worker.ExitError (Some 3%Z);
     Worker.stdout := str "ignored";
     Worker.stderr := str "bad flag";
     Worker.fs := Worker.Directory [] |}.

(** ** The argument builder *)

Section Builder.

Implicit Types (h : gmap nat (list jsstring)) (b : CommandBuilder).

Lemma addFlag_run b flag value h :
  addFlag b flag value h =
  (b, <[args b := default [] (h !! args b) ++ tokens (flag, value)]> h).
Proof.
  unfold addFlag, push, tokens, mbind, mret, St_bind, St_ret; simpl.
  destruct value as [[v|vs]|]; simpl;
    rewrite ?lookup_insert_eq, ?insert_insert_eq; simpl;
    rewrite <- ?app_assoc; reflexivity.
Qed.

Lemma add_flags_run flags : forall b h xs,
  h !! args b = Some xs ->
  add_flags b flags h = (b, <[args b := xs ++ flat_map tokens flags]> h).
Proof.
  induction flags as [|[flag value] flags IH]; intros b h xs Hl; simpl.
  - rewrite app_nil_r, insert_id by exact Hl. reflexivity.
  - unfold mbind, St_bind. rewrite addFlag_run, Hl. simpl default.
    rewrite (IH b _ (xs ++ tokens (flag, value))) by apply lookup_insert_eq.
    rewrite insert_insert_eq, <- app_assoc. reflexivity.
Qed.

Lemma flags_around_subcommand_run before subCommand after h :
  fst (flags_around_subcommand before subCommand after h) =
  [str "bebopc"] ++ flat_map tokens before ++ [subCommand] ++ flat_map tokens after.
Proof.
  unfold flags_around_subcommand, addSubCommand, createCommandBuilder, alloc, push,
    build, elements_of, mbind, mret, St_bind, St_ret.
  set (l := fresh (dom h)).
  rewrite (add_flags_run before {| args := l |} _ [str "bebopc"])
    by apply lookup_insert_eq.
  cbn [args]. rewrite insert_insert_eq, lookup_insert_eq. simpl default.
  rewrite insert_insert_eq.
  rewrite (add_flags_run after {| args := l |} _
             (([str "bebopc"] ++ flat_map tokens before) ++ [subCommand]))
    by apply lookup_insert_eq.
  cbn [args fst]. rewrite lookup_insert_eq. simpl default.
  rewrite <- !app_assoc. reflexivity.
Qed.

(** C7. On a fresh builder, addFlag("--config", "x"), addSubCommand("build")
    and addFlag("--no-emit") followed by build() give the array bebopc,
    --config, x, build, --no-emit; and for any flags added before a
    subcommand and any flags added on the builder addSubCommand returned,
    build() gives bebopc, the tokens of the first flags, the subcommand
    token, then the tokens of the later flags, in that order. *)
Theorem builder_keeps_append_order :
  (forall h,
     fst (config_build_no_emit h) =
     map str ["bebopc"; "--config"; "x"; "build"; "--no-emit"]%string)
  /\ (forall before subCommand after h,
        fst (flags_around_subcommand before subCommand after h) =
        [str "bebopc"] ++ flat_map tokens before ++ [subCommand]
          ++ flat_map tokens after).
Proof.
  split.
  - intros h.
    change (config_build_no_emit h)
      with (flags_around_subcommand [(str "--config", Some (One (str "x")))]
              (str "build") [(str "--no-emit", None)] h).
    rewrite flags_around_subcommand_run. reflexivity.
  - intros. apply flags_around_subcommand_run.
Qed.

End Builder.

(** ** The sandbox invoker *)

(** An exit without a code is reported as exit code 127, with the
    standard error stream read so far. *)
Lemma runBebopc_exit_without_code sandbox files args :
  Worker.termination (sandbox files args) = Worker.ExitError None ->
  Worker.runBebopc sandbox files args =
  Worker.Response {| exitCode := 127;
                     stdErr := Worker.stderr (sandbox files args);
                     stdOut := Worker.stdout (sandbox files args) |}.
Proof. intros H. unfold Worker.runBebopc. rewrite H. reflexivity. Qed.

(** C3, on the code: when [wasi.start] throws something that is not a
    WASIExitError (here the RuntimeError of a trap), runBebopc resolves to
    the text of that error, a bare string, and not to a response with
    exit code 127 and the standard error stream read so far. *)
Theorem runBebopc_fault_returns_bare_text files args :
  Worker.runBebopc trapping_sandbox files args =
  Worker.ErrorText (str "RuntimeError: unreachable")
  /\ forall r, Worker.runBebopc trapping_sandbox files args <> Worker.Response r.
Proof. split; [reflexivity | discriminate]. Qed.

(** ** The diagnostics and the classification of failures *)






(** ** The build method *)

Lemma BebopCompiler_build_run sandbox self gens opts h :
  fst (BebopCompiler_build sandbox self gens opts h)
  = build_response self gens opts
      (Worker.runBebopc sandbox (fileMap self) (fst (build_command self gens opts h))).
Proof.
  unfold BebopCompiler_build, mbind, mret, St_bind, St_ret.
  destruct (build_command self gens opts h) as [argv h']. reflexivity.
Qed.

(** What the code does for the objects it finds: when the worker answers
    a build with an exit code that is not 0 and is below 400, and the
    first object findErrorEntries gives has a warnings field and an
    errors field, build returns that object as its CompilerOutput. *)
Lemma build_returns_first_diagnostics_object sandbox self gens opts h r o rest :
  Worker.runBebopc sandbox (fileMap self) (fst (build_command self gens opts h))
  = Worker.Response r ->
  exitCode r <> 0%Z ->
  (exitCode r < 400)%Z ->
  findErrorEntries (stdErr r) = o :: rest ->
  js_in "warnings" o = Return true ->
  js_in "errors" o = Return true ->
  fst (BebopCompiler_build sandbox self gens opts h) = Return (ParsedOutput o).
Proof.
  intros Hr Hne Hlt He Hw Herr.
  rewrite BebopCompiler_build_run, Hr. unfold build_response.
  assert (Hz : (exitCode r =? 0)%Z = false) by (apply Z.eqb_neq; exact Hne).
  rewrite Hz. simpl negb. cbv iota.
  unfold parseStandardError. rewrite He.
  assert (Hb : (exitCode r <? 400)%Z = true) by (apply Z.ltb_lt; exact Hlt).
  rewrite Hb. simpl all_in. rewrite Hw. simpl. rewrite Herr. reflexivity.
Qed.

Lemma build_returns_first_diagnostics_object_witness :
  fst (BebopCompiler_build diagnosing_sandbox bare_compiler None None bare_store)
  = Return (ParsedOutput
              (JObj [(str "warnings", JArr []);
                     (str "errors", JArr [JNum (NumInt 3)])])).
Proof.
  apply (build_returns_first_diagnostics_object diagnosing_sandbox bare_compiler
           None None bare_store
           {| exitCode := 1; stdErr := Worker.stderr (diagnosing_sandbox [] []);
              stdOut := [] |}
           _ []).
  - reflexivity.
  - discriminate.
  - reflexivity.
  - vm_compute. reflexivity.
  - reflexivity.
  - reflexivity.
Defined.

(** C5, on the code: the binary exits with code 1 after it wrote an
    output with one warning to the standard error stream.  The text is a
    JSON object with a warnings field and an errors field, but the
    pattern of findErrorEntries ends its match at the first closing
    brace, inside the warning, so no object is found and build throws
    the generic error with the raw text and the exit code instead of
    returning the object. *)
Theorem build_misses_diagnostics_with_an_object :
  Worker.runBebopc warning_sandbox (fileMap bare_compiler)
    (fst (build_command bare_compiler None None bare_store))
  = Worker.Response {| exitCode := 1; stdErr := nested_stderr; stdOut := [] |}
  /\ Json.parse nested_stderr
     = Some (JObj [(str "warnings", JArr [JObj [(str "message", JStr (str "unused"))]]);
                   (str "errors", JArr [])])
  /\ (forall o, Json.parse nested_stderr = Some o ->
        js_in "warnings" o = Return true /\ js_in "errors" o = Return true)
  /\ JsonRegex.match_all nested_stderr = [dq "{'warnings':[{'message':'unused'}"]
  /\ findErrorEntries nested_stderr = []
  /\ fst (BebopCompiler_build warning_sandbox bare_compiler None None bare_store)
     = Throw (ThrowCompilerError (error3 nested_stderr 1)).
Proof.
  split; [vm_compute; reflexivity|].
  split; [vm_compute; reflexivity|].
  split.
  { intros o Ho. vm_compute in Ho. inversion Ho. split; vm_compute; reflexivity. }
  split; [vm_compute; reflexivity|].
  split; vm_compute; reflexivity.
Qed.

(** C10, as the code has it: for a build that exits with code 0, in emit
    mode and without the write-to-stdout option, whose standard output
    decodes into a file map and for which at least one generator is
    requested, a standard error text that is not empty is parsed as one
    JSON document.  If that parse fails, build throws the compiler error
    for a standard error that cannot be parsed; if it gives a document,
    the warnings and errors of any output build returns are the fields
    of that document.  The objects embedded in the text play no part. *)
Theorem successful_emit_parses_whole_stderr sandbox self gens opts h r files configs :
  Worker.runBebopc sandbox (fileMap self) (fst (build_command self gens opts h))
  = Worker.Response r ->
  exitCode r = 0%Z ->
  from_option noEmit false opts = false ->
  from_option writeToStdOut false opts = false ->
  createFileMap (stdOut r) = Return files ->
  configs = match gens with
            | Some gs => gs
            | None => mapToGeneratorConfigArray (bebopConfig self)
            end ->
  configs <> [] ->
  stdErr r <> [] ->
  (Json.parse (stdErr r) = None ->
   fst (BebopCompiler_build sandbox self gens opts h)
   = Throw (parsing_error SyntaxError))
  /\ (forall d out,
        Json.parse (stdErr r) = Some d ->
        fst (BebopCompiler_build sandbox self gens opts h) = Return out ->
        exists results,
          out = BuiltOutput (property "warnings" d) (property "errors" d)
                  (Some results)).
Proof.
  intros Hr Hcode Hemit Hraw Hfiles Hconfigs Hne Herr.
  rewrite BebopCompiler_build_run, Hr. unfold build_response.
  rewrite Hcode, Hemit, Hraw. simpl negb. cbv iota.
  assert (Hout : stdOut r <> []).
  { intros Hnil. rewrite Hnil in Hfiles. vm_compute in Hfiles. discriminate. }
  destruct (stdOut r) as [|c0 out0] eqn:Ho; [congruence|].
  rewrite Hfiles, <- Hconfigs. simpl mbind.
  unfold createCompilerOutput, parse_stdError.
  destruct configs as [|config configs']; [congruence|].
  destruct (stdErr r) as [|e0 err0] eqn:He; [congruence|].
  split.
  - intros Hp. rewrite Hp. reflexivity.
  - intros d out Hp. rewrite Hp.
    unfold mbind, result_bind.
    destruct d; try discriminate;
      destruct (generate_all files (config :: configs') []) as [results|t];
      try discriminate; intros Hret; inversion Hret; eexists; reflexivity.
Qed.

Lemma successful_emit_parses_whole_stderr_witness :
  findErrorEntries (dq "note {'warnings':[],'errors':[]}")
  = [JObj [(str "warnings", JArr []); (str "errors", JArr [])]]
  /\ fst (BebopCompiler_build noisy_sandbox bare_compiler
            (Some [plain_config "ts" "out/a.ts"]) (Some emit_options) bare_store)
     = Throw (parsing_error SyntaxError).
Proof.
  split; [vm_compute; reflexivity|].
  refine (proj1 (successful_emit_parses_whole_stderr noisy_sandbox bare_compiler
                   (Some [plain_config "ts" "out/a.ts"]) (Some emit_options)
                   bare_store
                   {| exitCode := 0; stdErr := dq "note {'warnings':[],'errors':[]}";
                      stdOut := text ["// @filename: /out/a.ts"; "x"]%string |}
                   [(str "/out/a.ts", str "x")] [plain_config "ts" "out/a.ts"]
                   _ _ _ _ _ _ _ _) _).
  - vm_compute. reflexivity.
  - reflexivity.
  - reflexivity.
  - reflexivity.
  - vm_compute. reflexivity.
  - reflexivity.
  - discriminate.
  - discriminate.
  - vm_compute. reflexivity.
Defined.

(** C10 as stated fails: the binary exits with code 0 and writes no file,
    so the standard output of the response is empty; the standard error
    text is not empty and is not JSON; build throws the generic error
    with the raw text and the exit code, not the error for a standard
    error that cannot be parsed. *)
Lemma empty_stdout_precedes_stderr_parse :
  Worker.runBebopc silent_sandbox (fileMap bare_compiler)
    (fst (build_command bare_compiler (Some [plain_config "ts" "out/a.ts"])
            (Some emit_options) bare_store))
  = Worker.Response {| exitCode := 0; stdErr := str "oops"; stdOut := [] |}
  /\ str "oops" <> []
  /\ Json.parse (str "oops") = None
  /\ fst (BebopCompiler_build silent_sandbox bare_compiler
            (Some [plain_config "ts" "out/a.ts"]) (Some emit_options) bare_store)
     = Throw (ThrowCompilerError (error3 (str "oops") 0))
  /\ fst (BebopCompiler_build silent_sandbox bare_compiler
            (Some [plain_config "ts" "out/a.ts"]) (Some emit_options) bare_store)
     <> Throw (parsing_error SyntaxError).
Proof.
  repeat split; try (vm_compute; reflexivity); vm_compute; discriminate.
Qed.

(** ** The output assembler *)

(** C4, on the code: the produced files are /root/out/a.cpp and
    /root/out/a.hpp and the generator cpp asks for out/a.cpp.  The primary
    file is found by its suffix /out/a.cpp, the header lies in the same
    directory as the file found, and yet createCompilerOutput fails with
    the error for a missing auxiliary file: it compares the directory of
    each produced file with the directory of the resolved output path,
    /out, not with the directory of the file it matched. *)
Theorem auxiliary_lookup_uses_requested_directory :
  JS.find (fun f => JS.endsWith f (Path.resolve_root (str "out/a.cpp")))
    (JsMap.keys prefixed_files) = Some (str "/root/out/a.cpp")
  /\ Path.dirname (str "/root/out/a.hpp") = Path.dirname (str "/root/out/a.cpp")
  /\ JS.endsWith (str "/root/out/a.hpp") (str ".hpp") = true
  /\ createCompilerOutput prefixed_files [plain_config "cpp" "out/a.cpp"] []
     = Throw (ThrowCompilerError
                (error5 "unable to find auxiliary file"
                   (CtxObject [(str "resolvedOutFile", str "/out/a.cpp")]))).
Proof. repeat split; vm_compute; reflexivity. Qed.

(** Without a prefix the header is found and attached; without a header
    the assembler fails. *)
Example auxiliary_attached_in_requested_directory :
  createCompilerOutput [(str "/out/a.cpp", str "x"); (str "/out/a.hpp", str "y")]
    [plain_config "cpp" "out/a.cpp"] []
  = Return (BuiltOutput (Some (JArr [])) (Some (JArr []))
              (Some [ {| name := str "/out/a.cpp"; content := str "x";
                         generator := str "cpp";
                         auxiliaryFile :=
                           Some {| aux_name := str "/out/a.hpp";
                                   aux_content := str "y" |} |} ])).
Proof. vm_compute. reflexivity. Qed.

Example auxiliary_missing_fails :
  createCompilerOutput [(str "/out/a.cpp", str "x")] [plain_config "cpp" "out/a.cpp"] []
  = Throw (ThrowCompilerError
             (error5 "unable to find auxiliary file"
                (CtxObject [(str "resolvedOutFile", str "/out/a.cpp")]))).
Proof. vm_compute. reflexivity. Qed.

(** ** The multiplex codec: decoding *)

(** C8, on the code: the text made of the line // and the line
    @filename: a has no line that matches the marker pattern, but the
    pattern matches the text as a whole, its white space running over the
    line break; createFileMap does not throw and returns an empty map. *)
Theorem createFileMap_returns_empty_map_without_marker_line :
  Forall (fun line => FileNameRegexp.exec line = None) (JS.split_lines straddling_marker)
  /\ FileNameRegexp.test straddling_marker = true
  /\ createFileMap straddling_marker = Return [].
Proof.
  split; [|split]; try (vm_compute; reflexivity).
  vm_compute. repeat constructor.
Qed.

(** The text the worker sends for no file at all is empty, and
    createFileMap rejects it. *)
Lemma createFileMap_rejects_empty_text :
  Worker.encode [] = []
  /\ createFileMap []
     = Throw (ThrowCompilerError (error3 (str "no input files found") 1)).
Proof. split; vm_compute; reflexivity. Qed.

(** *** Paths *)

Section PathFacts.

Implicit Types (seg p : jsstring) (segs stack : list jsstring).

Lemma eqb_true a b : JS.eqb a b = true <-> a = b.
Proof. unfold JS.eqb. apply bool_decide_eq_true. Qed.

Lemma eqb_false a b : JS.eqb a b = false <-> a <> b.
Proof. unfold JS.eqb. apply bool_decide_eq_false. Qed.

Lemma eqb_refl a : JS.eqb a a = true.
Proof. apply eqb_true. reflexivity. Qed.

Lemma cons_line_app c ls ls' :
  ls <> [] -> JS.cons_line c (ls ++ ls') = JS.cons_line c ls ++ ls'.
Proof. destruct ls; [congruence | reflexivity]. Qed.

Lemma split_on_nonempty sep s : JS.split_on sep s <> [].
Proof.
  destruct s as [|c s]; simpl; [discriminate|].
  destruct (c =? sep); [discriminate|].
  destruct (JS.split_on sep s); discriminate.
Qed.

Lemma split_on_free sep s :
  Forall (fun c => c <> sep) s -> JS.split_on sep s = [s].
Proof.
  induction 1 as [|c s Hc _ IH]; simpl; [reflexivity|].
  apply N.eqb_neq in Hc. rewrite Hc, IH. reflexivity.
Qed.

Lemma split_on_app sep a b :
  Forall (fun c => c <> sep) a ->
  JS.split_on sep (a ++ sep :: b) = a :: JS.split_on sep b.
Proof.
  induction 1 as [|c s Hc _ IH]; simpl.
  - rewrite N.eqb_refl. reflexivity.
  - apply N.eqb_neq in Hc. rewrite Hc, IH. reflexivity.
Qed.

Lemma split_on_segments_free sep s :
  Forall (Forall (fun c => c <> sep)) (JS.split_on sep s).
Proof.
  induction s as [|c s IH]; simpl.
  - repeat constructor.
  - destruct (c =? sep) eqn:Hc.
    + constructor; [constructor | exact IH].
    + apply N.eqb_neq in Hc.
      destruct (JS.split_on sep s) as [|l ls]; simpl.
      * repeat constructor. exact Hc.
      * inversion IH; subst. constructor; [constructor; assumption | assumption].
Qed.

Lemma split_on_join sep segs :
  segs <> [] -> Forall (Forall (fun c => c <> sep)) segs ->
  JS.split_on sep (JS.join [sep] segs) = segs.
Proof.
  induction segs as [|x segs IH]; [congruence|].
  intros _ Hall. inversion Hall as [|? ? Hx Hrest]; subst.
  destruct segs as [|y segs].
  - simpl. apply split_on_free. exact Hx.
  - change (JS.join [sep] (x :: y :: segs)) with (x ++ sep :: JS.join [sep] (y :: segs)).
    rewrite split_on_app by exact Hx. rewrite IH by (congruence || assumption).
    reflexivity.
Qed.

Lemma join_split_on sep s : JS.join [sep] (JS.split_on sep s) = s.
Proof.
  induction s as [|c s IH]; simpl; [reflexivity|].
  destruct (c =? sep) eqn:Hc.
  - apply N.eqb_eq in Hc. subst c.
    pose proof (split_on_nonempty sep s) as Hne.
    destruct (JS.split_on sep s) as [|l ls]; [congruence|].
    simpl in *. rewrite IH. reflexivity.
  - destruct (JS.split_on sep s) as [|l ls]; simpl in *.
    + rewrite <- IH. reflexivity.
    + destruct ls; simpl in *; rewrite <- IH; reflexivity.
Qed.

(** What normalization keeps are segments of the input other than the
    empty one, the dot and the double dot. *)
Lemma normalize_segments_good segs : forall stack,
  Forall slash_free segs ->
  Forall (fun seg => Path.good_segment seg = true) stack ->
  Forall (fun seg => Path.good_segment seg = true)
    (Path.normalize_segments false stack segs).
Proof.
  induction segs as [|seg segs IH]; intros stack Hfree Hstack; simpl.
  - apply Forall_rev. exact Hstack.
  - inversion Hfree as [|? ? Hseg Hrest]; subst.
    destruct (JS.eqb seg []) eqn:E1; simpl; [apply IH; assumption|].
    destruct (JS.eqb seg [DOT]) eqn:E2; simpl; [apply IH; assumption|].
    destruct (Path.is_dots seg) eqn:E3.
    + destruct stack as [|top stack']; [apply IH; assumption|].
      inversion Hstack; subst.
      destruct (Path.is_dots top); apply IH; assumption.
    + apply IH; [assumption|]. constructor; [|assumption].
      unfold Path.good_segment. rewrite E1, E2, E3. simpl.
      apply forallb_forall. intros c Hc. apply negb_true_iff, N.eqb_neq.
      unfold slash_free in Hseg. rewrite Forall_forall in Hseg.
      apply Hseg. apply list_elem_of_In. exact Hc.
Qed.

Lemma good_segment_slash_free seg :
  Path.good_segment seg = true -> slash_free seg.
Proof.
  unfold Path.good_segment. rewrite !andb_true_iff. intros [_ H].
  rewrite forallb_forall in H. apply Forall_forall. intros c Hc.
  apply list_elem_of_In, H in Hc. apply negb_true_iff, N.eqb_neq in Hc. exact Hc.
Qed.

Lemma absolute_of_good_segments segs :
  Forall (fun seg => Path.good_segment seg = true) segs ->
  Path.is_normalized_absolute (SLASH :: JS.join [SLASH] segs) = true.
Proof.
  intros Hgood. unfold Path.is_normalized_absolute. rewrite N.eqb_refl. simpl.
  destruct segs as [|x segs]; [reflexivity|].
  apply orb_true_iff. right.
  rewrite split_on_join.
  - apply forallb_forall. intros seg Hin. rewrite Forall_forall in Hgood.
    apply Hgood. apply list_elem_of_In. exact Hin.
  - discriminate.
  - eapply Forall_impl; [exact Hgood|]. intros seg. apply good_segment_slash_free.
Qed.

(** Resolving against the root gives an absolute normalized path. *)
Lemma resolve_root_normalized p :
  Path.is_normalized_absolute (Path.resolve_root p) = true.
Proof.
  unfold Path.resolve_root, Path.normalizeString.
  apply absolute_of_good_segments.
  apply normalize_segments_good; [|constructor].
  apply split_on_segments_free.
Qed.

Lemma resolve_root_nonempty p : Index.nonempty (Some (Path.resolve_root p))
                                = Some (Path.resolve_root p).
Proof. reflexivity. Qed.

End PathFacts.

(** *** The decoder and the blocks *)

Section Decoder.

Implicit Types (m files : list (jsstring * jsstring)) (k v line : jsstring).

Lemma get_set m k v k' :
  JsMap.get (JsMap.set m k v) k' = if JS.eqb k k' then Some v else JsMap.get m k'.
Proof.
  unfold JsMap.get.
  induction m as [|[k0 v0] m IH]; simpl.
  - destruct (JS.eqb k k'); reflexivity.
  - destruct (JS.eqb k0 k) eqn:E0; simpl.
    + apply eqb_true in E0. subst k0.
      destruct (JS.eqb k k'); reflexivity.
    + destruct (JS.eqb k0 k') eqn:E1; simpl.
      * apply eqb_true in E1. apply eqb_false in E0.
        assert (E2 : JS.eqb k k' = false) by (apply eqb_false; congruence).
        rewrite E2. reflexivity.
      * exact IH.
Qed.

Lemma keys_set m k v :
  JsMap.keys (JsMap.set m k v)
  = if JsMap.has m k then JsMap.keys m else JsMap.keys m ++ [k].
Proof.
  unfold JsMap.keys, JsMap.has.
  induction m as [|[k0 v0] m IH]; simpl; [reflexivity|].
  destruct (JS.eqb k0 k) eqn:E0; simpl; [reflexivity|].
  rewrite IH. destruct (existsb _ m); reflexivity.
Qed.

Lemma has_keys m k : JsMap.has m k = true <-> k ∈ JsMap.keys m.
Proof.
  unfold JsMap.has, JsMap.keys. rewrite existsb_exists, list_elem_of_fmap.
  split.
  - intros [e [Hin He]]. apply eqb_true in He. exists e.
    split; [symmetry; exact He | apply list_elem_of_In; exact Hin].
  - intros [e [He Hin]]. exists e.
    split; [apply list_elem_of_In; exact Hin | apply eqb_true; symmetry; exact He].
Qed.

Lemma keys_set_NoDup m k v : NoDup (JsMap.keys m) -> NoDup (JsMap.keys (JsMap.set m k v)).
Proof.
  intros Hnd. rewrite keys_set. destruct (JsMap.has m k) eqn:Hh; [exact Hnd|].
  apply NoDup_app. repeat split; [exact Hnd | | apply NoDup_singleton].
  intros x Hx Hk. apply list_elem_of_singleton in Hk. subst x.
  apply has_keys in Hx. congruence.
Qed.

Lemma write_all_NoDup blocks : forall m,
  NoDup (JsMap.keys m) -> NoDup (JsMap.keys (write_all blocks m)).
Proof.
  induction blocks as [|b blocks IH]; intros m Hnd; simpl; [exact Hnd|].
  apply IH, keys_set_NoDup, Hnd.
Qed.

Lemma write_all_keys blocks : forall m k,
  k ∈ JsMap.keys (write_all blocks m) -> k ∈ JsMap.keys m \/ k ∈ map fst blocks.
Proof.
  induction blocks as [|b blocks IH]; intros m k Hk; simpl in *; [left; exact Hk|].
  apply IH in Hk. destruct Hk as [Hk|Hk]; [|right; right; exact Hk].
  rewrite keys_set in Hk. destruct (JsMap.has m (fst b)); [left; exact Hk|].
  apply elem_of_app in Hk. destruct Hk as [Hk|Hk]; [left; exact Hk|].
  apply list_elem_of_singleton in Hk. subst k. right. left.
Qed.

(** Reading after writing finds the last block written under the key. *)
Lemma get_write_all blocks : forall m k,
  JsMap.get (write_all blocks m) k
  = match last (filter (fun b => fst b = k) blocks) with
    | Some b => Some (snd b)
    | None => JsMap.get m k
    end.
Proof.
  induction blocks as [|b blocks IH]; intros m k; simpl; [reflexivity|].
  rewrite IH, get_set, filter_cons.
  destruct (decide (fst b = k)) as [Heq|Hne].
  - apply eqb_true in Heq. rewrite Heq, last_cons.
    destruct (last (filter (fun b0 => fst b0 = k) blocks)); reflexivity.
  - apply eqb_false in Hne. rewrite Hne. reflexivity.
Qed.

(** The loop of createFileMap writes the blocks of the lines, the block
    under way first. *)
Lemma decode_lines_blocks lines : forall d,
  finalizeFile (fold_left decode_line lines d)
  = match nonempty (currentFilename d) with
    | Some f =>
        write_all (marker_blocks lines)
          (JsMap.set (files d) f
             (JS.join [LF] (currentLines d ++ content_lines lines)))
    | None => write_all (marker_blocks lines) (files d)
    end.
Proof.
  induction lines as [|line lines IH]; intros d; simpl.
  - unfold finalizeFile. rewrite app_nil_r. reflexivity.
  - rewrite IH. unfold decode_line.
    destruct (FileNameRegexp.exec line) as [group1|] eqn:Hexec.
    + cbn [currentFilename currentLines files]. rewrite resolve_root_nonempty.
      unfold finalizeFile. simpl app.
      destruct (nonempty (currentFilename d)) as [f|]; simpl;
        rewrite ?app_nil_r; reflexivity.
    + destruct (nonempty (currentFilename d)) as [f|] eqn:Hf.
      * cbn [currentFilename currentLines files]. rewrite Hf, <- app_assoc.
        reflexivity.
      * rewrite Hf. reflexivity.
Qed.

Lemma createFileMap_blocks input files :
  createFileMap input = Return files ->
  files = write_all (marker_blocks (JS.split_lines input)) [].
Proof.
  unfold createFileMap.
  destruct (FileNameRegexp.test input); simpl; [|discriminate].
  intros H. inversion H as [Hf]. rewrite decode_lines_blocks. reflexivity.
Qed.

Lemma marker_blocks_keys lines :
  Forall (fun k => exists line group1,
            line ∈ lines /\ FileNameRegexp.exec line = Some group1
            /\ k = Path.resolve_root group1)
    (map fst (marker_blocks lines)).
Proof.
  induction lines as [|line lines IH]; simpl; [constructor|].
  assert (Hweak : Forall (fun k => exists line0 group1,
                            line0 ∈ line :: lines
                            /\ FileNameRegexp.exec line0 = Some group1
                            /\ k = Path.resolve_root group1)
                    (map fst (marker_blocks lines))).
  { eapply Forall_impl; [exact IH|]. intros k (l & g & Hin & He & Hk).
    exists l, g. split; [right; exact Hin | split; assumption]. }
  destruct (FileNameRegexp.exec line) as [group1|] eqn:Hexec; [|exact Hweak].
  simpl. constructor; [|exact Hweak].
  exists line, group1. split; [left | split; [exact Hexec | reflexivity]].
Qed.

(** C9. When createFileMap returns a map for a text, every key of the map
    is the captured text of a marker line of the text resolved against the
    root, and is an absolute normalized path (a slash followed by
    segments separated by single slashes, none empty, none a dot or a
    double dot); no key occurs twice; and the content under a key is the
    content of the last block of the text whose marker resolves to that
    key, so a later block overwrites an earlier one. *)
Theorem createFileMap_keys_normalized_last_write_wins input files :
  createFileMap input = Return files ->
  Forall (fun k =>
            Path.is_normalized_absolute k = true
            /\ exists line group1,
                 line ∈ JS.split_lines input
                 /\ FileNameRegexp.exec line = Some group1
                 /\ k = Path.resolve_root group1)
    (JsMap.keys files)
  /\ NoDup (JsMap.keys files)
  /\ forall k,
       JsMap.get files k
       = snd <$> last (filter (fun b => fst b = k)
                         (marker_blocks (JS.split_lines input))).
Proof.
  intros Hret. apply createFileMap_blocks in Hret. subst files.
  split; [|split].
  - apply Forall_forall. intros k Hk.
    apply write_all_keys in Hk. destruct Hk as [Hk|Hk]; [inversion Hk|].
    pose proof (marker_blocks_keys (JS.split_lines input)) as Hall.
    rewrite Forall_forall in Hall. specialize (Hall k Hk).
    destruct Hall as (line & group1 & Hin & Hexec & Heq).
    split; [subst k; apply resolve_root_normalized|].
    exists line, group1. auto.
  - apply write_all_NoDup. constructor.
  - intros k. rewrite get_write_all.
    destruct (last _) as [b|]; reflexivity.
Qed.

End Decoder.

Lemma createFileMap_keys_normalized_last_write_wins_witness :
  createFileMap (text ["// @filename: a/../b"; "one"; "// @filename: /b"; "two"]%string)
  = Return [(str "/b", str "two")]
  /\ Forall (fun k => Path.is_normalized_absolute k = true) [str "/b"]
  /\ JsMap.get [(str "/b", str "two")] (str "/b") = Some (str "two").
Proof.
  pose proof (createFileMap_keys_normalized_last_write_wins
                (text ["// @filename: a/../b"; "one"; "// @filename: /b"; "two"]%string)
                [(str "/b", str "two")]) as H.
  assert (Hret : createFileMap
                   (text ["// @filename: a/../b"; "one"; "// @filename: /b"; "two"]%string)
                 = Return [(str "/b", str "two")]) by (vm_compute; reflexivity).
  destruct (H Hret) as (Hkeys & _ & Hget).
  split; [exact Hret|]. split.
  - eapply Forall_impl; [exact Hkeys|]. intros k [Hk _]. exact Hk.
  - rewrite (Hget (str "/b")). vm_compute. reflexivity.
Defined.

(** *** The assembler *)

Section Assembler.

Implicit Types (files : list (jsstring * jsstring)) (config : GeneratorConfig).

Lemma find_some_perm {A} (P : A -> bool) (l l' : list A) x :
  Permutation l l' -> List.find P l = Some x ->
  exists y, List.find P l' = Some y /\ P y = true.
Proof.
  intros Hp Hf. apply find_some in Hf. destruct Hf as [Hin HP].
  destruct (List.find P l') as [y|] eqn:E.
  - exists y. split; [reflexivity|]. apply find_some in E. tauto.
  - exfalso. eapply find_none in E; [|eapply Permutation_in; eassumption].
    congruence.
Qed.

Lemma endsWith_nonempty s suffix :
  JS.endsWith s suffix = true -> suffix <> [] -> s <> [].
Proof.
  unfold JS.endsWith. intros H Hs ->. simpl in H.
  destruct (rev suffix) as [|c r] eqn:E; [|discriminate].
  apply (f_equal (@rev N)) in E. rewrite rev_involutive in E. simpl in E. congruence.
Qed.

Lemma nonempty_Some s t : nonempty s = Some t -> s = Some t /\ t <> [].
Proof. destruct s as [[|c r]|]; simpl; intros H; inversion H; subst; split; congruence. Qed.

Lemma nonempty_of s t : s = Some t -> t <> [] -> nonempty s = Some t.
Proof. intros -> Ht. destruct t; [congruence | reflexivity]. Qed.

Lemma get_of_key files k : k ∈ JsMap.keys files -> exists v, JsMap.get files k = Some v.
Proof.
  unfold JsMap.keys, JsMap.get. induction files as [|[k0 v0] files IH]; simpl.
  - intros H. inversion H.
  - intros H. destruct (JS.eqb k0 k) eqn:E; [exists v0; reflexivity|].
    apply eqb_false in E. apply elem_of_cons in H. destruct H as [H|H]; [congruence|].
    apply IH, H.
Qed.

Lemma generate_answers files config g :
  generate files config = Return g -> answers files config g.
Proof.
  unfold generate, answers.
  destruct (extMatch _); [|discriminate].
  destruct (extLookupTable _) as [extInfo|]; [|discriminate].
  destruct (nonempty (JS.find _ _)) as [outFileMatch|] eqn:Hfind; [|discriminate].
  apply nonempty_Some in Hfind. destruct Hfind as [Hfind _].
  apply find_some in Hfind. destruct Hfind as [Hin Hends].
  apply list_elem_of_In, get_of_key in Hin. destruct Hin as [v Hv].
  assert (Hdone : forall aux,
             answers files config
               {| name := outFileMatch;
                  content := default [] (JsMap.get files outFileMatch);
                  generator := alias config; auxiliaryFile := aux |}).
  { intros aux. unfold answers. simpl. rewrite Hv. auto. }
  destruct (nonempty (auxiliaryExt extInfo)) as [auxExt|].
  - destruct (nonempty (JS.find _ _)); [|discriminate].
    intros H. inversion H. apply Hdone.
  - intros H. inversion H. apply Hdone.
Qed.

Lemma generate_permuted files files' config g :
  Permutation (JsMap.keys files) (JsMap.keys files') ->
  generate files config = Return g ->
  exists g', generate files' config = Return g'.
Proof.
  intros Hkeys. unfold generate.
  destruct (extMatch _); [|discriminate].
  destruct (extLookupTable _) as [extInfo|]; [|discriminate].
  destruct (nonempty (JS.find _ (JsMap.keys files))) as [outFileMatch|] eqn:Hfind;
    [|discriminate].
  apply nonempty_Some in Hfind. destruct Hfind as [Hfind _].
  destruct (find_some_perm _ _ _ _ Hkeys Hfind) as (y & Hy & HPy).
  unfold JS.find. rewrite Hy.
  rewrite (nonempty_of _ y eq_refl)
    by (eapply endsWith_nonempty; [exact HPy | discriminate]).
  destruct (nonempty (auxiliaryExt extInfo)) as [auxExt|]; [|eauto].
  destruct (nonempty (List.find _ (JsMap.keys files))) as [aux|] eqn:Haux;
    [|discriminate].
  apply nonempty_Some in Haux. destruct Haux as [Haux _].
  destruct (find_some_perm _ _ _ _ Hkeys Haux) as (z & Hz & HPz).
  rewrite Hz. intros _.
  rewrite (nonempty_of _ z eq_refl); [eauto|].
  apply andb_true_iff in HPz. destruct HPz as [HPz _].
  eapply endsWith_nonempty; [exact HPz | discriminate].
Qed.

Lemma generate_all_answers files configs : forall acc rs,
  generate_all files configs acc = Return rs ->
  exists rs', rs = acc ++ rs' /\ Forall2 (answers files) configs rs'.
Proof.
  induction configs as [|config configs IH]; intros acc rs; simpl.
  - intros H. inversion H. exists []. rewrite app_nil_r. split; [reflexivity | constructor].
  - unfold mbind, result_bind.
    destruct (generate files config) as [g|] eqn:Hg; [|discriminate].
    intros H. apply IH in H. destruct H as (rs' & -> & Hall).
    exists (g :: rs'). rewrite <- app_assoc. split; [reflexivity|].
    constructor; [apply generate_answers; exact Hg | exact Hall].
Qed.

Lemma generate_all_permuted files files' configs : forall acc rs,
  Permutation (JsMap.keys files) (JsMap.keys files') ->
  generate_all files configs acc = Return rs ->
  forall acc', exists rs', generate_all files' configs acc' = Return rs'.
Proof.
  induction configs as [|config configs IH]; intros acc rs Hperm; simpl.
  - intros _ acc'. eauto.
  - unfold mbind, result_bind.
    destruct (generate files config) as [g|] eqn:Hg; [|discriminate].
    intros H acc'.
    destruct (generate_permuted _ _ _ _ Hperm Hg) as [g' Hg']. rewrite Hg'.
    eapply IH; eassumption.
Qed.

Lemma answers_generators files configs rs :
  Forall2 (answers files) configs rs -> map generator rs = map alias configs.
Proof.
  induction 1 as [|c g cs gs [Hg _] _ IH]; simpl;
    [reflexivity | rewrite Hg, IH; reflexivity].
Qed.

(** The results of the assembler: one file per config, in the order of
    the configs, for any order of the produced files. *)
Lemma createCompilerOutput_follows_request files configs stdError out :
  createCompilerOutput files configs stdError = Return out ->
  exists w e rs,
    out = BuiltOutput w e (Some rs)
    /\ length rs = length configs
    /\ map generator rs = map alias configs
    /\ Forall2 (answers files) configs rs
    /\ forall files',
         Permutation (JsMap.keys files) (JsMap.keys files') ->
         exists rs',
           createCompilerOutput files' configs stdError
           = Return (BuiltOutput w e (Some rs'))
           /\ map generator rs' = map alias configs
           /\ Forall2 (answers files') configs rs'.
Proof.
  unfold createCompilerOutput.
  destruct configs as [|config configs]; [discriminate|].
  unfold mbind, result_bind.
  destruct (parse_stdError stdError) as [d|]; [|discriminate].
  destruct (generate_all files (config :: configs) []) as [rs|] eqn:Hall;
    [|discriminate].
  intros H. inversion H. subst out. clear H.
  pose proof (generate_all_answers _ _ _ _ Hall) as (rs' & Heq & HF).
  simpl in Heq. subst rs'.
  exists (fst d), (snd d), rs. split; [reflexivity|].
  split; [symmetry; eapply Forall2_length; exact HF|].
  split; [eapply answers_generators; exact HF|]. split; [exact HF|].
  intros files' Hperm.
  destruct (generate_all_permuted _ _ _ _ _ Hperm Hall []) as [rs' Hall'].
  exists rs'. rewrite Hall'. split; [reflexivity|].
  pose proof (generate_all_answers _ _ _ _ Hall') as (rs'' & Heq & HF').
  simpl in Heq. subst rs''. split; [eapply answers_generators; exact HF' | exact HF'].
Qed.

Lemma throwCompilerError_throws stdError code :
  exists t, throwCompilerError stdError code = Throw t.
Proof.
  unfold throwCompilerError.
  destruct (if negb (bool_decide (findErrorEntries stdError = []))
               && (400 <=? code)%Z
            then raise_last (findErrorEntries stdError) else Return tt) as [[]|t];
    eexists; reflexivity.
Qed.

(** What build makes of a response with exit code 0 in emit mode. *)
Lemma emitting_build sandbox self gens opts h r :
  Worker.runBebopc sandbox (fileMap self) (fst (build_command self gens opts h))
  = Worker.Response r ->
  exitCode r = 0%Z ->
  from_option noEmit false opts = false ->
  from_option writeToStdOut false opts = false ->
  (forall out, fst (BebopCompiler_build sandbox self gens opts h) = Return out ->
     exists files, createFileMap (stdOut r) = Return files)
  /\ (forall files, createFileMap (stdOut r) = Return files ->
        fst (BebopCompiler_build sandbox self gens opts h)
        = createCompilerOutput files (requested self gens) (stdErr r)).
Proof.
  intros Hr Hcode Hemit Hraw.
  rewrite BebopCompiler_build_run, Hr. unfold build_response.
  rewrite Hcode, Hemit, Hraw. cbn [negb Z.eqb]. cbv iota.
  fold (requested self gens). split.
  - intros out. destruct (stdOut r) as [|c0 out0] eqn:Ho.
    + destruct (throwCompilerError_throws (stdErr r) 0) as [t ->]. discriminate.
    + cbn [mbind result_bind].
      destruct (createFileMap (c0 :: out0)) as [files|t]; [eauto | discriminate].
  - intros files Hfiles. destruct (stdOut r) as [|c0 out0] eqn:Ho.
    + vm_compute in Hfiles. discriminate.
    + cbn [mbind result_bind]. rewrite Hfiles. reflexivity.
Qed.

(** C6. When a build in emit mode (exit code 0, neither the no-emit nor
    the write-to-stdout option) returns an output, the results of that
    output hold one generated file per requested config, in the order of
    the request: the file at each position names the alias of the config
    at that position as its generator, its name ends with the resolved
    output path of that config and its content is the content the
    decoded file map holds under that name.  The configs are the
    generators passed to build, or those of the configuration when none
    are passed.  If the binary sends files of the same names in any
    other order, build succeeds as well, with the same warnings and
    errors and again one file per config in the order of the request. *)
Theorem results_follow_request_order sandbox self gens opts h r out :
  Worker.runBebopc sandbox (fileMap self) (fst (build_command self gens opts h))
  = Worker.Response r ->
  exitCode r = 0%Z ->
  from_option noEmit false opts = false ->
  from_option writeToStdOut false opts = false ->
  fst (BebopCompiler_build sandbox self gens opts h) = Return out ->
  exists files w e rs,
    createFileMap (stdOut r) = Return files
    /\ out = BuiltOutput w e (Some rs)
    /\ length rs = length (requested self gens)
    /\ map generator rs = map alias (requested self gens)
    /\ Forall2 (answers files) (requested self gens) rs
    /\ forall sandbox' r' files',
         Worker.runBebopc sandbox' (fileMap self)
           (fst (build_command self gens opts h)) = Worker.Response r' ->
         exitCode r' = 0%Z ->
         stdErr r' = stdErr r ->
         createFileMap (stdOut r') = Return files' ->
         Permutation (JsMap.keys files) (JsMap.keys files') ->
         exists rs',
           fst (BebopCompiler_build sandbox' self gens opts h)
           = Return (BuiltOutput w e (Some rs'))
           /\ map generator rs' = map alias (requested self gens)
           /\ Forall2 (answers files') (requested self gens) rs'.
Proof.
  intros Hr Hcode Hemit Hraw Hret.
  destruct (emitting_build sandbox self gens opts h r Hr Hcode Hemit Hraw)
    as [Hdecoded Hbuild].
  destruct (Hdecoded out Hret) as [files Hfiles].
  rewrite (Hbuild files Hfiles) in Hret.
  destruct (createCompilerOutput_follows_request _ _ _ _ Hret)
    as (w & e & rs & -> & Hlen & Hgen & Hans & Hperm).
  exists files, w, e, rs. repeat split; try assumption.
  intros sandbox' r' files' Hr' Hcode' Herr' Hfiles' Hfp.
  destruct (emitting_build sandbox' self gens opts h r' Hr' Hcode' Hemit Hraw)
    as [_ Hbuild'].
  rewrite (Hbuild' files' Hfiles'), Herr'. apply Hperm, Hfp.
Qed.

End Assembler.

Lemma results_follow_request_order_witness :
  fst (BebopCompiler_build reversing_sandbox bare_compiler (Some two_configs)
         (Some emit_options) bare_store)
  = Return (BuiltOutput (Some (JArr [])) (Some (JArr []))
              (Some [ {| name := str "/out/a.ts"; content := str "A";
                         generator := str "ts"; auxiliaryFile := None |};
                      {| name := str "/out/b.cs"; content := str "B" ++ [LF];
                         generator := str "cs"; auxiliaryFile := None |} ]))
  /\ map alias two_configs = [str "ts"; str "cs"]
  /\ exists rs',
       fst (BebopCompiler_build ordered_sandbox bare_compiler (Some two_configs)
              (Some emit_options) bare_store)
       = Return (BuiltOutput (Some (JArr [])) (Some (JArr [])) (Some rs'))
       /\ map generator rs' = [str "ts"; str "cs"].
Proof.
  assert (Hret : fst (BebopCompiler_build reversing_sandbox bare_compiler
                        (Some two_configs) (Some emit_options) bare_store)
                 = Return (BuiltOutput (Some (JArr [])) (Some (JArr []))
                             (Some [ {| name := str "/out/a.ts"; content := str "A";
                                        generator := str "ts"; auxiliaryFile := None |};
                                     {| name := str "/out/b.cs";
                                        content := str "B" ++ [LF];
                                        generator := str "cs";
                                        auxiliaryFile := None |} ])))
    by (vm_compute; reflexivity).
  assert (Hr : Worker.runBebopc reversing_sandbox (fileMap bare_compiler)
                 (fst (build_command bare_compiler (Some two_configs)
                         (Some emit_options) bare_store))
               = Worker.Response
                   {| exitCode := 0; stdErr := [];
                      stdOut := text ["// @filename: /out/b.cs"; "B"; "";
                                      "// @filename: /out/a.ts"; "A"]%string |})
    by (vm_compute; reflexivity).
  assert (Hr' : Worker.runBebopc ordered_sandbox (fileMap bare_compiler)
                  (fst (build_command bare_compiler (Some two_configs)
                          (Some emit_options) bare_store))
                = Worker.Response
                    {| exitCode := 0; stdErr := [];
                       stdOut := text ["// @filename: /out/a.ts"; "A"; "";
                                       "// @filename: /out/b.cs"; "B"]%string |})
    by (vm_compute; reflexivity).
  destruct (results_follow_request_order reversing_sandbox bare_compiler
              (Some two_configs) (Some emit_options) bare_store _ _
              Hr eq_refl eq_refl eq_refl Hret)
    as (files & w & e & rs & Hfiles & Heq & _ & Hgen & _ & Hother).
  inversion Heq; subst w e rs. clear Heq.
  vm_compute in Hfiles. inversion Hfiles; subst files. clear Hfiles.
  split; [exact Hret|]. split; [symmetry; exact Hgen|].
  destruct (Hother ordered_sandbox _
              [(str "/out/a.ts", str "A" ++ [LF]); (str "/out/b.cs", str "B")]
              Hr' eq_refl eq_refl)
    as (rs' & Hret' & Hgen' & _).
  - vm_compute. reflexivity.
  - vm_compute. apply perm_swap.
  - exists rs'. split; [exact Hret' | exact Hgen'].
Defined.

(** ** The multiplex codec: the round trip *)

(** *** Lists of lines *)

Section Lines.

Implicit Types (s a b p w line : jsstring) (ls ws : list jsstring).

Lemma list_ind2 {A} (P : list A -> Prop) :
  P [] -> (forall x, P [x]) ->
  (forall x y l, P l -> P (y :: l) -> P (x :: y :: l)) ->
  forall l, P l.
Proof.
  intros H0 H1 H2 l.
  assert (H : P l /\ forall x, P (x :: l)).
  { induction l as [|y l [IHl IHc]]; [split; [exact H0 | exact H1]|].
    split; [apply IHc|]. intros x. apply H2; [exact IHl | apply IHc]. }
  apply H.
Qed.

Lemma split_lines_nonempty s : JS.split_lines s <> [].
Proof.
  destruct s as [|c s]; simpl; [discriminate|].
  destruct (c =? LF); [discriminate|].
  destruct s as [|d s]; [discriminate|].
  destruct ((c =? CR) && (d =? LF)); [discriminate|].
  destruct (JS.split_lines (d :: s)); discriminate.
Qed.

Lemma glue_single l ws : ws <> [] -> glue [l] ws = (l ++ hd [] ws) :: tl ws.
Proof. destruct ws; [congruence | reflexivity]. Qed.

Lemma glue_cons l ls ws : ls <> [] -> glue (l :: ls) ws = l :: glue ls ws.
Proof. destruct ls; [congruence | reflexivity]. Qed.

Lemma glue_cons_line c ls ws :
  ls <> [] -> ws <> [] -> JS.cons_line c (glue ls ws) = glue (JS.cons_line c ls) ws.
Proof.
  destruct ls as [|l ls]; [congruence|]. intros _ Hws.
  destruct ls as [|l' ls]; [destruct ws; [congruence | reflexivity] | reflexivity].
Qed.

Lemma glue_blank ls r : ls <> [] -> glue ls ([] :: r) = ls ++ r.
Proof.
  induction ls as [|l ls IH]; [congruence|]. intros _.
  destruct ls as [|l' ls]; [simpl; rewrite app_nil_r; reflexivity|].
  rewrite glue_cons by discriminate. rewrite IH by discriminate. reflexivity.
Qed.

Lemma split_lines_cons_LF s : JS.split_lines (LF :: s) = [] :: JS.split_lines s.
Proof. reflexivity. Qed.

Lemma split_lines_cons2 x y s :
  JS.split_lines (x :: y :: s)
  = if x =? LF then [] :: JS.split_lines (y :: s)
    else if (x =? CR) && (y =? LF) then [] :: JS.split_lines s
         else JS.cons_line x (JS.split_lines (y :: s)).
Proof. reflexivity. Qed.

Lemma split_lines_app p : forall w,
  last p <> Some CR ->
  JS.split_lines (p ++ w) = glue (JS.split_lines p) (JS.split_lines w).
Proof.
  induction p as [| x | x y l IHl IHyl] using list_ind2; intros w Hlast.
  - simpl. pose proof (split_lines_nonempty w).
    destruct (JS.split_lines w); [congruence | reflexivity].
  - assert (Hx : x <> CR) by (intros ->; apply Hlast; reflexivity).
    simpl. destruct (x =? LF) eqn:E.
    + pose proof (split_lines_nonempty w).
      destruct (JS.split_lines w); [congruence | reflexivity].
    + apply N.eqb_neq in Hx. destruct w as [|d w]; [simpl; reflexivity|].
      rewrite Hx. simpl andb. cbv iota.
      pose proof (split_lines_nonempty (d :: w)).
      destruct (JS.split_lines (d :: w)); [congruence | reflexivity].
  - assert (Hyl : last (y :: l) <> Some CR) by exact Hlast.
    assert (Hl : last l <> Some CR).
    { destruct l; [discriminate | exact Hlast]. }
    change ((x :: y :: l) ++ w) with (x :: y :: (l ++ w)).
    rewrite !split_lines_cons2.
    destruct (x =? LF).
    + change (y :: l ++ w) with ((y :: l) ++ w). rewrite IHyl by exact Hyl.
      rewrite glue_cons by apply split_lines_nonempty. reflexivity.
    + destruct ((x =? CR) && (y =? LF)).
      * rewrite IHl by exact Hl.
        rewrite glue_cons by apply split_lines_nonempty. reflexivity.
      * change (y :: l ++ w) with ((y :: l) ++ w). rewrite IHyl by exact Hyl.
        apply glue_cons_line; apply split_lines_nonempty.
Qed.

Lemma split_lines_app_LF a b :
  last a <> Some CR ->
  JS.split_lines (a ++ LF :: b) = JS.split_lines a ++ JS.split_lines b.
Proof.
  intros H. rewrite split_lines_app by exact H.
  rewrite split_lines_cons_LF. apply glue_blank, split_lines_nonempty.
Qed.

Lemma split_lines_free s :
  Forall (fun c => c <> LF) s -> JS.split_lines s = [s].
Proof.
  induction 1 as [|c s Hc Hs IH]; [reflexivity|].
  simpl. apply N.eqb_neq in Hc. rewrite Hc.
  destruct s as [|d s]; [reflexivity|].
  inversion Hs as [|? ? Hd _]; subst. apply N.eqb_neq in Hd.
  rewrite Hd, andb_false_r, IH. reflexivity.
Qed.

Lemma join_cons_line sep c ls :
  ls <> [] -> JS.join sep (JS.cons_line c ls) = c :: JS.join sep ls.
Proof.
  destruct ls as [|l ls]; [congruence|]. intros _.
  destruct ls; reflexivity.
Qed.

Lemma join_blank sep ls : ls <> [] -> JS.join sep ([] :: ls) = sep ++ JS.join sep ls.
Proof. destruct ls; [congruence | reflexivity]. Qed.

Lemma join_snoc_blank sep ls :
  ls <> [] -> JS.join sep (ls ++ [[]]) = JS.join sep ls ++ sep.
Proof.
  induction ls as [|l ls IH]; [congruence|]. intros _.
  destruct ls as [|l' ls]; [simpl; rewrite app_nil_r; reflexivity|].
  change ((l :: l' :: ls) ++ [[]]) with (l :: (l' :: ls) ++ [[]]).
  change (JS.join sep (l :: (l' :: ls) ++ [[]]))
    with (l ++ sep ++ JS.join sep ((l' :: ls) ++ [[]])).
  rewrite IH by discriminate.
  change (JS.join sep (l :: l' :: ls)) with (l ++ sep ++ JS.join sep (l' :: ls)).
  rewrite <- !app_assoc. reflexivity.
Qed.

Lemma join_split_lines s :
  has_crlf s = false -> JS.join [LF] (JS.split_lines s) = s.
Proof.
  induction s as [| x | x y l IHl IHyl] using list_ind2; intros H.
  - reflexivity.
  - simpl. destruct (x =? LF) eqn:E; [|reflexivity].
    apply N.eqb_eq in E. subst x. reflexivity.
  - simpl in H. apply orb_false_iff in H. destruct H as [Hxy Hyl].
    rewrite split_lines_cons2, Hxy.
    destruct (x =? LF) eqn:E.
    + apply N.eqb_eq in E. subst x.
      rewrite join_blank by apply split_lines_nonempty.
      simpl app. f_equal. apply IHyl, Hyl.
    + rewrite join_cons_line by apply split_lines_nonempty.
      f_equal. apply IHyl, Hyl.
Qed.

Lemma has_crlf_app a b : has_crlf (a ++ b) = false -> has_crlf a = false.
Proof.
  induction a as [| x | x y l IHl IHyl] using list_ind2; intros H;
    [reflexivity | reflexivity |].
  simpl in *. apply orb_false_iff in H. destruct H as [Hxy Hyl].
  rewrite Hxy. simpl. apply IHyl, Hyl.
Qed.

Lemma has_crlf_last a : has_crlf (a ++ [LF]) = false -> last a <> Some CR.
Proof.
  induction a as [|x a IH]; [discriminate|].
  intros H. destruct a as [|y a].
  - intros Hl. inversion Hl. subst x. vm_compute in H. discriminate.
  - rewrite last_cons_cons. apply IH.
    simpl in H. apply orb_false_iff in H. apply H.
Qed.

End Lines.

(** *** The marker pattern *)

Section Marker.

Import FileNameRegexp.

Implicit Types (s w acc cap rest k : jsstring).

Lemma match_here_unfold s :
  match_here s
  = spaces (literal (str "//")
              (spaces (literal (str "@filename:") (spaces (dots last_step [])))))
      s.
Proof. reflexivity. Qed.

Lemma spaces_cons {A} (f : jsstring -> option A) c s :
  spaces f (c :: s)
  = if JS.is_white_space c then
      match spaces f s with
      | Some r => Some r
      | None => f (c :: s)
      end
    else f (c :: s).
Proof. reflexivity. Qed.

Lemma dots_cons {A} (f : jsstring -> jsstring -> option A) acc c s :
  dots f acc (c :: s)
  = if JS.is_line_terminator c then None
    else match dots f (acc ++ [c]) s with
         | Some r => Some r
         | None => f (acc ++ [c]) s
         end.
Proof. reflexivity. Qed.

Lemma search_cons bol c s :
  search bol (c :: s)
  = match (if bol then match_here (c :: s) else None) with
    | Some cap => Some cap
    | None => search (JS.is_line_terminator c) s
    end.
Proof. reflexivity. Qed.

Lemma search_nil bol :
  search bol [] = match (if bol then match_here [] else None) with
                  | Some cap => Some cap
                  | None => None
                  end.
Proof. reflexivity. Qed.

(** **** A match survives any text added behind it *)

Lemma spaces_fallback {A} (f : jsstring -> option A) s :
  is_Some (f s) -> is_Some (spaces f s).
Proof.
  destruct s as [|c s]; [auto|]. rewrite spaces_cons.
  destruct (JS.is_white_space c); [|auto].
  destruct (spaces f s); eauto.
Qed.

Lemma spaces_extend {A} (f f' : jsstring -> option A) w :
  (forall s, is_Some (f s) -> is_Some (f' (s ++ w))) ->
  forall s, is_Some (spaces f s) -> is_Some (spaces f' (s ++ w)).
Proof.
  intros Hf. induction s as [|c s IH]; intros H.
  - apply spaces_fallback, (Hf []), H.
  - simpl app. rewrite spaces_cons in *.
    destruct (JS.is_white_space c); [|apply (Hf (c :: s)), H].
    destruct (spaces f s) as [r|].
    + destruct (IH ltac:(eauto)) as [r' Hr']. rewrite Hr'. eauto.
    + destruct (spaces f' (s ++ w)); [eauto|]. apply (Hf (c :: s)), H.
Qed.

Lemma literal_extend {A} pat (f f' : jsstring -> option A) w :
  (forall s, is_Some (f s) -> is_Some (f' (s ++ w))) ->
  forall s, is_Some (literal pat f s) -> is_Some (literal pat f' (s ++ w)).
Proof.
  intros Hf. induction pat as [|p pat IH]; intros s H.
  - destruct s; apply Hf, H.
  - destruct s as [|c s]; simpl in *; [destruct H; discriminate|].
    destruct (canonicalize c =? canonicalize p); [apply IH, H|].
    destruct H; discriminate.
Qed.

Lemma dots_starts s : forall acc c,
  JS.is_line_terminator c = false -> is_Some (dots last_step acc (c :: s)).
Proof.
  induction s as [|d s IH]; intros acc c Hc; rewrite dots_cons, Hc.
  - simpl. eauto.
  - destruct (JS.is_line_terminator d) eqn:Hd.
    + rewrite dots_cons, Hd. unfold last_step. simpl. rewrite Hd. eauto.
    + destruct (IH (acc ++ [c]) d Hd) as [r Hr]. rewrite Hr. eauto.
Qed.

Lemma dots_extend w s : forall acc,
  is_Some (dots last_step acc s) -> is_Some (dots last_step acc (s ++ w)).
Proof.
  induction s as [|c s IH]; intros acc H.
  - simpl in H. destruct H; discriminate.
  - simpl app. rewrite dots_cons in H.
    destruct (JS.is_line_terminator c) eqn:Hc; [destruct H; discriminate|].
    destruct (dots last_step (acc ++ [c]) s) as [r|] eqn:E.
    + rewrite dots_cons, Hc.
      destruct (IH (acc ++ [c]) ltac:(rewrite E; eauto)) as [r' Hr'].
      rewrite Hr'. eauto.
    + destruct s as [|d s]; [apply dots_starts, Hc|].
      unfold last_step in H. simpl in H.
      destruct (JS.is_line_terminator d) eqn:Hd; [|destruct H; discriminate].
      rewrite dots_cons, Hc. simpl app. rewrite dots_cons, Hd.
      unfold last_step. simpl. rewrite Hd. eauto.
Qed.

Lemma match_here_extend s w :
  is_Some (match_here s) -> is_Some (match_here (s ++ w)).
Proof.
  rewrite !match_here_unfold.
  apply spaces_extend, literal_extend, spaces_extend, literal_extend, spaces_extend.
  intros s'. apply dots_extend.
Qed.

Lemma search_extend w s : forall bol,
  is_Some (search bol s) -> is_Some (search bol (s ++ w)).
Proof.
  induction s as [|c s IH]; intros bol H.
  - rewrite search_nil in H. destruct bol; [|destruct H; discriminate].
    destruct (match_here []) as [cap|] eqn:E; [|destruct H; discriminate].
    assert (Hm : is_Some (match_here ([] ++ w))) by (apply match_here_extend; rewrite E; eauto).
    simpl app in *. destruct Hm as [cap' Hm].
    destruct w as [|d w]; [rewrite search_nil | rewrite search_cons];
      rewrite Hm; eauto.
  - simpl app. rewrite search_cons in *.
    destruct bol.
    + destruct (match_here (c :: s)) as [cap|] eqn:E.
      * assert (Hm : is_Some (match_here ((c :: s) ++ w)))
          by (apply match_here_extend; rewrite E; eauto).
        destruct Hm as [cap' Hm]. simpl app in Hm. rewrite Hm. eauto.
      * destruct (match_here (c :: s ++ w)); [eauto | apply IH, H].
    + apply IH, H.
Qed.

Lemma exec_extend s w : is_Some (exec s) -> is_Some (exec (s ++ w)).
Proof. apply search_extend. Qed.

Lemma exec_prefix_None s w : exec (s ++ w) = None -> exec s = None.
Proof.
  intros H. destruct (exec s) as [cap|] eqn:E; [|reflexivity].
  destruct (exec_extend s w) as [cap' Hc]; [rewrite E; eauto | congruence].
Qed.

(** **** The marker line the worker writes *)

Lemma dots_all s : forall acc,
  s <> [] -> line_terminator_free s = true -> dots last_step acc s = Some (acc ++ s).
Proof.
  induction s as [|c s IH]; intros acc Hne Hfree; [congruence|].
  simpl in Hfree. apply andb_true_iff in Hfree. destruct Hfree as [Hc Hs].
  apply negb_true_iff in Hc. rewrite dots_cons, Hc.
  destruct s as [|d s].
  - reflexivity.
  - rewrite IH by (discriminate || exact Hs). rewrite <- app_assoc. reflexivity.
Qed.

Lemma marker_prefix {A} (f : jsstring -> option A) rest :
  spaces (literal (str "//") (spaces (literal (str "@filename:") f)))
    (str "// @filename:" ++ rest)
  = f rest.
Proof. vm_compute. destruct (f rest); reflexivity. Qed.

Lemma match_here_marker k :
  Path.isAbsolute k = true -> line_terminator_free k = true ->
  match_here (str "// @filename: " ++ k) = Some k.
Proof.
  intros Habs Hfree. rewrite match_here_unfold.
  change (str "// @filename: " ++ k) with (str "// @filename:" ++ 32 :: k).
  rewrite marker_prefix.
  destruct k as [|c k]; [discriminate|].
  simpl in Habs. apply N.eqb_eq in Habs. subst c.
  rewrite spaces_cons. change (JS.is_white_space 32) with true. cbv iota.
  rewrite spaces_cons. change (JS.is_white_space SLASH) with false. cbv iota.
  rewrite dots_all by (discriminate || exact Hfree). reflexivity.
Qed.

Lemma exec_marker k :
  Path.isAbsolute k = true -> line_terminator_free k = true ->
  exec (str "// @filename: " ++ k) = Some k.
Proof.
  intros Habs Hfree. unfold exec.
  change (str "// @filename: " ++ k) with (47 :: (str "/ @filename: " ++ k)).
  rewrite search_cons.
  change (47 :: (str "/ @filename: " ++ k)) with (str "// @filename: " ++ k).
  rewrite match_here_marker by assumption. reflexivity.
Qed.

End Marker.

(** *** Trimming *)

Section Trim.

Implicit Types (s a b v : jsstring).

Lemma trimStart_app_keep a b :
  JS.trimStart a <> [] -> JS.trimStart (a ++ b) = JS.trimStart a ++ b.
Proof.
  induction a as [|c a IH]; simpl; [congruence|].
  destruct (JS.is_white_space c); [exact IH | reflexivity].
Qed.

Lemma trimStart_app_drop a b :
  JS.trimStart a = [] -> JS.trimStart (a ++ b) = JS.trimStart b.
Proof.
  induction a as [|c a IH]; simpl; [reflexivity|].
  destruct (JS.is_white_space c); [exact IH | discriminate].
Qed.

Lemma trimStart_suffix s : exists w, s = w ++ JS.trimStart s.
Proof.
  induction s as [|c s [w IH]]; simpl; [exists []; reflexivity|].
  destruct (JS.is_white_space c); [|exists []; reflexivity].
  exists (c :: w). simpl. f_equal. exact IH.
Qed.

Lemma trimStart_head s c r :
  JS.trimStart s = c :: r -> JS.is_white_space c = false.
Proof.
  induction s as [|d s IH]; simpl; [discriminate|].
  destruct (JS.is_white_space d) eqn:E; [exact IH|].
  intros H. inversion H. subst. exact E.
Qed.

Lemma rev_nil_inv {A} (l : list A) : rev l = [] -> l = [].
Proof.
  intros H. apply (f_equal (@rev A)) in H. rewrite rev_involutive in H. exact H.
Qed.

Lemma trimEnd_app_keep a b :
  JS.trimEnd b <> [] -> JS.trimEnd (a ++ b) = a ++ JS.trimEnd b.
Proof.
  unfold JS.trimEnd. intros H.
  rewrite rev_app_distr, trimStart_app_keep, rev_app_distr, rev_involutive;
    [reflexivity|].
  intros E. apply H. rewrite E. reflexivity.
Qed.

Lemma trimEnd_app_drop a b :
  JS.trimEnd b = [] -> JS.trimEnd (a ++ b) = JS.trimEnd a.
Proof.
  unfold JS.trimEnd. intros H. apply rev_nil_inv in H.
  rewrite rev_app_distr, trimStart_app_drop by exact H. reflexivity.
Qed.

Lemma trimEnd_prefix v : exists w, v = JS.trimEnd v ++ w.
Proof.
  unfold JS.trimEnd. destruct (trimStart_suffix (rev v)) as [w Hw].
  exists (rev w). rewrite <- rev_app_distr, <- Hw, rev_involutive. reflexivity.
Qed.

Lemma trimEnd_last v c :
  last (JS.trimEnd v) = Some c -> JS.is_white_space c = false.
Proof.
  unfold JS.trimEnd. destruct (JS.trimStart (rev v)) as [|d r] eqn:E; [discriminate|].
  simpl rev. rewrite last_snoc. intros H. inversion H. subst.
  eapply trimStart_head, E.
Qed.

Lemma trimEnd_last_not_CR v : last (JS.trimEnd v) <> Some CR.
Proof. intros H. apply trimEnd_last in H. discriminate. Qed.

End Trim.

(** *** Normalized paths are fixed points of the resolution *)

Section Resolve.

Lemma split_on_snoc sep s :
  JS.split_on sep (s ++ [sep]) = JS.split_on sep s ++ [[]].
Proof.
  induction s as [|c s IH]; simpl.
  - rewrite N.eqb_refl. reflexivity.
  - rewrite IH. destruct (c =? sep); [reflexivity|].
    apply cons_line_app, split_on_nonempty.
Qed.

Lemma normalize_segments_keep segs : forall stack rest,
  Forall (fun seg => Path.good_segment seg = true) segs ->
  Path.normalize_segments false stack (segs ++ rest)
  = Path.normalize_segments false (rev segs ++ stack) rest.
Proof.
  induction segs as [|seg segs IH]; intros stack rest Hgood; [reflexivity|].
  inversion Hgood as [|? ? Hseg Hsegs]; subst.
  unfold Path.good_segment in Hseg. rewrite !andb_true_iff, !negb_true_iff in Hseg.
  destruct Hseg as [[[E1 E2] E3] _].
  simpl. rewrite E1, E2, E3. simpl. rewrite IH by exact Hsegs.
  rewrite <- app_assoc. reflexivity.
Qed.

Lemma normalized_shape k :
  Path.is_normalized_absolute k = true ->
  exists rest, k = SLASH :: rest
    /\ (rest = [] \/ forallb Path.good_segment (JS.split_on SLASH rest) = true).
Proof.
  destruct k as [|c rest]; [discriminate|]. simpl.
  rewrite andb_true_iff, orb_true_iff. intros [Hc Hrest].
  apply N.eqb_eq in Hc. subst c. exists rest. split; [reflexivity|].
  destruct Hrest as [H|H]; [left; apply eqb_true, H | right; exact H].
Qed.

Lemma resolve_root_id k :
  Path.is_normalized_absolute k = true -> Path.resolve_root k = k.
Proof.
  intros H. destruct (normalized_shape k H) as (rest & -> & Hrest).
  destruct Hrest as [-> | Hgood]; [reflexivity|].
  unfold Path.resolve_root, Path.normalizeString.
  change (Path.isAbsolute (SLASH :: rest)) with true. cbv iota.
  change ((SLASH :: rest) ++ [SLASH]) with (SLASH :: (rest ++ [SLASH])).
  change (JS.split_on SLASH (SLASH :: (rest ++ [SLASH])))
    with ([] :: JS.split_on SLASH (rest ++ [SLASH])).
  rewrite split_on_snoc.
  change (Path.normalize_segments false [] ([] :: JS.split_on SLASH rest ++ [[]]))
    with (Path.normalize_segments false [] (JS.split_on SLASH rest ++ [[]])).
  rewrite normalize_segments_keep
    by (apply Forall_forall; intros seg Hin; rewrite forallb_forall in Hgood;
        apply Hgood, list_elem_of_In, Hin).
  simpl. rewrite app_nil_r, rev_involutive, join_split_on. reflexivity.
Qed.

Lemma normalized_absolute k :
  Path.is_normalized_absolute k = true -> Path.isAbsolute k = true.
Proof.
  intros H. destruct (normalized_shape k H) as (rest & -> & _). reflexivity.
Qed.

End Resolve.

(** *** The stream of the worker and its blocks *)

Section RoundTrip.

Implicit Types (m : list (jsstring * jsstring)) (e : jsstring * jsstring)
  (k v : jsstring).

Lemma multiplex_fold read ks : forall acc,
  fold_left (Worker.multiplex_step [] read) ks acc
  = acc ++ concat (map (fun p => chunk (p, read p)) ks).
Proof.
  induction ks as [|p ks IH]; intros acc;
    cbn [fold_left map concat]; [rewrite app_nil_r; reflexivity|].
  rewrite IH. unfold Worker.multiplex_step, chunk.
  change (JsMap.has [] p) with false. cbv iota. cbn [fst snd].
  rewrite <- !app_assoc. cbn [app]. rewrite <- !app_assoc. cbn [app]. reflexivity.
Qed.

Lemma get_NoDup m :
  NoDup (JsMap.keys m) -> forall e, e ∈ m -> JsMap.get m (fst e) = Some (snd e).
Proof.
  unfold JsMap.keys, JsMap.get.
  induction m as [|e0 m IH]; intros Hnd e Hin; [inversion Hin|].
  simpl in *. apply NoDup_cons in Hnd. destruct Hnd as [Hfresh Hnd].
  apply elem_of_cons in Hin. destruct Hin as [->|Hin].
  - rewrite eqb_refl. reflexivity.
  - destruct (JS.eqb (fst e0) (fst e)) eqn:E; [|apply IH; assumption].
    apply eqb_true in E. exfalso. apply Hfresh. rewrite E.
    apply list_elem_of_fmap. exists e. split; [reflexivity | exact Hin].
Qed.

Lemma encode_raw m :
  NoDup (JsMap.keys m) -> Worker.encode m = JS.trim (concat (map chunk m)).
Proof.
  intros Hnd. unfold Worker.encode, Worker.multiplex. rewrite multiplex_fold.
  simpl app. f_equal. f_equal. unfold JsMap.keys. rewrite map_map.
  apply map_ext_in. intros e Hin.
  rewrite (get_NoDup m Hnd e) by (apply list_elem_of_In; exact Hin).
  destruct e; reflexivity.
Qed.

Lemma multiplex_skips files read ks : forall acc,
  fold_left (Worker.multiplex_step files read) ks acc
  = acc ++ concat (map (fun p => chunk (p, read p))
                     (List.filter (fun p => negb (JsMap.has files p)) ks)).
Proof.
  induction ks as [|p ks IH]; intros acc;
    cbn [fold_left List.filter]; [rewrite app_nil_r; reflexivity|].
  rewrite IH. unfold Worker.multiplex_step, chunk.
  destruct (JsMap.has files p); cbn [negb map concat fst snd]; [reflexivity|].
  rewrite <- !app_assoc. cbn [app]. rewrite <- !app_assoc. cbn [app]. reflexivity.
Qed.

(** What runBebopc sends after a successful build is the encoding of the
    files the walk finds and the caller did not supply. *)
Lemma runBebopc_sends_encoding sandbox files args :
  let run := sandbox files args in
  let produced :=
    map (fun p => (p, Worker.readFileSync (Worker.fs run) p))
      (List.filter (fun p => negb (JsMap.has files p))
         (Worker.walk (Worker.fs run) [SLASH])) in
  Worker.termination run = Worker.Completed ->
  JS.includes args (str "build") = true ->
  JS.includes args (str "--stdout") = false ->
  NoDup (JsMap.keys produced) ->
  Worker.runBebopc sandbox files args
  = Worker.Response {| exitCode := 0; stdErr := Worker.stderr run;
                       stdOut := Worker.encode produced |}.
Proof.
  intros run produced Hdone Hbuild Hraw Hnd.
  unfold Worker.runBebopc. fold run. rewrite Hdone, Hbuild, Hraw.
  cbn [negb andb orb Z.eqb]. cbv iota.
  rewrite (encode_raw produced Hnd).
  unfold Worker.multiplex. rewrite multiplex_skips. cbn [app].
  unfold produced. rewrite map_map. reflexivity.
Qed.

Lemma stream_starts m :
  m <> [] -> exists e rest, hd_error m = Some e
                            /\ stream m = (str "// @filename: " ++ fst e) ++ rest.
Proof.
  destruct m as [|e m]; [congruence|]. intros _. exists e.
  destruct m as [|e' m].
  - eexists. split; reflexivity.
  - exists (LF :: (snd e ++ [LF; LF]) ++ stream (e' :: m)).
    split; [reflexivity|].
    change (stream (e :: e' :: m)) with (chunk e ++ stream (e' :: m)).
    unfold chunk.
    exact (eq_sym (app_assoc (str "// @filename: " ++ fst e)
                     (LF :: (snd e ++ [LF; LF])) (stream (e' :: m)))).
Qed.

Lemma stream_cons e e' m :
  stream (e :: e' :: m)
  = (str "// @filename: " ++ fst e)
    ++ LF :: (snd e ++ LF :: (LF :: stream (e' :: m))).
Proof.
  change (stream (e :: e' :: m)) with (chunk e ++ stream (e' :: m)).
  unfold chunk. rewrite <- (app_assoc (str "// @filename: " ++ fst e)).
  cbn [app]. rewrite <- (app_assoc (snd e)). reflexivity.
Qed.

Lemma stream_nonempty m : m <> [] -> stream m <> [].
Proof.
  intros H. destruct (stream_starts m H) as (e & rest & _ & ->). discriminate.
Qed.

Lemma portable_key_trim k : portable_key k = true -> JS.trimEnd k = k /\ k <> [].
Proof.
  unfold portable_key. rewrite !andb_true_iff. intros [[Hn _] Ht].
  split; [apply eqb_true, Ht|]. destruct k; [discriminate | discriminate].
Qed.

Lemma trimEnd_chunk e :
  portable_key (fst e) = true -> JS.trimEnd (chunk e) = stream [e].
Proof.
  intros Hk. apply portable_key_trim in Hk. destruct Hk as [Hk Hne].
  unfold chunk, stream.
  change (LF :: snd e ++ [LF; LF]) with (([LF] ++ snd e) ++ [LF; LF]).
  rewrite (app_assoc (str "// @filename: " ++ fst e)).
  rewrite (trimEnd_app_drop _ [LF; LF]) by reflexivity.
  destruct (JS.trimEnd (snd e)) as [|c t] eqn:E.
  - rewrite app_assoc, (trimEnd_app_drop _ (snd e)) by exact E.
    rewrite (trimEnd_app_drop _ [LF]) by reflexivity.
    rewrite trimEnd_app_keep by (rewrite Hk; exact Hne).
    rewrite Hk, app_nil_r. reflexivity.
  - rewrite app_assoc, (trimEnd_app_keep _ (snd e)) by (rewrite E; discriminate).
    rewrite E, <- app_assoc. reflexivity.
Qed.

Lemma trimEnd_raw m :
  m <> [] -> Forall entry_ok m -> JS.trimEnd (concat (map chunk m)) = stream m.
Proof.
  induction m as [|e m IH]; [congruence|]. intros _ Hall.
  inversion Hall as [|? ? [Hk _] Hrest]; subst.
  destruct m as [|e' m].
  - simpl concat. rewrite app_nil_r. apply trimEnd_chunk, Hk.
  - change (concat (map chunk (e :: e' :: m)))
      with (chunk e ++ concat (map chunk (e' :: m))).
    assert (Hs : JS.trimEnd (concat (map chunk (e' :: m))) = stream (e' :: m))
      by (apply IH; [discriminate | exact Hrest]).
    rewrite trimEnd_app_keep by (rewrite Hs; apply stream_nonempty; discriminate).
    rewrite Hs. reflexivity.
Qed.

Lemma encode_stream m :
  m <> [] -> NoDup (JsMap.keys m) -> Forall entry_ok m -> Worker.encode m = stream m.
Proof.
  intros Hne Hnd Hall. rewrite encode_raw by exact Hnd. unfold JS.trim.
  assert (Hstart : JS.trimStart (concat (map chunk m)) = concat (map chunk m)).
  { destruct m as [|e m]; [congruence|]. reflexivity. }
  rewrite Hstart. apply trimEnd_raw; assumption.
Qed.

(** **** Lines that are not markers *)

Lemma marker_free_lines v : marker_free v = true -> no_marker (JS.split_lines v).
Proof.
  unfold marker_free, no_marker. rewrite forallb_forall, Forall_forall.
  intros H line Hin. apply list_elem_of_In, H in Hin.
  apply negb_true_iff, bool_decide_eq_false in Hin.
  destruct (FileNameRegexp.exec line); [exfalso; apply Hin; eauto | reflexivity].
Qed.

Lemma content_lines_cons line rest :
  content_lines (line :: rest)
  = match FileNameRegexp.exec line with
    | Some _ => []
    | None => line :: content_lines rest
    end.
Proof. reflexivity. Qed.

Lemma marker_blocks_cons line rest :
  marker_blocks (line :: rest)
  = match FileNameRegexp.exec line with
    | Some group1 =>
        (Path.resolve_root group1, JS.join [LF] (content_lines rest))
        :: marker_blocks rest
    | None => marker_blocks rest
    end.
Proof. reflexivity. Qed.

Lemma content_lines_app ls rest :
  no_marker ls -> content_lines (ls ++ rest) = ls ++ content_lines rest.
Proof.
  induction 1 as [|l ls Hl _ IH]; simpl; [reflexivity|].
  rewrite Hl, IH. reflexivity.
Qed.

Lemma marker_blocks_app ls rest :
  no_marker ls -> marker_blocks (ls ++ rest) = marker_blocks rest.
Proof.
  induction 1 as [|l ls Hl _ IH]; simpl; [reflexivity|].
  rewrite Hl, IH. reflexivity.
Qed.

Lemma glue_prefix ls ws l :
  l ∈ ls -> exists ext, (l ++ ext) ∈ glue ls ws.
Proof.
  induction ls as [|l0 ls IH]; intros Hin; [inversion Hin|].
  destruct ls as [|l1 ls].
  - apply list_elem_of_singleton in Hin. subst l0.
    destruct ws as [|w0 ws]; simpl.
    + exists []. rewrite app_nil_r. left.
    + exists w0. left.
  - rewrite glue_cons by discriminate.
    apply elem_of_cons in Hin. destruct Hin as [->|Hin].
    + exists []. rewrite app_nil_r. left.
    + destruct (IH Hin) as [ext Hext]. exists ext. right. exact Hext.
Qed.

(** The lines of a content without the white space at its end are
    beginnings of lines of the content. *)
Lemma trimEnd_no_marker v :
  no_marker (JS.split_lines v) -> no_marker (JS.split_lines (JS.trimEnd v)).
Proof.
  intros Hv. destruct (trimEnd_prefix v) as [w Hw].
  rewrite Hw in Hv. rewrite split_lines_app in Hv by apply trimEnd_last_not_CR.
  unfold no_marker in *. rewrite Forall_forall in *. intros l Hl.
  destruct (glue_prefix _ (JS.split_lines w) l Hl) as [ext Hext].
  apply Hv in Hext. eapply exec_prefix_None, Hext.
Qed.

Lemma line_terminator_free_LF s :
  line_terminator_free s = true -> Forall (fun c => c <> LF) s.
Proof.
  unfold line_terminator_free. rewrite forallb_forall, Forall_forall.
  intros H c Hin Hc. subst c. apply list_elem_of_In, H in Hin. discriminate.
Qed.

Lemma line_terminator_free_last s :
  line_terminator_free s = true -> last s <> Some CR.
Proof.
  unfold line_terminator_free. rewrite forallb_forall.
  intros H Hl. apply last_Some_elem_of, list_elem_of_In, H in Hl. discriminate.
Qed.

Lemma marker_line_single k :
  line_terminator_free k = true ->
  JS.split_lines (str "// @filename: " ++ k) = [str "// @filename: " ++ k].
Proof.
  intros Hfree. apply split_lines_free.
  apply Forall_app. split; [|apply line_terminator_free_LF, Hfree].
  apply Forall_forall. intros c Hc Heq. subst c.
  apply list_elem_of_In in Hc. vm_compute in Hc. intuition discriminate.
Qed.

Lemma marker_line_split k rest :
  k <> [] -> line_terminator_free k = true ->
  JS.split_lines ((str "// @filename: " ++ k) ++ LF :: rest)
  = (str "// @filename: " ++ k) :: JS.split_lines rest.
Proof.
  intros Hne Hfree.
  rewrite split_lines_app_LF.
  - rewrite marker_line_single by exact Hfree. reflexivity.
  - rewrite last_app. destruct (last k) as [c|] eqn:E.
    + rewrite <- E. apply line_terminator_free_last, Hfree.
    + apply last_None in E. congruence.
Qed.

Lemma portable_key_facts k :
  portable_key k = true ->
  k <> [] /\ line_terminator_free k = true
  /\ FileNameRegexp.exec (str "// @filename: " ++ k) = Some k
  /\ Path.resolve_root k = k.
Proof.
  intros H. pose proof (portable_key_trim k H) as [_ Hne].
  unfold portable_key in H. rewrite !andb_true_iff in H. destruct H as [[Hn Hf] _].
  split; [exact Hne|]. split; [exact Hf|]. split.
  - apply exec_marker; [apply normalized_absolute, Hn | exact Hf].
  - apply resolve_root_id, Hn.
Qed.

Lemma portable_content_facts v :
  portable_content v = true ->
  has_crlf v = false /\ last v <> Some CR /\ no_marker (JS.split_lines v).
Proof.
  unfold portable_content. rewrite andb_true_iff, negb_true_iff. intros [Hc Hm].
  split; [eapply has_crlf_app, Hc|]. split; [apply has_crlf_last, Hc|].
  apply marker_free_lines, Hm.
Qed.

(** The blocks of the stream are the entries, with the content as the
    stream carries it. *)
Lemma stream_blocks m :
  m <> [] -> Forall entry_ok m ->
  (exists e rest, hd_error m = Some e
     /\ JS.split_lines (stream m) = (str "// @filename: " ++ fst e) :: rest)
  /\ marker_blocks (JS.split_lines (stream m)) = decoded m.
Proof.
  induction m as [|e m IH]; [congruence|]. intros _ Hall.
  inversion Hall as [|? ? [Hk Hv] Hrest]; subst.
  destruct (portable_key_facts _ Hk) as (Hne & Hfree & Hexec & Hres).
  destruct (portable_content_facts _ Hv) as (Hcrlf & Hlast & Hlines).
  destruct m as [|e' m].
  - cbn [stream decoded].
    destruct (JS.trimEnd (snd e)) as [|c t] eqn:Et.
    + rewrite app_nil_r, marker_line_single by exact Hfree.
      split; [eexists; eexists; split; reflexivity|].
      cbn [marker_blocks content_lines]. rewrite Hexec, Hres. reflexivity.
    + rewrite marker_line_split by assumption.
      split; [eexists; eexists; split; reflexivity|].
      cbn [marker_blocks]. rewrite Hexec, Hres.
      assert (Ht : no_marker (JS.split_lines (c :: t)))
        by (rewrite <- Et; apply trimEnd_no_marker, Hlines).
      rewrite <- (app_nil_r (JS.split_lines (c :: t))).
      rewrite content_lines_app, marker_blocks_app by exact Ht.
      cbn [marker_blocks content_lines]. rewrite app_nil_r, join_split_lines;
        [reflexivity|].
      destruct (trimEnd_prefix (snd e)) as [w Hw].
      rewrite Et in Hw. rewrite Hw in Hcrlf. eapply has_crlf_app, Hcrlf.
  - destruct (IH ltac:(discriminate) Hrest) as [(e1 & rest & He1 & Hsplit) Hblocks].
    simpl in He1. inversion He1. subst e1. clear He1.
    inversion Hrest as [|? ? [Hk' _] _]; subst.
    destruct (portable_key_facts _ Hk') as (_ & _ & Hexec' & _).
    rewrite stream_cons.
    rewrite marker_line_split by assumption.
    rewrite split_lines_app_LF by exact Hlast.
    rewrite split_lines_cons_LF, Hsplit.
    split; [eauto|].
    change (decoded (e :: e' :: m)) with ((fst e, snd e ++ [LF]) :: decoded (e' :: m)).
    rewrite <- Hblocks, Hsplit.
    assert (Hblank : no_marker (JS.split_lines (snd e) ++ [[]])).
    { apply Forall_app. split; [exact Hlines|]. repeat constructor. }
    change (JS.split_lines (snd e) ++ [] :: (str "// @filename: " ++ fst e') :: rest)
      with (JS.split_lines (snd e) ++ [[]] ++ (str "// @filename: " ++ fst e') :: rest).
    rewrite app_assoc.
    rewrite marker_blocks_cons, Hexec, Hres.
    rewrite content_lines_app, marker_blocks_app by exact Hblank.
    rewrite content_lines_cons, Hexec', app_nil_r.
    rewrite join_snoc_blank by apply split_lines_nonempty.
    rewrite join_split_lines by exact Hcrlf. reflexivity.
Qed.

Lemma set_fresh m k v : k ∉ JsMap.keys m -> JsMap.set m k v = m ++ [(k, v)].
Proof.
  unfold JsMap.keys. induction m as [|[k0 v0] m IH]; intros Hk; simpl; [reflexivity|].
  simpl in Hk. apply not_elem_of_cons in Hk. destruct Hk as [Hne Hk].
  assert (E : JS.eqb k0 k = false) by (apply eqb_false; congruence).
  rewrite E, IH by exact Hk. reflexivity.
Qed.

Lemma write_all_fresh blocks : forall m,
  NoDup (JsMap.keys (m ++ blocks)) -> write_all blocks m = m ++ blocks.
Proof.
  induction blocks as [|[k v] blocks IH]; intros m Hnd; simpl.
  - rewrite app_nil_r. reflexivity.
  - assert (Hfresh : k ∉ JsMap.keys m).
    { unfold JsMap.keys in *. rewrite map_app in Hnd. apply NoDup_app in Hnd.
      destruct Hnd as (_ & Hdisj & _). intros Hin. apply (Hdisj k Hin). left. }
    rewrite set_fresh by exact Hfresh.
    rewrite IH; rewrite <- app_assoc; [reflexivity | exact Hnd].
Qed.

Lemma decoded_keys m : JsMap.keys (decoded m) = JsMap.keys m.
Proof.
  unfold JsMap.keys. induction m as [|e m IH]; [reflexivity|].
  destruct m as [|e' m]; [reflexivity|].
  change (decoded (e :: e' :: m)) with ((fst e, snd e ++ [LF]) :: decoded (e' :: m)).
  change (fst e :: map fst (decoded (e' :: m)) = fst e :: map fst (e' :: m)).
  f_equal. exact IH.
Qed.

(** C1, as the code has it: let the keys of a file map with at least one
    entry be distinct absolute normalized paths without line terminators
    and without white space at their end, and let no content have a line
    that matches the marker pattern or a carriage return before a line
    feed or at its end.  Decoding the stream the worker builds for the
    map gives the same keys in the same order; the content under every
    key but the last is the original content followed by one line feed,
    and the content under the last key is the original content without
    the white space at its end. *)
Theorem decode_encode_up_to_trailing_space m :
  portable m -> createFileMap (Worker.encode m) = Return (decoded m).
Proof.
  intros (Hne & Hnd & Hall).
  rewrite encode_stream by assumption.
  unfold createFileMap.
  assert (Htest : FileNameRegexp.test (stream m) = true).
  { destruct (stream_starts m Hne) as (e & rest & He & ->).
    assert (He' : entry_ok e).
    { destruct m as [|e0 m]; [congruence|]. inversion He. subst e0.
      inversion Hall; assumption. }
    destruct He' as [Hk _]. destruct (portable_key_facts _ Hk) as (_ & _ & Hexec & _).
    apply bool_decide_eq_true. apply exec_extend. rewrite Hexec. eauto. }
  rewrite Htest. simpl negb. cbv iota. f_equal.
  rewrite decode_lines_blocks. simpl nonempty. cbv iota. simpl files.
  destruct (stream_blocks m Hne Hall) as [_ Hblocks]. rewrite Hblocks.
  apply (write_all_fresh (decoded m) []). simpl app.
  rewrite decoded_keys. exact Hnd.
Qed.

Lemma decode_encode_up_to_trailing_space_witness :
  portable two_plain_files
  /\ createFileMap (Worker.encode two_plain_files)
     = Return [(str "/a", str "x" ++ [LF]); (str "/b", str "y")].
Proof.
  assert (Hp : portable two_plain_files).
  { split; [discriminate|]. split.
    - change (NoDup [str "/a"; str "/b"]).
      apply NoDup_cons. split; [|apply NoDup_singleton].
      intros H. apply list_elem_of_singleton in H. vm_compute in H. discriminate.
    - repeat constructor. }
  split; [exact Hp|].
  exact (decode_encode_up_to_trailing_space two_plain_files Hp).
Defined.

(** C1 as stated fails: the keys /a and /b are absolute normalized
    paths, neither they nor the contents x and y hold a line that matches
    the marker pattern, and decoding the stream of the worker gives the
    content x followed by a line feed under /a, not the content x. *)
Lemma round_trip_adds_line_feed :
  Forall (fun e => Path.is_normalized_absolute (fst e) = true
                   /\ marker_free (fst e) = true /\ marker_free (snd e) = true)
    two_plain_files
  /\ createFileMap (Worker.encode two_plain_files)
     = Return [(str "/a", str "x" ++ [LF]); (str "/b", str "y")]
  /\ createFileMap (Worker.encode two_plain_files) <> Return two_plain_files.
Proof.
  split; [repeat constructor|].
  split; [vm_compute; reflexivity | vm_compute; discriminate].
Qed.

(** Why the keys and contents are restricted: a carriage return before a
    line feed is lost, a marker line in a content starts a new file, and
    white space at the end of the last key is trimmed with the stream. *)
Example carriage_return_is_lost :
  createFileMap (Worker.encode [(str "/a", str "x" ++ [CR; LF] ++ str "y")])
  = Return [(str "/a", str "x" ++ [LF] ++ str "y")].
Proof. vm_compute. reflexivity. Qed.

Example marker_in_content_splits :
  createFileMap (Worker.encode [(str "/a", str "// @filename: /b")])
  = Return [(str "/a", []); (str "/b", [])].
Proof. vm_compute. reflexivity. Qed.

Example space_after_last_key_is_lost :
  createFileMap (Worker.encode [(str "/a ", [])]) = Return [(str "/a", [])].
Proof. vm_compute. reflexivity. Qed.

Example line_separator_cuts_key :
  createFileMap (Worker.encode [(str "/a" ++ [8232] ++ str "b", str "x")])
  = Return [(str "/a", str "x")].
Proof. vm_compute. reflexivity. Qed.

End RoundTrip.

(** ** Beyond the claims: the memoized thunk *)

Section Memoize.

Context {W T E : Type} (fn : W -> (T + E) * W).

Lemma call_each_stored others : forall v w,
  call_each (Helpers.memoize fn) others (Some v, w)
  = (map (fun _ => inl v) others, (Some v, fold_left (fun w g => g w) others w)).
Proof.
  induction others as [|g others IH]; intros v w; [reflexivity|].
  cbn [call_each Helpers.memoize fst snd]. rewrite IH. reflexivity.
Qed.

(** X1. The closure memoize returns runs the thunk at a call exactly
    when no earlier run has returned a value.  If the run of the first
    call returns a value, every call gives that value and the thunk
    never runs again, whatever the rest of the program does between the
    calls.  If it throws, the exception goes to the caller, nothing is
    stored, and the closure goes on as a fresh one: the next call runs
    the thunk again. *)
Theorem memoize_runs_thunk_until_it_returns g others w :
  call_each (Helpers.memoize fn) (g :: others) (None, w)
  = match fn w with
    | (inl v, w') =>
        (map (fun _ => inl v) (g :: others),
         (Some v, fold_left (fun w g => g w) (g :: others) w'))
    | (inr e, w') =>
        let '(rs, final) := call_each (Helpers.memoize fn) others (None, g w') in
        (inr e :: rs, final)
    end.
Proof.
  cbn [call_each Helpers.memoize fst snd].
  destruct (fn w) as [[v|e] w'] eqn:Efn; cbn [fst snd].
  - rewrite call_each_stored. reflexivity.
  - reflexivity.
Qed.

End Memoize.

Example memoize_runs_flaky_thunk_twice :
  call_each (Helpers.memoize flaky_thunk) [id; id; id] (None, 0%nat)
  = ([inr tt; inl 2%nat; inl 2%nat], (Some 2%nat, 2%nat)).
Proof. reflexivity. Qed.

(** ** Beyond the claims: the arguments of the commands *)

Section Arguments.

Implicit Types (h : gmap nat (list jsstring)) (b : CommandBuilder).

Lemma add_string_run b flag x h xs :
  h !! args b = Some xs ->
  add_string b flag x h
  = (tt, <[args b := xs ++ match nonempty x with
                            | Some v => [str flag; v]
                            | None => []
                            end]> h).
Proof.
  intros Hl. unfold add_string.
  destruct (nonempty x) as [v|].
  - unfold mbind, mret, St_bind, St_ret. rewrite addFlag_run, Hl. reflexivity.
  - rewrite app_nil_r, insert_id by exact Hl. reflexivity.
Qed.

Lemma add_list_run b flag x h xs :
  h !! args b = Some xs ->
  add_list b flag x h
  = (tt, <[args b := xs ++ match x with
                            | Some vs => str flag :: vs
                            | None => []
                            end]> h).
Proof.
  intros Hl. unfold add_list.
  destruct x as [vs|].
  - unfold mbind, mret, St_bind, St_ret. rewrite addFlag_run, Hl. reflexivity.
  - rewrite app_nil_r, insert_id by exact Hl. reflexivity.
Qed.

Lemma add_toggle_run b (on : bool) flag h xs :
  h !! args b = Some xs ->
  (if on then _ ← addFlag b (str flag) None; mret tt else mret tt) h
  = (tt, <[args b := xs ++ (if on then [str flag] else [])]> h).
Proof.
  intros Hl. destruct on.
  - unfold mbind, mret, St_bind, St_ret. rewrite addFlag_run, Hl. reflexivity.
  - rewrite app_nil_r, insert_id by exact Hl. reflexivity.
Qed.

Lemma addRootOptions_run o b h xs :
  h !! args b = Some xs ->
  addRootOptions o b h = (tt, <[args b := xs ++ root_tokens o]> h).
Proof.
  intros Hl. unfold addRootOptions, root_tokens.
  unfold mbind at 1, St_bind at 1. rewrite (add_string_run _ _ _ _ xs Hl).
  unfold mbind at 1, St_bind at 1.
  rewrite (add_toggle_run b (trace o) "--trace" _ _ (lookup_insert_eq _ _ _)).
  rewrite insert_insert_eq.
  unfold mbind at 1, St_bind at 1.
  rewrite (add_list_run _ _ _ _ _ (lookup_insert_eq _ _ _)), insert_insert_eq.
  unfold mbind at 1, St_bind at 1.
  rewrite (add_list_run _ _ _ _ _ (lookup_insert_eq _ _ _)), insert_insert_eq.
  unfold mbind at 1, St_bind at 1.
  rewrite (add_string_run _ _ _ _ _ (lookup_insert_eq _ _ _)), insert_insert_eq.
  destruct (nonempty (diagnosticFormat o)) as [f|];
    unfold mbind, mret, St_bind, St_ret;
    rewrite addFlag_run, lookup_insert_eq, insert_insert_eq;
    cbn [default from_option id tokens fst snd]; rewrite <- !app_assoc; reflexivity.
Qed.

Lemma add_generators_run gs : forall b h xs,
  h !! args b = Some xs ->
  add_generators b gs h = (tt, <[args b := xs ++ generator_tokens gs]> h).
Proof.
  induction gs as [|g gs IH]; intros b h xs Hl.
  - cbn. rewrite app_nil_r, insert_id by exact Hl. reflexivity.
  - cbn [add_generators]. unfold mbind, St_bind. rewrite addFlag_run, Hl.
    rewrite (IH b _ _ (lookup_insert_eq _ _ _)), insert_insert_eq.
    cbn [default from_option id tokens fst snd generator_tokens flat_map].
    rewrite <- !app_assoc. reflexivity.
Qed.

Lemma build_command_run self gens opts h xs :
  h !! args (builder self) = Some xs ->
  build_command self gens opts h
  = (xs ++ build_tokens gens opts,
     <[args (builder self) := xs ++ build_tokens gens opts]> h).
Proof.
  intros Hl. destruct self as [fm [l] cfg]. cbn [builder] in *.
  unfold build_command, build_tokens, addSubCommand, createCommandBuilder,
    push, build, elements_of. cbn [builder].
  set (bc := {| args := l |}) in *.
  unfold mbind at 1, St_bind at 1. unfold mbind at 1, St_bind at 1.
  rewrite Hl. cbn [default from_option id]. unfold mret at 1, St_ret at 1.
  change {| args := args bc |} with bc.
  unfold mbind at 1, St_bind at 1.
  assert (Hgens : (match gens with
                   | Some gs => add_generators bc gs
                   | None => mret tt
                   end) (<[args bc := xs ++ [str "build"]]> h)
                  = (tt, <[args bc := (xs ++ [str "build"])
                                      ++ generator_tokens (default [] gens)]> h)).
  { destruct gens as [gs|].
    - rewrite (add_generators_run gs bc _ _ (lookup_insert_eq _ _ _)).
      rewrite insert_insert_eq. reflexivity.
    - cbn. rewrite app_nil_r. reflexivity. }
  rewrite Hgens. clear Hgens.
  unfold mbind at 1, St_bind at 1.
  set (mid := (xs ++ [str "build"]) ++ generator_tokens (default [] gens)).
  assert (Hopts : (match opts with
                   | Some o =>
                       _ ← (if noEmit o
                            then _ ← addFlag bc (str "--no-emit") None; mret tt
                            else mret tt);
                       _ ← match noWarn o with
                           | Some codes =>
                               _ ← addFlag bc (str "--no-warn")
                                     (Some (Many (map String_of codes)));
                               mret tt
                           | None => mret tt
                           end;
                       if writeToStdOut o
                       then _ ← addFlag bc (str "--stdout") None; mret tt
                       else mret tt
                   | None => mret tt
                   end) (<[args bc := mid]> h)
                  = (tt, <[args bc := mid ++ from_option option_tokens [] opts]> h)).
  { destruct opts as [o|].
    - unfold mbind at 1, St_bind at 1.
      rewrite (add_toggle_run bc (noEmit o) "--no-emit" _ _
                 (lookup_insert_eq _ _ _)), insert_insert_eq.
      unfold mbind at 1, St_bind at 1.
      assert (Hwarn : (match noWarn o with
                       | Some codes =>
                           _ ← addFlag bc (str "--no-warn")
                                 (Some (Many (map String_of codes)));
                           mret tt
                       | None => mret tt
                       end)
                        (<[args bc := mid ++ (if noEmit o then [str "--no-emit"] else [])]> h)
                      = (tt, <[args bc := (mid ++ (if noEmit o then [str "--no-emit"] else []))
                                          ++ match noWarn o with
                                             | Some codes => str "--no-warn" :: map String_of codes
                                             | None => []
                                             end]> h)).
      { destruct (noWarn o) as [codes|].
        - unfold mbind, mret, St_bind, St_ret.
          rewrite addFlag_run, lookup_insert_eq, insert_insert_eq. reflexivity.
        - cbn. rewrite app_nil_r. reflexivity. }
      rewrite Hwarn. clear Hwarn.
      rewrite (add_toggle_run bc (writeToStdOut o) "--stdout" _ _
                 (lookup_insert_eq _ _ _)), insert_insert_eq.
      cbn [from_option]. unfold option_tokens. rewrite <- !app_assoc. reflexivity.
    - cbn. rewrite app_nil_r. reflexivity. }
  rewrite Hopts. clear Hopts.
  unfold mbind, mret, St_bind, St_ret.
  rewrite lookup_insert_eq. cbn [default from_option id]. unfold mid.
  rewrite <- !app_assoc. reflexivity.
Qed.




Example String_of_writes_numbers :
  map String_of [0; 7; -12; 2 ^ 53 + 1; 123456789012345678901; 10 ^ 21; 2 ^ 1024]%Z
  = map str ["0"; "7"; "-12"; "9007199254740992"; "123456789012345680000"; "1e+21";
             "Infinity"]%string.
Proof. vm_compute. reflexivity. Qed.

(** X3. The argument array is never reset between calls: the arguments
    of a second build on the same compiler are all the arguments of the
    first build followed by the tokens of the second, so the second run
    of the binary sees the token build twice and every flag of the first
    call. *)
Theorem second_build_keeps_first_arguments self gens1 opts1 gens2 opts2 h xs :
  h !! args (builder self) = Some xs ->
  fst (build_command self gens2 opts2 (snd (build_command self gens1 opts1 h)))
  = fst (build_command self gens1 opts1 h) ++ build_tokens gens2 opts2.
Proof.
  intros Hl. rewrite (build_command_run self gens1 opts1 h xs Hl). cbn [fst snd].
  rewrite (build_command_run self gens2 opts2 _ (xs ++ build_tokens gens1 opts1))
    by apply lookup_insert_eq.
  reflexivity.
Qed.

Lemma second_build_keeps_first_arguments_witness :
  fst (build_command bare_compiler None None
         (snd (build_command bare_compiler None
                 (Some {| noEmit := false; noWarn := None; writeToStdOut := true |})
                 bare_store)))
  = map str ["bebopc"; "build"; "--stdout"; "build"]%string.
Proof.
  exact (second_build_keeps_first_arguments bare_compiler None
           (Some {| noEmit := false; noWarn := None; writeToStdOut := true |})
           None None bare_store [str "bebopc"] eq_refl).
Defined.



Lemma app5_assoc {A} (a b c d e l : list A) :
  a ++ b ++ c ++ d ++ e ++ l = (a ++ b ++ c ++ d ++ e) ++ l.
Proof. rewrite <- !app_assoc. reflexivity. Qed.

(** X5. Whatever the root options are, the last two tokens addRootOptions
    appends are --diagnostic-format and a format that is not empty: the
    one given, or json when none or the empty string is given. *)
Theorem diagnostic_format_always_passed o b h xs :
  h !! args b = Some xs ->
  exists before f,
    snd (addRootOptions o b h) !! args b
    = Some (xs ++ before ++ [str "--diagnostic-format"; f])
    /\ f <> []
    /\ (nonempty (diagnosticFormat o) = None -> f = str "json")
    /\ (forall g, nonempty (diagnosticFormat o) = Some g -> f = g).
Proof.
  intros Hl. rewrite (addRootOptions_run o b h xs Hl). cbn [snd].
  unfold root_tokens.
  eexists (_ ++ _ ++ _ ++ _ ++ _), _. split.
  - rewrite lookup_insert_eq. f_equal. f_equal. apply app5_assoc.
  - destruct (nonempty (diagnosticFormat o)) as [g|] eqn:E.
    + apply nonempty_Some in E. destruct E as [_ Hg].
      split; [exact Hg|]. split; [discriminate|]. intros g' Hg'. congruence.
    + split; [discriminate|]. split; [reflexivity | discriminate].
Qed.

Lemma diagnostic_format_always_passed_witness :
  exists before f,
    snd (addRootOptions traced_options {| args := 0%nat |} bare_store)
      !! args {| args := 0%nat |}
    = Some ([str "bebopc"] ++ before ++ [str "--diagnostic-format"; f])
    /\ f <> []
    /\ (nonempty (diagnosticFormat traced_options) = None -> f = str "json")
    /\ (forall g, nonempty (diagnosticFormat traced_options) = Some g -> f = g).
Proof.
  assert (H : bare_store !! args {| args := 0%nat |} = Some [str "bebopc"])
    by (vm_compute; reflexivity).
  exact (diagnostic_format_always_passed traced_options {| args := 0%nat |}
           bare_store [str "bebopc"] H).
Defined.

End Arguments.

(** ** Beyond the claims: the diagnostics of the standard error stream *)

Section Diagnostics.

Implicit Types (s r t body : jsstring) (v : json).

Lemma closes_app a b : closes (a ++ b) = (closes a + closes b)%nat.
Proof.
  induction a as [|c a IH]; [reflexivity|].
  cbn [app closes]. rewrite IH. destruct (c =? 125); reflexivity.
Qed.

Lemma closes_suffix r s : r `suffix_of` s -> (closes r <= closes s)%nat.
Proof. intros [k ->]. rewrite closes_app. lia. Qed.

Lemma skip_ws_suffix s : Json.skip_ws s `suffix_of` s.
Proof.
  induction s as [|c s IH]; cbn [Json.skip_ws]; [reflexivity|].
  destruct (Json.is_ws c); [apply suffix_cons_r, IH | reflexivity].
Qed.

Lemma span_digits_suffix s : snd (Json.span_digits s) `suffix_of` s.
Proof.
  induction s as [|c s IH]; cbn [Json.span_digits]; [reflexivity|].
  destruct (Json.is_digit c); [|reflexivity].
  destruct (Json.span_digits s) as [ds r]. apply suffix_cons_r, IH.
Qed.

Lemma parse_string_suffix n : forall s acc t r,
  (length s <= n)%nat -> Json.parse_string s acc = Some (t, r) -> r `suffix_of` s.
Proof.
  induction n as [|n IH]; intros s acc t r Hlen H.
  - destruct s; [discriminate | cbn in Hlen; lia].
  - destruct s as [|c s]; [discriminate|]. cbn [Json.parse_string length] in H, Hlen.
    destruct (c =? 34).
    + inversion H; subst. apply suffix_cons_r. reflexivity.
    + destruct (c =? 92).
      * destruct s as [|e s]; [discriminate|]. cbn [length] in Hlen.
        destruct (e =? 117).
        -- destruct s as [|h1 [|h2 [|h3 [|h4 s3]]]]; try discriminate.
           destruct (Json.hex_digit h1), (Json.hex_digit h2), (Json.hex_digit h3),
             (Json.hex_digit h4); try discriminate.
           cbn [length] in Hlen. apply IH in H; [|lia].
           do 6 apply suffix_cons_r. exact H.
        -- destruct (Json.escape e); [|discriminate].
           apply IH in H; [|lia]. do 2 apply suffix_cons_r. exact H.
      * destruct (c <? 32); [discriminate|].
        apply IH in H; [|lia]. apply suffix_cons_r, H.
Qed.

Lemma keyword_suffix w v0 s v r :
  Json.keyword w v0 s = Some (v, r) -> r `suffix_of` s.
Proof.
  unfold Json.keyword. destruct (JS.startsWith s (str w)); [|discriminate].
  intros H. inversion H. apply suffix_drop.
Qed.

Lemma parse_number_suffix s n r :
  Json.parse_number s = Some (n, r) -> r `suffix_of` s.
Proof.
  unfold Json.parse_number.
  assert (Hs1 : snd (match s with
                     | c :: s' => if c =? 45 then (true, s') else (false, s)
                     | [] => (false, s)
                     end) `suffix_of` s).
  { destruct s as [|c s']; [reflexivity|].
    destruct (c =? 45); cbn [snd]; [apply suffix_cons_r|]; reflexivity. }
  destruct (match s with
            | c :: s' => if c =? 45 then (true, s') else (false, s)
            | [] => (false, s)
            end) as [neg s1].
  cbn [snd] in Hs1.
  pose proof (span_digits_suffix s1) as Hs2.
  destruct (Json.span_digits s1) as [int s2]. cbn [snd] in Hs2.
  destruct int as [|d more]; [discriminate|].
  destruct ((d =? 48) && negb (bool_decide (more = []))); [discriminate|].
  match goal with
  | |- match ?f with Some _ => _ | None => _ end = _ -> _ =>
      assert (Hf : forall ftxt s3, f = Some (ftxt, s3) -> s3 `suffix_of` s2);
      [|destruct f as [[ftxt s3]|]; [specialize (Hf _ _ eq_refl) | discriminate]]
  end.
  { intros ftxt s3. destruct s2 as [|c s']; [intros H; inversion H; reflexivity|].
    destruct (c =? 46); [|intros H; inversion H; reflexivity].
    pose proof (span_digits_suffix s') as Hx.
    destruct (Json.span_digits s') as [[|f fs] r0]; [discriminate|].
    intros H; inversion H; subst. apply suffix_cons_r. exact Hx. }
  match goal with
  | |- match ?e with Some _ => _ | None => _ end = _ -> _ =>
      assert (He : forall etxt s4, e = Some (etxt, s4) -> s4 `suffix_of` s3);
      [|destruct e as [[etxt s4]|]; [specialize (He _ _ eq_refl) | discriminate]]
  end.
  { intros etxt s4. destruct s3 as [|c s']; [intros H; inversion H; reflexivity|].
    destruct ((c =? 101) || (c =? 69)); [|intros H; inversion H; reflexivity].
    match goal with
    | |- (let '(sign, s'') := ?p in _) = _ -> _ =>
        assert (Hp : snd p `suffix_of` s'); [|destruct p as [sign s'']]
    end.
    { destruct s' as [|g t0]; [reflexivity|].
      destruct ((g =? 43) || (g =? 45)); cbn [snd]; [apply suffix_cons_r|]; reflexivity. }
    cbn [snd] in Hp. pose proof (span_digits_suffix s'') as Hx.
    destruct (Json.span_digits s'') as [[|e0 es] r0]; [discriminate|].
    intros H; inversion H; subst. apply suffix_cons_r.
    etransitivity; eassumption. }
  intros H.
  assert (Hr : r = s4)
    by (destruct ftxt, etxt; try destruct (neg && _); inversion H; reflexivity).
  subst r.
  etransitivity; [exact He|]. etransitivity; [exact Hf|].
  etransitivity; [exact Hs2 | exact Hs1].
Qed.

Lemma set_field_objects acc k v :
  (fields_objects (Json.set_field acc k v) <= fields_objects acc + objects v)%nat.
Proof.
  unfold fields_objects, list_sum.
  induction acc as [|[k' v'] acc IH]; cbn [Json.set_field map fold_right fst snd].
  - lia.
  - destruct (JS.eqb k' k); cbn [map fold_right fst snd]; lia.
Qed.

Lemma list_sum_snoc l n : list_sum (l ++ [n]) = (list_sum l + n)%nat.
Proof. rewrite list_sum_app. cbn. lia. Qed.

Lemma closes_cons c s : (closes s <= closes (c :: s))%nat.
Proof. cbn [closes]. destruct (c =? 125); lia. Qed.

Lemma closes_close c s : (c =? 125) = true -> closes (c :: s) = S (closes s).
Proof. intros H. cbn [closes]. rewrite H. reflexivity. Qed.

(** Every object the parser builds has read its own closing brace. *)
Lemma parse_objects fuel :
  (forall s v r, Json.parse_value fuel s = Some (v, r) ->
     (objects v + closes r <= closes s)%nat)
  /\ (forall s acc v r, Json.parse_members fuel s acc = Some (v, r) ->
        (objects v + closes r <= fields_objects acc + closes s)%nat)
  /\ (forall s acc v r, Json.parse_elements fuel s acc = Some (v, r) ->
        (objects v + closes r <= list_sum (map objects acc) + closes s)%nat).
Proof.
  induction fuel as [|fuel (IHv & IHm & IHe)]; [repeat split; intros; discriminate|].
  split; [|split].
  - intros s v r. cbn [Json.parse_value].
    pose proof (closes_suffix _ _ (skip_ws_suffix s)) as Hs.
    destruct (Json.skip_ws s) as [|c t]; [discriminate|].
    pose proof (closes_cons c t) as Hc.
    destruct (c =? 123).
    { pose proof (closes_suffix _ _ (skip_ws_suffix t)) as Ht.
      destruct (Json.skip_ws t) as [|c' t']; [discriminate|].
      destruct (c' =? 125) eqn:E.
      - intros H. inversion H; subst. rewrite (closes_close _ _ E) in Ht.
        cbn [objects map list_sum fold_right]. lia.
      - intros H. apply IHm in H. unfold fields_objects in H.
        cbn [map list_sum fold_right] in H. lia. }
    destruct (c =? 91).
    { pose proof (closes_suffix _ _ (skip_ws_suffix t)) as Ht.
      destruct (Json.skip_ws t) as [|c' t']; [discriminate|].
      pose proof (closes_cons c' t') as Hc'.
      destruct (c' =? 93).
      - intros H. inversion H; subst. cbn [objects map list_sum fold_right]. lia.
      - intros H. apply IHe in H. cbn [map list_sum fold_right] in H. lia. }
    destruct (c =? 34).
    { destruct (Json.parse_string t []) as [[txt r']|] eqn:Hp; [|discriminate].
      apply (parse_string_suffix _ _ _ _ _ (le_n _)), closes_suffix in Hp.
      intros H. inversion H; subst. cbn [objects]. lia. }
    destruct (c =? 116).
    { intros H. pose proof H as H'. apply keyword_suffix, closes_suffix in H.
      unfold Json.keyword in H'. destruct (JS.startsWith _ _); [|discriminate].
      inversion H'; subst. cbn [objects]. lia. }
    destruct (c =? 102).
    { intros H. pose proof H as H'. apply keyword_suffix, closes_suffix in H.
      unfold Json.keyword in H'. destruct (JS.startsWith _ _); [|discriminate].
      inversion H'; subst. cbn [objects]. lia. }
    destruct (c =? 110).
    { intros H. pose proof H as H'. apply keyword_suffix, closes_suffix in H.
      unfold Json.keyword in H'. destruct (JS.startsWith _ _); [|discriminate].
      inversion H'; subst. cbn [objects]. lia. }
    destruct (Json.parse_number (c :: t)) as [[n r']|] eqn:Hp; [|discriminate].
    apply parse_number_suffix, closes_suffix in Hp.
    intros H. inversion H; subst. cbn [objects]. lia.
  - intros s acc v r. cbn [Json.parse_members].
    pose proof (closes_suffix _ _ (skip_ws_suffix s)) as Hs.
    destruct (Json.skip_ws s) as [|c t]; [discriminate|].
    pose proof (closes_cons c t) as Hc.
    destruct (c =? 34); [|discriminate].
    destruct (Json.parse_string t []) as [[key r1]|] eqn:Hp; [|discriminate].
    apply (parse_string_suffix _ _ _ _ _ (le_n _)), closes_suffix in Hp.
    pose proof (closes_suffix _ _ (skip_ws_suffix r1)) as H1.
    destruct (Json.skip_ws r1) as [|c1 r2]; [discriminate|].
    pose proof (closes_cons c1 r2) as Hc1.
    destruct (c1 =? 58); [|discriminate].
    destruct (Json.parse_value fuel r2) as [[v0 r3]|] eqn:Hv; [|discriminate].
    apply IHv in Hv.
    pose proof (closes_suffix _ _ (skip_ws_suffix r3)) as H3.
    destruct (Json.skip_ws r3) as [|c3 r4]; [discriminate|].
    pose proof (closes_cons c3 r4) as Hc3.
    pose proof (set_field_objects acc key v0) as Hset.
    destruct (c3 =? 44).
    + intros H. apply IHm in H. lia.
    + destruct (c3 =? 125) eqn:E; [|discriminate].
      intros H. inversion H; subst. rewrite (closes_close _ _ E) in H3.
      cbn [objects]. fold (fields_objects (Json.set_field acc key v0)). lia.
  - intros s acc v r. cbn [Json.parse_elements].
    destruct (Json.parse_value fuel s) as [[v0 r0]|] eqn:Hv; [|discriminate].
    apply IHv in Hv.
    pose proof (closes_suffix _ _ (skip_ws_suffix r0)) as H0.
    destruct (Json.skip_ws r0) as [|c r']; [discriminate|].
    pose proof (closes_cons c r') as Hc.
    destruct (c =? 44).
    + intros H. apply IHe in H. rewrite map_app in H. cbn [map] in H.
      rewrite list_sum_snoc in H. lia.
    + destruct (c =? 93); [|discriminate].
      intros H. inversion H; subst. cbn [objects].
      rewrite map_app. cbn [map]. rewrite list_sum_snoc. lia.
Qed.

Lemma fields_objects_zero fields :
  fields_objects fields = 0%nat -> Forall (fun e => objects (snd e) = 0%nat) fields.
Proof.
  unfold fields_objects, list_sum.
  induction fields as [|e fields IH]; cbn [map fold_right]; intros H; constructor.
  - lia.
  - apply IH. lia.
Qed.

Lemma matches_braced s : forall opened,
  match opened with
  | Some m => exists body, m = 123 :: body /\ closes body = 0%nat
  | None => True
  end ->
  Forall braced (JsonRegex.matches opened s).
Proof.
  induction s as [|c s IH]; intros opened Ho; cbn [JsonRegex.matches]; [constructor|].
  destruct opened as [m|].
  - destruct Ho as (body & -> & Hb). destruct (c =? 125) eqn:E.
    + constructor; [|apply IH; exact I].
      apply N.eqb_eq in E. subst c. exists body. split; [reflexivity | exact Hb].
    + apply IH. exists (body ++ [c]). split; [reflexivity|].
      rewrite closes_app. cbn [closes]. rewrite E, Hb. reflexivity.
  - destruct (c =? 123) eqn:E; [|apply IH; exact I].
    apply N.eqb_eq in E. subst c. apply IH. exists []. split; reflexivity.
Qed.

Lemma parse_members_object fuel : forall s acc v r,
  Json.parse_members fuel s acc = Some (v, r) -> exists fields, v = JObj fields.
Proof.
  induction fuel as [|fuel IH]; intros s acc v r; [discriminate|].
  cbn [Json.parse_members].
  destruct (Json.skip_ws s) as [|c t]; [discriminate|].
  destruct (c =? 34); [|discriminate].
  destruct (Json.parse_string t []) as [[key r1]|]; [|discriminate].
  destruct (Json.skip_ws r1) as [|c1 r2]; [discriminate|].
  destruct (c1 =? 58); [|discriminate].
  destruct (Json.parse_value fuel r2) as [[v0 r3]|]; [|discriminate].
  destruct (Json.skip_ws r3) as [|c3 r4]; [discriminate|].
  destruct (c3 =? 44); [apply IH|].
  destruct (c3 =? 125); [|discriminate].
  intros H. inversion H. eauto.
Qed.

Lemma parse_value_braced fuel s v r :
  Json.parse_value fuel (123 :: s) = Some (v, r) -> exists fields, v = JObj fields.
Proof.
  destruct fuel as [|fuel]; [discriminate|].
  cbn [Json.parse_value Json.skip_ws].
  change (Json.is_ws 123) with false. cbv iota.
  change (123 =? 123) with true. cbv iota.
  destruct (Json.skip_ws s) as [|c' r']; [discriminate|].
  destruct (c' =? 125); [intros H; inversion H; eauto|].
  apply parse_members_object.
Qed.

Lemma parse_braced t v : braced t -> Json.parse t = Some v -> flat_object v.
Proof.
  intros (body & -> & Hb). unfold Json.parse.
  destruct (Json.parse_value _ _) as [[v' r]|] eqn:Hp; [|discriminate].
  destruct (Json.skip_ws r); [|discriminate]. intros H. inversion H; subst v'. clear H.
  pose proof (proj1 (parse_objects _) _ _ _ Hp) as Hcount.
  assert (Hone : closes (123 :: body ++ [125]) = 1%nat).
  { cbn [closes]. change (123 =? 125) with false. cbv iota.
    rewrite closes_app, Hb. reflexivity. }
  apply parse_value_braced in Hp. destruct Hp as [fields ->].
  cbn [objects] in Hcount. cbn [flat_object].
  apply fields_objects_zero. unfold fields_objects. lia.
Qed.

Lemma parsed_matches_flat l :
  Forall braced l -> Forall flat_object (omap Json.parse l).
Proof.
  induction 1 as [|t ts Ht _ IH]; [constructor|].
  cbn [omap list_omap].
  destruct (Json.parse t) as [v|] eqn:Hp; [|exact IH].
  constructor; [eapply parse_braced; eassumption | exact IH].
Qed.

Lemma entry_flat stdError o : o ∈ findErrorEntries stdError -> flat_object o.
Proof.
  intros Hin. unfold findErrorEntries, JsonRegex.match_all in Hin.
  pose proof (parsed_matches_flat _ (matches_braced stdError None I)) as Hall.
  rewrite Forall_forall in Hall. apply Hall, Hin.
Qed.

(** X6. Every value findErrorEntries returns is an object, and none of
    its fields holds an object, directly or inside an array: the pattern
    stops at the first closing brace, so a diagnostic that carries an
    object (a span, say) is never found. *)
Theorem findErrorEntries_finds_flat_objects stdError :
  Forall flat_object (findErrorEntries stdError).
Proof.
  unfold findErrorEntries, JsonRegex.match_all.
  apply parsed_matches_flat, matches_braced. exact I.
Qed.

Lemma js_in_flat k o : flat_object o -> js_in k o = Return (has_field k o).
Proof. destruct o; cbn [flat_object js_in has_field]; intros H; try destruct H; reflexivity. Qed.

(** X7. For an exit code below 400 throwCompilerError does not look at
    the text: whatever objects the text holds, it throws the generic
    error with the raw text and the exit code. *)
Theorem throwCompilerError_generic_below_400 stdError code :
  (code < 400)%Z ->
  throwCompilerError stdError code = Throw (ThrowCompilerError (error3 stdError code)).
Proof.
  intros Hlt. unfold throwCompilerError.
  assert (Hge : (400 <=? code)%Z = false) by (apply Z.leb_gt; exact Hlt).
  rewrite Hge, andb_false_r. reflexivity.
Qed.

Lemma throwCompilerError_generic_below_400_witness :
  (findErrorEntries spec_example_stderr
   = [JObj [(str "severity", JStr (str "error")); (str "message", JStr (str "bad"));
            (str "errorCode", JNum (NumInt 12))]]
   /\ isCompilerException (head (findErrorEntries spec_example_stderr)) = true)
  /\ throwCompilerError spec_example_stderr 0
     = Throw (ThrowCompilerError (error3 spec_example_stderr 0)).
Proof.
  split; [split; vm_compute; reflexivity|].
  exact (throwCompilerError_generic_below_400 spec_example_stderr 0 ltac:(lia)).
Defined.

Lemma raise_last_decides {A} entries stdError code :
  (_ ← raise_last entries;
   (Throw (ThrowCompilerError (error3 stdError code)) : result A))
  = Throw (ThrowCompilerError
             match last entries with
             | Some x => if isCompilerException (Some x)
                         then exception_error x else error3 stdError code
             | None => error3 stdError code
             end).
Proof.
  unfold raise_last. destruct (last entries) as [x|]; [|reflexivity].
  destruct (isCompilerException (Some x)); reflexivity.
Qed.

(** parseStandardError as a table of its cases. *)
Lemma parseStandardError_table stdError code :
  parseStandardError stdError code
  = match findErrorEntries stdError with
    | o :: _ =>
        if (code <? 400)%Z && (has_field "warnings" o && has_field "errors" o)
        then Return (ParsedOutput o)
        else Throw (ThrowCompilerError (classified stdError code))
    | [] => Throw (ThrowCompilerError (classified stdError code))
    end.
Proof.
  unfold parseStandardError, classified.
  destruct (findErrorEntries stdError) as [|o rest] eqn:He; [reflexivity|].
  assert (Ho : flat_object o) by (apply (entry_flat stdError); rewrite He; left).
  rewrite raise_last_decides.
  destruct (code <? 400)%Z; [|reflexivity].
  cbn [all_in andb]. rewrite !(js_in_flat _ o Ho). cbn [mbind result_bind].
  destruct (has_field "warnings" o); [|reflexivity].
  cbn [mbind result_bind andb]. destruct (has_field "errors" o); reflexivity.
Qed.

(** X8. parseStandardError has two outcomes and no other.  It returns
    the first object found in the text, which happens exactly when the
    exit code is below 400 and that object has a warnings and an errors
    field; or it throws the compiler error that the last object found
    decides (the typed error of that object if it has severity, message
    and errorCode, the generic error otherwise).  It never fails with a
    TypeError of the in operator. *)
Theorem parseStandardError_returns_first_or_throws_last stdError code :
  match parseStandardError stdError code with
  | Return out =>
      exists o rest,
        findErrorEntries stdError = o :: rest /\ out = ParsedOutput o
        /\ (code < 400)%Z
        /\ js_in "warnings" o = Return true /\ js_in "errors" o = Return true
  | Throw t =>
      t = ThrowCompilerError (classified stdError code)
      /\ ((400 <= code)%Z
          \/ match findErrorEntries stdError with
             | [] => True
             | o :: _ =>
                 js_in "warnings" o = Return false \/ js_in "errors" o = Return false
             end)
  end.
Proof.
  rewrite parseStandardError_table.
  destruct (findErrorEntries stdError) as [|o rest] eqn:He.
  { split; [reflexivity | right; exact I]. }
  assert (Ho : flat_object o) by (apply (entry_flat stdError); rewrite He; left).
  destruct (code <? 400)%Z eqn:Hc.
  - apply Z.ltb_lt in Hc. cbn [andb].
    destruct (has_field "warnings" o) eqn:Hw; cbn [andb].
    + destruct (has_field "errors" o) eqn:Herr.
      * exists o, rest. rewrite !(js_in_flat _ o Ho), Hw, Herr. auto.
      * split; [reflexivity|]. right. right.
        rewrite (js_in_flat _ o Ho), Herr. reflexivity.
    + split; [reflexivity|]. right. left.
      rewrite (js_in_flat _ o Ho), Hw. reflexivity.
  - apply Z.ltb_ge in Hc. split; [reflexivity | left; exact Hc].
Qed.

End Diagnostics.

(** ** Beyond the claims: the methods of the compiler *)

Section Methods.

Implicit Types (h : gmap nat (list jsstring)) (self : Compiler).

Lemma invoke_run sandbox self flag h xs :
  h !! args (builder self) = Some xs ->
  invoke sandbox self flag h
  = (Worker.runBebopc sandbox (fileMap self) (xs ++ [str flag]),
     <[args (builder self) := xs ++ [str flag]]> h).
Proof.
  intros Hl. unfold invoke, build, elements_of, mbind, mret, St_bind, St_ret.
  rewrite addFlag_run, Hl. cbn [default from_option id tokens fst snd].
  rewrite lookup_insert_eq. reflexivity.
Qed.

Lemma invoke_runs sandbox self flag h :
  exists argv, fst (invoke sandbox self flag h)
               = Worker.runBebopc sandbox (fileMap self) argv.
Proof.
  unfold invoke, build, elements_of, mbind, mret, St_bind, St_ret.
  rewrite addFlag_run. cbn [fst]. eauto.
Qed.

Lemma runBebopc_fault sandbox files argv t :
  Worker.termination (sandbox files argv) = Worker.Fault t ->
  Worker.runBebopc sandbox files argv = Worker.ErrorText t.
Proof. intros H. unfold Worker.runBebopc. rewrite H. reflexivity. Qed.

Lemma method_result {A} sandbox self flag (k : Worker.WorkerReturn -> result A) h :
  fst ((response ← invoke sandbox self flag; mret (k response)) h)
  = k (fst (invoke sandbox self flag h)).
Proof.
  unfold mbind at 1, St_bind at 1.
  destruct (invoke sandbox self flag h) as [response h']. reflexivity.
Qed.

Lemma method_store {A} sandbox self flag (k : Worker.WorkerReturn -> result A) h :
  snd ((response ← invoke sandbox self flag; mret (k response)) h)
  = snd (invoke sandbox self flag h).
Proof.
  unfold mbind at 1, St_bind at 1.
  destruct (invoke sandbox self flag h) as [response h']. reflexivity.
Qed.

(** X9. When the binary traps, so that runBebopc resolves to a bare
    string, every method of the compiler fails with a TypeError: none of
    them raises a CompilerError and none reports the text of the trap. *)
Theorem trap_surfaces_as_TypeError sandbox self gens opts h :
  (forall files argv,
     exists t, Worker.termination (sandbox files argv) = Worker.Fault t) ->
  fst (getHelp sandbox self h) = Throw (ThrowJsError TypeError)
  /\ fst (getVersion sandbox self h) = Throw (ThrowJsError TypeError)
  /\ fst (init sandbox self h) = Throw (ThrowJsError TypeError)
  /\ fst (showConfig sandbox self h) = Throw (ThrowJsError TypeError)
  /\ fst (listSchemas sandbox self h) = Throw (ThrowJsError TypeError)
  /\ fst (BebopCompiler_build sandbox self gens opts h) = Throw (ThrowJsError TypeError).
Proof.
  intros Htrap.
  assert (Hflag : forall flag, exists t,
            fst (invoke sandbox self flag h) = Worker.ErrorText t).
  { intros flag. destruct (invoke_runs sandbox self flag h) as [argv ->].
    destruct (Htrap (fileMap self) argv) as [t Ht]. exists t.
    apply runBebopc_fault, Ht. }
  repeat split.
  - unfold getHelp. rewrite method_result.
    destruct (Hflag "--help"%string) as [t ->]. reflexivity.
  - unfold getVersion. rewrite method_result.
    destruct (Hflag "--version"%string) as [t ->]. reflexivity.
  - unfold init. rewrite method_result.
    destruct (Hflag "--init"%string) as [t ->]. reflexivity.
  - unfold showConfig. rewrite method_result.
    destruct (Hflag "--show-config"%string) as [t ->]. reflexivity.
  - unfold listSchemas. rewrite method_result.
    destruct (Hflag "--list-schemas-only"%string) as [t ->]. reflexivity.
  - rewrite BebopCompiler_build_run.
    destruct (Htrap (fileMap self) (fst (build_command self gens opts h))) as [t Ht].
    rewrite (runBebopc_fault _ _ _ _ Ht). reflexivity.
Qed.

Lemma trap_surfaces_as_TypeError_witness :
  fst (getVersion trapping_sandbox bare_compiler bare_store)
  = Throw (ThrowJsError TypeError)
  /\ fst (BebopCompiler_build trapping_sandbox bare_compiler None None bare_store)
     = Throw (ThrowJsError TypeError).
Proof.
  pose proof (trap_surfaces_as_TypeError trapping_sandbox bare_compiler None None
                bare_store
                (fun _ _ => ex_intro _ (str "RuntimeError: unreachable") eq_refl))
    as (_ & Hv & _ & _ & _ & Hb).
  split; [exact Hv | exact Hb].
Defined.

(** X10. The flags of the methods pile up in the one array of the
    compiler: after getHelp and then getVersion, a build runs the binary
    with the arguments the array held at first, then --help and
    --version, then the tokens of the build. *)
Theorem method_flags_reach_later_build sandbox self gens opts h xs :
  h !! args (builder self) = Some xs ->
  fst (build_command self gens opts
         (snd (getVersion sandbox self (snd (getHelp sandbox self h)))))
  = xs ++ [str "--help"; str "--version"] ++ build_tokens gens opts.
Proof.
  intros Hl. unfold getHelp, getVersion. rewrite !method_store.
  rewrite (invoke_run sandbox self "--help" h xs Hl). cbn [snd].
  rewrite (invoke_run sandbox self "--version" _ (xs ++ [str "--help"]))
    by apply lookup_insert_eq.
  cbn [snd].
  rewrite (build_command_run self gens opts _ ((xs ++ [str "--help"]) ++ [str "--version"]))
    by apply lookup_insert_eq.
  cbn [fst]. rewrite <- !app_assoc. reflexivity.
Qed.

Lemma method_flags_reach_later_build_witness :
  fst (build_command bare_compiler None None
         (snd (getVersion version_sandbox bare_compiler
                 (snd (getHelp version_sandbox bare_compiler bare_store)))))
  = [str "bebopc"] ++ [str "--help"; str "--version"] ++ build_tokens None None.
Proof.
  assert (H : bare_store !! args (builder bare_compiler) = Some [str "bebopc"])
    by (vm_compute; reflexivity).
  exact (method_flags_reach_later_build version_sandbox bare_compiler None None
           bare_store [str "bebopc"] H).
Defined.

Lemma throwCompilerError_outcome stdError code :
  throwCompilerError stdError code
  = Throw (ThrowCompilerError (failure stdError code)).
Proof.
  unfold throwCompilerError, failure, classified.
  destruct (400 <=? code)%Z; [|rewrite andb_false_r; reflexivity].
  rewrite andb_true_r.
  destruct (findErrorEntries stdError) as [|o rest]; [reflexivity|].
  rewrite bool_decide_eq_false_2 by discriminate. cbn [negb]. unfold raise_last.
  destruct (last (o :: rest)) as [x|]; [|reflexivity].
  destruct (isCompilerException (Some x)); reflexivity.
Qed.

Lemma includes_app a b x :
  JS.includes (a ++ b) x = JS.includes a x || JS.includes b x.
Proof. unfold JS.includes. apply existsb_app. Qed.

Lemma collects_snoc xs flag :
  JS.eqb (str "build") flag = false ->
  JS.eqb (str "--stdout") flag = false ->
  JS.eqb (str "--init") flag = false ->
  collects (xs ++ [flag]) = collects xs.
Proof.
  intros Hb Hs Hi. unfold collects. rewrite !includes_app.
  unfold JS.includes at 2 4 6. cbn [existsb]. rewrite Hb, Hs, Hi.
  rewrite !orb_false_r. reflexivity.
Qed.

(** The answer of the worker when it passes the output on. *)
Lemma runBebopc_passes_on sandbox files argv :
  collects argv = false ->
  Worker.runBebopc sandbox files argv
  = match Worker.termination (sandbox files argv) with
    | Worker.Fault t => Worker.ErrorText t
    | _ =>
        Worker.Response
          {| exitCode := default 0%Z (binary_exit (sandbox files argv));
             stdErr := Worker.stderr (sandbox files argv);
             stdOut := Worker.stdout (sandbox files argv) |}
    end.
Proof.
  intros Hc. unfold Worker.runBebopc, binary_exit. fold (collects argv). rewrite Hc.
  destruct (Worker.termination (sandbox files argv)) as [|code|t]; [reflexivity| |reflexivity].
  cbn [default from_option id].
  destruct (negb (default 127 code =? 0)%Z); reflexivity.
Qed.

Lemma text_method_response sandbox self h xs flag :
  h !! args (builder self) = Some xs ->
  (r' ← check_output (fst (invoke sandbox self flag h));
   Return (JS.trim (stdOut r')))
  = text_outcome (Worker.runBebopc sandbox (fileMap self) (xs ++ [str flag])).
Proof.
  intros Hl. rewrite (invoke_run sandbox self flag h xs Hl). cbn [fst].
  destruct (Worker.runBebopc sandbox (fileMap self) (xs ++ [str flag])) as [r|t];
    [|reflexivity].
  unfold text_outcome, failure, check_output, check_exit.
  destruct (exitCode r =? 0)%Z eqn:Hz; cbn [negb andb].
  - apply Z.eqb_eq in Hz. cbn [mbind result_bind].
    destruct (stdOut r) as [|c out] eqn:Ho.
    + rewrite bool_decide_eq_true_2 by reflexivity. cbn [negb].
      rewrite throwCompilerError_outcome. reflexivity.
    + rewrite bool_decide_eq_false_2 by discriminate.
      cbn [negb mbind result_bind]. rewrite Ho. reflexivity.
  - rewrite throwCompilerError_outcome. reflexivity.
Qed.

Lemma text_outcome_passed_on sandbox files argv :
  collects argv = false ->
  text_outcome (Worker.runBebopc sandbox files argv) = run_text (sandbox files argv).
Proof.
  intros Hc. rewrite (runBebopc_passes_on _ _ _ Hc). unfold run_text, binary_exit.
  destruct (Worker.termination (sandbox files argv)) as [|code|t]; reflexivity.
Qed.

(** X11. On a compiler whose argument array makes the worker pass the
    standard output on (it holds no --init, and no build without
    --stdout), getHelp and getVersion run the binary with the arguments
    of the array followed by their flag, and return a text exactly when
    the binary exits with code 0 and its standard output is not empty;
    the text is that output without the white space at its ends, so an
    output of white space only gives the empty text.  When the binary
    exits with another code (127 when it exits without one) or prints
    nothing they throw a compiler error and never return: the generic
    error with the raw standard error text and the exit code when the
    code is below 400, the error the last object of the text decides
    otherwise.  When the binary traps they fail with a TypeError. *)
Theorem getHelp_getVersion_outcome sandbox self h xs :
  h !! args (builder self) = Some xs ->
  collects xs = false ->
  fst (getHelp sandbox self h)
  = run_text (sandbox (fileMap self) (xs ++ [str "--help"]))
  /\ fst (getVersion sandbox self h)
     = run_text (sandbox (fileMap self) (xs ++ [str "--version"])).
Proof.
  intros Hl Hc. split; [unfold getHelp | unfold getVersion];
    rewrite method_result, (text_method_response _ _ _ xs _ Hl);
    apply text_outcome_passed_on; rewrite collects_snoc; try exact Hc;
    vm_compute; reflexivity.
Qed.

Lemma getHelp_getVersion_outcome_witness :
  fst (getVersion version_sandbox bare_compiler bare_store) = Return (str "3.0.4")
  /\ fst (getHelp failing_sandbox bare_compiler bare_store)
     = Throw (ThrowCompilerError (error3 (str "bad flag") 3)).
Proof.
  assert (H : bare_store !! args (builder bare_compiler) = Some [str "bebopc"])
    by (vm_compute; reflexivity).
  assert (Hc : collects [str "bebopc"] = false) by (vm_compute; reflexivity).
  split.
  - rewrite (proj2 (getHelp_getVersion_outcome version_sandbox bare_compiler
                      bare_store [str "bebopc"] H Hc)).
    vm_compute. reflexivity.
  - rewrite (proj1 (getHelp_getVersion_outcome failing_sandbox bare_compiler
                      bare_store [str "bebopc"] H Hc)).
    vm_compute. reflexivity.
Defined.

Lemma cons_line_no_LF c ls :
  c <> LF -> Forall (fun l => LF ∉ l) ls -> Forall (fun l => LF ∉ l) (JS.cons_line c ls).
Proof.
  intros Hc Hls. destruct ls as [|l ls]; cbn [JS.cons_line].
  - constructor; [|constructor]. apply not_elem_of_cons. split; [congruence|].
    apply not_elem_of_nil.
  - inversion Hls; subst. constructor; [|assumption].
    apply not_elem_of_cons. split; [congruence | assumption].
Qed.

Lemma split_lines_no_LF s : Forall (fun l => LF ∉ l) (JS.split_lines s).
Proof.
  induction s as [| x | x y l IHl IHyl] using list_ind2.
  - constructor; [apply not_elem_of_nil | constructor].
  - cbn [JS.split_lines]. destruct (x =? LF) eqn:E.
    + repeat constructor; apply not_elem_of_nil.
    + apply N.eqb_neq in E. constructor; [|constructor].
      apply not_elem_of_cons. split; [congruence | apply not_elem_of_nil].
  - rewrite split_lines_cons2. destruct (x =? LF) eqn:E.
    + constructor; [apply not_elem_of_nil | exact IHyl].
    + destruct ((x =? CR) && (y =? LF)).
      * constructor; [apply not_elem_of_nil | exact IHl].
      * apply N.eqb_neq in E. apply cons_line_no_LF; [congruence | exact IHyl].
Qed.

(** X12. On a compiler whose argument array makes the worker pass the
    standard output on, listSchemas runs the binary with the arguments
    of the array and --list-schemas-only.  When the binary exits with
    code 0 it returns the empty list if the binary printed nothing, and
    otherwise the lines of the trimmed standard output; so the list is
    empty exactly when the binary printed nothing (an output of white
    space only gives one empty name), and no name holds a line feed.
    With any other exit code it throws the compiler error of
    throwCompilerError, and when the binary traps a TypeError. *)
Theorem listSchemas_outcome sandbox self h xs :
  h !! args (builder self) = Some xs ->
  collects xs = false ->
  let run := sandbox (fileMap self) (xs ++ [str "--list-schemas-only"]) in
  fst (listSchemas sandbox self h) = run_names run
  /\ forall names,
       fst (listSchemas sandbox self h) = Return names ->
       (names = [] <-> Worker.stdout run = [])
       /\ Forall (fun name => LF ∉ name) names.
Proof.
  intros Hl Hc run.
  assert (Hrun : fst (listSchemas sandbox self h) = run_names run).
  { unfold listSchemas. rewrite method_result.
    rewrite (invoke_run sandbox self _ h xs Hl). cbn [fst].
    rewrite runBebopc_passes_on
      by (rewrite collects_snoc; try exact Hc; vm_compute; reflexivity).
    fold run. unfold run_names, binary_exit, check_exit.
    destruct (Worker.termination run) as [|code|t]; [| |reflexivity].
    - cbn [default from_option id exitCode stdErr stdOut Z.eqb negb mbind result_bind].
      destruct (Worker.stdout run); reflexivity.
    - cbn [default from_option id exitCode stdErr stdOut].
      destruct (default 127 code =? 0)%Z; cbn [negb mbind result_bind].
      + destruct (Worker.stdout run); reflexivity.
      + rewrite throwCompilerError_outcome. reflexivity. }
  split; [exact Hrun|]. intros names. rewrite Hrun. unfold run_names.
  destruct (binary_exit run) as [code|]; [|discriminate].
  destruct (code =? 0)%Z; [|discriminate].
  intros Hret. inversion Hret; subst names. clear Hret.
  destruct (Worker.stdout run) as [|c out].
  - split; [tauto | constructor].
  - split; [|apply split_lines_no_LF].
    split; [|discriminate]. intros Hn. exfalso.
    eapply split_lines_nonempty. exact Hn.
Qed.

Lemma listSchemas_outcome_witness :
  fst (listSchemas version_sandbox bare_compiler bare_store) = Return [str "3.0.4"].
Proof.
  assert (H : bare_store !! args (builder bare_compiler) = Some [str "bebopc"])
    by (vm_compute; reflexivity).
  assert (Hc : collects [str "bebopc"] = false) by (vm_compute; reflexivity).
  pose proof (listSchemas_outcome version_sandbox bare_compiler bare_store
                [str "bebopc"] H Hc) as K.
  cbv zeta in K. rewrite (proj1 K). vm_compute. reflexivity.
Defined.

Lemma includes_elem l x : JS.includes l x = true <-> x ∈ l.
Proof.
  unfold JS.includes. rewrite existsb_exists. split.
  - intros (y & Hin & He). apply eqb_true in He. subst y.
    apply list_elem_of_In. exact Hin.
  - intros Hin. exists x. split; [apply list_elem_of_In; exact Hin | apply eqb_refl].
Qed.

(** X13. The flag --stdout outlives the build that asked for it: after a
    build with writeToStdOut, the arguments of every later build on the
    same compiler still hold --stdout, whatever its own options are.  So
    when that later run of the binary succeeds, the worker does not
    collect the files it wrote and answers with the raw standard output
    (unless --init is among the arguments). *)
Theorem stdout_flag_outlives_its_build sandbox self g1 o1 g2 o2 h xs :
  h !! args (builder self) = Some xs ->
  writeToStdOut o1 = true ->
  let argv :=
    fst (build_command self g2 o2 (snd (build_command self g1 (Some o1) h))) in
  let run := sandbox (fileMap self) argv in
  JS.includes argv (str "--stdout") = true
  /\ (Worker.termination run = Worker.Completed ->
      JS.includes argv (str "--init") = false ->
      Worker.runBebopc sandbox (fileMap self) argv
      = Worker.Response {| exitCode := 0; stdErr := Worker.stderr run;
                           stdOut := Worker.stdout run |}).
Proof.
  intros Hl Hw argv run.
  assert (Hin : JS.includes argv (str "--stdout") = true).
  { unfold argv. rewrite (build_command_run self g1 (Some o1) h xs Hl). cbn [snd].
    rewrite (build_command_run self g2 o2 _ (xs ++ build_tokens g1 (Some o1)))
      by apply lookup_insert_eq.
    cbn [fst]. apply includes_elem.
    apply elem_of_app. left. apply elem_of_app. right.
    unfold build_tokens. apply elem_of_cons. right. apply elem_of_app. right.
    cbn [from_option]. unfold option_tokens. rewrite Hw.
    apply elem_of_app. right. apply elem_of_app. right. apply list_elem_of_here. }
  split; [exact Hin|]. intros Hdone Hinit.
  unfold Worker.runBebopc. fold run. rewrite Hdone, Hin, Hinit.
  cbn [negb andb orb Z.eqb]. rewrite andb_false_r. reflexivity.
Qed.

Lemma stdout_flag_outlives_its_build_witness :
  Worker.runBebopc noisy_sandbox []
    (map str ["bebopc"; "build"; "--stdout"; "build"]%string)
  = Worker.Response {| exitCode := 0;
                       stdErr := dq "note {'warnings':[],'errors':[]}";
                       stdOut := [] |}.
Proof.
  assert (H : bare_store !! args (builder bare_compiler) = Some [str "bebopc"])
    by (vm_compute; reflexivity).
  pose proof (stdout_flag_outlives_its_build noisy_sandbox bare_compiler None
                {| noEmit := false; noWarn := None; writeToStdOut := true |}
                None None bare_store [str "bebopc"] H eq_refl) as K.
  cbv zeta in K. destruct K as [_ K].
  assert (Hargv : fst (build_command bare_compiler None None
                         (snd (build_command bare_compiler None
                                 (Some {| noEmit := false; noWarn := None;
                                          writeToStdOut := true |})
                                 bare_store)))
                  = map str ["bebopc"; "build"; "--stdout"; "build"]%string)
    by (vm_compute; reflexivity).
  rewrite Hargv in K. apply K; vm_compute; reflexivity.
Defined.

End Methods.

(** ** Beyond the claims: what createFileMap accepts *)

Section Acceptance.

Import FileNameRegexp.

Implicit Types (s line pre post junk k v : jsstring) (m : list (jsstring * jsstring)).

Lemma search_skip s : forall pre bol,
  is_Some (search true s) -> is_Some (search bol (pre ++ LF :: s)).
Proof.
  induction pre as [|c pre IH]; intros bol H; cbn [app]; rewrite search_cons.
  - destruct (if bol then match_here (LF :: s) else None); [eauto|].
    change (JS.is_line_terminator LF) with true. exact H.
  - destruct (if bol then match_here (c :: pre ++ LF :: s) else None); [eauto|].
    apply IH, H.
Qed.

(** Where the lines of a text lie in it: the first line at its start,
    every other line behind a line feed. *)
Lemma split_lines_places s :
  match JS.split_lines s with
  | l0 :: ls =>
      (exists post, s = l0 ++ post)
      /\ Forall (fun line => exists pre post, s = pre ++ LF :: line ++ post) ls
  | [] => False
  end.
Proof.
  induction s as [| x | x y l IHl IHyl] using list_ind2.
  - cbn [JS.split_lines]. split; [exists []; reflexivity | constructor].
  - cbn [JS.split_lines]. destruct (x =? LF) eqn:E.
    + apply N.eqb_eq in E. subst x. split; [exists [LF]; reflexivity|].
      constructor; [|constructor]. exists [], []. reflexivity.
    + split; [exists []; reflexivity | constructor].
  - rewrite split_lines_cons2. destruct (x =? LF) eqn:E.
    + apply N.eqb_eq in E. subst x.
      destruct (JS.split_lines (y :: l)) as [|l0 ls]; [destruct IHyl|].
      destruct IHyl as [[post Hp] Hls].
      split; [exists (LF :: y :: l); reflexivity|].
      constructor.
      * exists [], post. cbn [app]. rewrite <- Hp. reflexivity.
      * eapply Forall_impl; [exact Hls|]. intros line (pre & post' & Heq).
        exists (LF :: pre), post'. cbn [app]. rewrite <- Heq. reflexivity.
    + destruct ((x =? CR) && (y =? LF)) eqn:E2.
      * apply andb_true_iff in E2. destruct E2 as [Ex Ey].
        apply N.eqb_eq in Ex, Ey. subst x y.
        destruct (JS.split_lines l) as [|l0 ls]; [destruct IHl|].
        destruct IHl as [[post Hp] Hls].
        split; [exists (CR :: LF :: l); reflexivity|].
        constructor.
        -- exists [CR], post. cbn [app]. rewrite <- Hp. reflexivity.
        -- eapply Forall_impl; [exact Hls|]. intros line (pre & post' & Heq).
           exists (CR :: LF :: pre), post'. cbn [app]. rewrite <- Heq. reflexivity.
      * destruct (JS.split_lines (y :: l)) as [|l0 ls]; [destruct IHyl|].
        destruct IHyl as [[post Hp] Hls].
        cbn [JS.cons_line]. split; [exists post; cbn [app]; rewrite <- Hp; reflexivity|].
        eapply Forall_impl; [exact Hls|]. intros line (pre & post' & Heq).
        exists (x :: pre), post'. cbn [app]. rewrite <- Heq. reflexivity.
Qed.

(** A line that matches the pattern makes the text match. *)
Lemma line_match_text s line :
  line ∈ JS.split_lines s -> is_Some (exec line) -> is_Some (exec s).
Proof.
  intros Hin Hm. pose proof (split_lines_places s) as Hp.
  destruct (JS.split_lines s) as [|l0 ls]; [destruct Hp|].
  destruct Hp as [[post Hp0] Hls].
  apply elem_of_cons in Hin. destruct Hin as [->|Hin].
  - rewrite Hp0. apply exec_extend, Hm.
  - rewrite Forall_forall in Hls. destruct (Hls line Hin) as (pre & post' & ->).
    unfold exec. apply search_skip. apply (exec_extend line post'), Hm.
Qed.

Lemma write_all_has blocks : forall m k,
  k ∈ JsMap.keys m \/ k ∈ map fst blocks -> k ∈ JsMap.keys (write_all blocks m).
Proof.
  induction blocks as [|b blocks IH]; intros m k Hk; cbn [write_all fold_left map] in *.
  - destruct Hk as [Hk|Hk]; [exact Hk | inversion Hk].
  - apply IH. rewrite keys_set.
    destruct Hk as [Hk|Hk].
    + left. destruct (JsMap.has m (fst b)); [exact Hk|]. apply elem_of_app. left. exact Hk.
    + apply elem_of_cons in Hk. destruct Hk as [->|Hk]; [|right; exact Hk].
      left. destruct (JsMap.has m (fst b)) eqn:Hh.
      * apply has_keys, Hh.
      * apply elem_of_app. right. apply list_elem_of_here.
Qed.

Lemma marker_blocks_has lines line group1 :
  line ∈ lines -> exec line = Some group1 ->
  Path.resolve_root group1 ∈ map fst (marker_blocks lines).
Proof.
  induction lines as [|l lines IH]; intros Hin He; [inversion Hin|].
  cbn [marker_blocks]. apply elem_of_cons in Hin. destruct Hin as [<-|Hin].
  - rewrite He. cbn [map fst]. apply list_elem_of_here.
  - destruct (exec l); [cbn [map fst]; apply list_elem_of_further|]; apply IH; assumption.
Qed.

(** X14. A line that matches the marker pattern is enough: createFileMap
    then does not throw, and the path of that line, resolved against the
    root, is a key of the map it returns, so the map is not empty. *)
Theorem createFileMap_accepts_every_marker_line input line group1 :
  line ∈ JS.split_lines input ->
  FileNameRegexp.exec line = Some group1 ->
  exists files,
    createFileMap input = Return files
    /\ Path.resolve_root group1 ∈ JsMap.keys files.
Proof.
  intros Hin He. unfold createFileMap.
  assert (Ht : test input = true).
  { apply bool_decide_eq_true_2. eapply line_match_text; [exact Hin|].
    rewrite He. eauto. }
  rewrite Ht. cbn [negb]. eexists. split; [reflexivity|].
  rewrite decode_lines_blocks. cbn [currentFilename nonempty files].
  apply write_all_has. right. eapply marker_blocks_has; eassumption.
Qed.

Lemma createFileMap_accepts_every_marker_line_witness :
  exists files,
    createFileMap (text ["junk"; "  //@FILENAME:a.ts"; "x"]%string) = Return files
    /\ Path.resolve_root (str "a.ts") ∈ JsMap.keys files.
Proof.
  apply (createFileMap_accepts_every_marker_line
           (text ["junk"; "  //@FILENAME:a.ts"; "x"]%string)
           (str "  //@FILENAME:a.ts") (str "a.ts")).
  - vm_compute. apply list_elem_of_further, list_elem_of_here.
  - vm_compute. reflexivity.
Defined.

Lemma decode_junk lines : forall d,
  nonempty (currentFilename d) = None -> no_marker lines ->
  fold_left decode_line lines d = d.
Proof.
  induction lines as [|l lines IH]; intros d Hd Hn; [reflexivity|].
  inversion Hn as [|? ? Hl Hrest]; subst. cbn [fold_left].
  unfold decode_line at 2. rewrite Hl, Hd. apply IH; assumption.
Qed.

(** X15. Text before the first marker line belongs to no file: if no
    line of a text matches the marker pattern, putting that text and a
    line feed in front of an input that has a marker line does not change
    what createFileMap returns. *)
Theorem createFileMap_ignores_text_before_first_marker junk s line :
  last junk <> Some CR ->
  no_marker (JS.split_lines junk) ->
  line ∈ JS.split_lines s -> is_Some (FileNameRegexp.exec line) ->
  createFileMap (junk ++ LF :: s) = createFileMap s.
Proof.
  intros Hcr Hjunk Hin Hm. unfold createFileMap.
  assert (Hs : test s = true).
  { apply bool_decide_eq_true_2. eapply line_match_text; eassumption. }
  assert (Hjs : test (junk ++ LF :: s) = true).
  { apply bool_decide_eq_true_2. apply (line_match_text _ line); [|exact Hm].
    rewrite split_lines_app_LF by exact Hcr. apply elem_of_app. right. exact Hin. }
  rewrite Hs, Hjs. cbn [negb].
  rewrite split_lines_app_LF by exact Hcr. rewrite fold_left_app.
  rewrite (decode_junk (JS.split_lines junk)) by (reflexivity || exact Hjunk).
  reflexivity.
Qed.

Lemma createFileMap_ignores_text_before_first_marker_witness :
  createFileMap (text ["bebopc 3.0.4"; "done"; "// @filename: /a"; "x"]%string)
  = createFileMap (text ["// @filename: /a"; "x"]%string).
Proof.
  apply (createFileMap_ignores_text_before_first_marker
           (text ["bebopc 3.0.4"; "done"]%string)
           (text ["// @filename: /a"; "x"]%string)
           (str "// @filename: /a")).
  - vm_compute. discriminate.
  - vm_compute. repeat constructor.
  - vm_compute. apply list_elem_of_here.
  - vm_compute. eauto.
Defined.

End Acceptance.

(** ** Beyond the claims: the results and the failures of the assembler *)

Section Outputs.

Implicit Types (files : list (jsstring * jsstring)) (config : GeneratorConfig).

Lemma message_listed (msg : string) :
  str msg ∈ assembler_messages ->
  forall ctx, assembler_failure (ThrowCompilerError (error5 msg ctx)).
Proof. intros Hin ctx. exists (error5 msg ctx), (str msg). repeat split. exact Hin. Qed.

Lemma message_listed3 (msg : string) :
  str msg ∈ assembler_messages ->
  assembler_failure (ThrowCompilerError (error3 (str msg) 1)).
Proof. intros Hin. exists (error3 (str msg) 1), (str msg). repeat split. exact Hin. Qed.

Lemma generate_failure files config t :
  generate files config = Throw t -> assembler_failure t.
Proof.
  unfold generate.
  destruct (extMatch _).
  2:{ intros H. inversion H. apply message_listed3. vm_compute.
      do 2 apply list_elem_of_further. apply list_elem_of_here. }
  destruct (extLookupTable _) as [extInfo|].
  2:{ intros H. inversion H. apply message_listed. vm_compute.
      do 3 apply list_elem_of_further. apply list_elem_of_here. }
  destruct (nonempty (JS.find _ _)) as [outFileMatch|].
  2:{ intros H. inversion H. apply message_listed. vm_compute.
      do 4 apply list_elem_of_further. apply list_elem_of_here. }
  destruct (nonempty (auxiliaryExt extInfo)) as [auxExt|]; [|discriminate].
  destruct (nonempty (JS.find _ _)); [discriminate|].
  intros H. inversion H. apply message_listed. vm_compute.
  do 5 apply list_elem_of_further. apply list_elem_of_here.
Qed.

Lemma generate_all_failure files configs : forall acc t,
  generate_all files configs acc = Throw t -> assembler_failure t.
Proof.
  induction configs as [|config configs IH]; intros acc t; cbn [generate_all];
    [discriminate|].
  unfold mbind, result_bind.
  destruct (generate files config) as [g|t'] eqn:Hg.
  - apply IH.
  - intros H. inversion H; subst. eapply generate_failure, Hg.
Qed.

(** X16. createCompilerOutput fails in one way only: whatever it throws
    is a compiler error of severity error and code 1 whose message is one
    of no generators specified, error while parsing standard error,
    unable to determine extension, unable to lookup extension, unable to
    find output file, unable to find auxiliary file.  No error of the
    JSON parser or of a property access escapes it. *)
Theorem createCompilerOutput_fails_with_its_own_errors files configs stdError t :
  createCompilerOutput files configs stdError = Throw t -> assembler_failure t.
Proof.
  unfold createCompilerOutput.
  destruct configs as [|config configs].
  { intros H. inversion H. apply message_listed3. vm_compute. apply list_elem_of_here. }
  unfold mbind, result_bind.
  destruct (parse_stdError stdError) as [d|t'] eqn:Hd.
  - destruct (generate_all files (config :: configs) []) as [rs|t''] eqn:Hall;
      [discriminate|].
    intros H. inversion H; subst. eapply generate_all_failure, Hall.
  - intros H. inversion H; subst. clear H. unfold parse_stdError in Hd.
    destruct stdError as [|c stdError]; [discriminate|].
    destruct (Json.parse (c :: stdError)) as [v|].
    + destruct v; try discriminate. inversion Hd. apply message_listed.
      vm_compute. apply list_elem_of_further, list_elem_of_here.
    + inversion Hd. apply message_listed.
      vm_compute. apply list_elem_of_further, list_elem_of_here.
Qed.

Lemma createCompilerOutput_fails_with_its_own_errors_witness :
  assembler_failure
    (ThrowCompilerError
       (error5 "unable to lookup extension" (CtxObject [(str "alias", str "go")]))).
Proof.
  apply (createCompilerOutput_fails_with_its_own_errors
           [(str "/out/a.go", str "x")] [plain_config "go" "out/a.go"] []).
  vm_compute. reflexivity.
Defined.

(** X17. Only the generator cpp gets an auxiliary file.  When the
    assembler returns a file for a config, the file has an auxiliary file
    exactly when the alias of the config is cpp; that auxiliary file is a
    produced file whose name ends in .hpp and whose directory is the
    directory of the resolved output path, with the content the file map
    holds under its name. *)
Theorem auxiliary_file_only_for_cpp files config g :
  generate files config = Return g ->
  match auxiliaryFile g with
  | Some a => alias config = str "cpp" /\ header_of files config a
  | None => alias config <> str "cpp"
  end.
Proof.
  unfold generate.
  destruct (extMatch _); [|discriminate].
  unfold extLookupTable.
  destruct (JS.eqb (alias config) (str "cpp")) eqn:Ecpp.
  - apply eqb_true in Ecpp.
    destruct (nonempty (JS.find _ _)) as [outFileMatch|]; [|discriminate].
    change (nonempty (auxiliaryExt {| ext := Some (str "cpp");
                                      auxiliaryExt := Some (str "hpp") |}))
      with (Some (str "hpp")).
    cbv iota.
    destruct (nonempty (JS.find _ _)) as [aux|] eqn:Haux; [|discriminate].
    intros H. inversion H; subst g. cbn [auxiliaryFile]. split; [exact Ecpp|].
    apply nonempty_Some in Haux. destruct Haux as [Haux _].
    apply find_some in Haux. destruct Haux as [Hin Hp].
    apply andb_true_iff in Hp. destruct Hp as [Hends Hdir].
    apply eqb_true in Hdir.
    apply list_elem_of_In, get_of_key in Hin. destruct Hin as [v Hv].
    unfold header_of. cbn [aux_name aux_content]. rewrite Hv.
    split; [exact Hends | split; [exact Hdir | reflexivity]].
  - apply eqb_false in Ecpp.
    repeat match goal with
           | |- context [if JS.eqb (alias config) ?a then _ else _] =>
               destruct (JS.eqb (alias config) a)
           | |- context [if JS.includes inherited_names (alias config) then _ else _] =>
               destruct (JS.includes inherited_names (alias config))
           end;
      try discriminate;
      match goal with
      | |- context [nonempty (auxiliaryExt ?i)] =>
          change (nonempty (auxiliaryExt i)) with (@None (list N))
      end;
      (destruct (nonempty (JS.find _ _)); [|discriminate]);
      intros H; inversion H; cbn [auxiliaryFile]; exact Ecpp.
Qed.

Lemma auxiliary_file_only_for_cpp_witness :
  alias (plain_config "cpp" "out/a.cpp") = str "cpp"
  /\ header_of cpp_files (plain_config "cpp" "out/a.cpp")
       {| aux_name := str "/out/a.hpp"; aux_content := str "y" |}.
Proof.
  assert (H : generate cpp_files (plain_config "cpp" "out/a.cpp")
              = Return {| name := str "/out/a.cpp"; content := str "x";
                          generator := str "cpp";
                          auxiliaryFile :=
                            Some {| aux_name := str "/out/a.hpp";
                                    aux_content := str "y" |} |})
    by (vm_compute; reflexivity).
  exact (auxiliary_file_only_for_cpp cpp_files (plain_config "cpp" "out/a.cpp") _ H).
Defined.

End Outputs.

(** ** Beyond the claims: the generator string *)

Section GeneratorString.

Implicit Types (sep x : jsstring) (parts l : list jsstring).

Lemma join_cons sep x l :
  l <> [] -> JS.join sep (x :: l) = x ++ sep ++ JS.join sep l.
Proof. destruct l; [congruence | reflexivity]. Qed.

Lemma join_app sep parts : forall l,
  parts <> [] -> l <> [] ->
  JS.join sep (parts ++ l) = JS.join sep parts ++ sep ++ JS.join sep l.
Proof.
  induction parts as [|p parts IH]; intros l Hp Hl; [congruence|].
  destruct parts as [|q parts].
  - cbn [app]. rewrite join_cons by exact Hl. reflexivity.
  - change ((p :: q :: parts) ++ l) with (p :: ((q :: parts) ++ l)).
    rewrite !join_cons by discriminate. rewrite IH by (discriminate || exact Hl).
    rewrite <- !app_assoc. reflexivity.
Qed.

Lemma join_head_nonempty sep x l : x <> [] -> JS.join sep (x :: l) <> [].
Proof.
  intros Hx. destruct l; cbn [JS.join]; [exact Hx|].
  destruct x; [congruence | discriminate].
Qed.

(** X18. The generator string is the list of its parts separated by
    commas: alias:outFile first, then the services selector, the toggles
    emitNotice=true and emitBinarySchema=true, namespace=..., each only
    if it is set (an empty string counts as not set), then every option
    as key=value in the order of the options.  No part is empty.  The
    parts are not escaped: a part may itself hold a comma. *)
Theorem generatorConfigToString_joins_its_parts config :
  generatorConfigToString config = JS.join (str ",") (generator_parts config)
  /\ Forall (fun part => part <> []) (generator_parts config).
Proof.
  split.
  - unfold generatorConfigToString, generator_parts.
    set (head := alias config ++ str ":" ++ outFile (body config)).
    set (kvs := map (fun e => fst e ++ str "=" ++ snd e) (default [] (options (body config)))).
    assert (Hgrow : forall parts opt,
              parts <> [] ->
              exists parts', parts' <> []
                /\ parts' = parts ++ opt
                /\ JS.join (str ",") parts'
                   = match opt with
                     | [] => JS.join (str ",") parts
                     | _ :: _ => JS.join (str ",") parts ++ str "," ++ JS.join (str ",") opt
                     end).
    { intros parts opt Hp. exists (parts ++ opt). split; [|split; [reflexivity|]].
      - destruct parts; [congruence | discriminate].
      - destruct opt as [|o opt]; [rewrite app_nil_r; reflexivity|].
        apply join_app; [exact Hp | discriminate]. }
    destruct (Hgrow [head]
                match nonempty (services (body config)) with
                | Some s => [s] | None => [] end ltac:(discriminate))
      as (p1 & Hn1 & -> & E1).
    destruct (Hgrow _ (if emitNotice (body config) then [str "emitNotice=true"] else [])
                Hn1) as (p2 & Hn2 & -> & E2).
    destruct (Hgrow _ (if emitBinarySchema (body config)
                       then [str "emitBinarySchema=true"] else []) Hn2)
      as (p3 & Hn3 & -> & E3).
    destruct (Hgrow _ match nonempty (namespace (body config)) with
                      | Some ns => [str "namespace=" ++ ns] | None => [] end Hn3)
      as (p4 & Hn4 & -> & E4).
    destruct (Hgrow _ kvs Hn4) as (p5 & Hn5 & -> & E5).
    rewrite !app_assoc. rewrite E5. clear E5.
    assert (Hopts : match kvs with
                    | [] => JS.join (str ",") kvs = []
                    | _ :: _ => JS.join (str ",") kvs <> []
                    end).
    { unfold kvs. destruct (default [] (options (body config))) as [|e es];
        [reflexivity|].
      cbn [map]. apply join_head_nonempty. destruct (fst e); discriminate. }
    rewrite E4, E3, E2, E1. clear E1 E2 E3 E4.
    cbn [JS.join].
    destruct kvs as [|kv kvs'].
    + rewrite Hopts.
      destruct (nonempty (services (body config)));
        destruct (emitNotice (body config));
        destruct (emitBinarySchema (body config));
        destruct (nonempty (namespace (body config)));
        cbn [JS.join]; rewrite <- ?app_assoc; reflexivity.
    + destruct (JS.join (str ",") (kv :: kvs')) as [|c0 rest] eqn:Eo; [congruence|].
      destruct (nonempty (services (body config)));
        destruct (emitNotice (body config));
        destruct (emitBinarySchema (body config));
        destruct (nonempty (namespace (body config)));
        cbn [JS.join]; rewrite <- ?app_assoc; reflexivity.
  - unfold generator_parts. repeat apply Forall_app_2.
    + constructor; [|constructor]. destruct (alias config); discriminate.
    + destruct (nonempty (services (body config))) as [s|] eqn:E; [|constructor].
      apply nonempty_Some in E. constructor; [tauto | constructor].
    + destruct (emitNotice (body config)); repeat constructor. discriminate.
    + destruct (emitBinarySchema (body config)); repeat constructor. discriminate.
    + destruct (nonempty (namespace (body config))); repeat constructor. discriminate.
    + apply Forall_forall. intros part Hin. apply list_elem_of_fmap in Hin.
      destruct Hin as (e & -> & _). destruct (fst e); discriminate.
Qed.

Example generatorConfigToString_keeps_commas :
  generatorConfigToString (plain_config "ts" "a,") = str "ts:a,".
Proof. vm_compute. reflexivity. Qed.

Example generatorConfigToString_full :
  generatorConfigToString full_config
  = str "ts:out/a.ts,both,emitNotice=true,namespace=My.Api,k=v,x=y".
Proof. vm_compute. reflexivity. Qed.

End GeneratorString.

(** ** Beyond the claims: what the worker sends back *)

Section Sending.

Implicit Types (h : gmap nat (list jsstring)) (self : Compiler).

Lemma multiplex_produced files run :
  Worker.multiplex files (Worker.readFileSync (Worker.fs run))
    (Worker.walk (Worker.fs run) [SLASH])
  = concat (map chunk (produced files run)).
Proof.
  unfold Worker.multiplex, produced. rewrite multiplex_skips. cbn [app].
  rewrite map_map. reflexivity.
Qed.

Lemma produced_not_supplied files run :
  Forall (fun p => JsMap.has files p = false) (JsMap.keys (produced files run)).
Proof.
  unfold produced, JsMap.keys. rewrite map_map. cbn [fst]. rewrite map_id.
  apply Forall_forall. intros p Hp. apply list_elem_of_In, filter_In in Hp.
  destruct Hp as [_ Hp]. apply negb_true_iff in Hp. exact Hp.
Qed.

(** X19. After a run that ends normally, for arguments that hold build
    and not --stdout, the standard output of the response is the
    multiplex encoding of the files found in the virtual file system that
    the caller did not supply, in the order of the walk; no file of the
    caller is sent back, even if the binary rewrote it; the exit code is
    0 and the standard error text is passed on. *)
Theorem successful_build_sends_produced_files sandbox files argv :
  let run := sandbox files argv in
  Worker.termination run = Worker.Completed ->
  JS.includes argv (str "build") = true ->
  JS.includes argv (str "--stdout") = false ->
  NoDup (JsMap.keys (produced files run)) ->
  Worker.runBebopc sandbox files argv
  = Worker.Response {| exitCode := 0; stdErr := Worker.stderr run;
                       stdOut := Worker.encode (produced files run) |}
  /\ Forall (fun p => JsMap.has files p = false) (JsMap.keys (produced files run)).
Proof.
  intros run Hdone Hbuild Hraw Hnd. split; [|apply produced_not_supplied].
  unfold Worker.runBebopc. fold run. rewrite Hdone, Hbuild, Hraw.
  cbn [negb andb orb Z.eqb]. cbv iota.
  rewrite (encode_raw _ Hnd), multiplex_produced. reflexivity.
Qed.

Lemma successful_build_sends_produced_files_witness :
  Worker.runBebopc noisy_sandbox [] [str "bebopc"; str "build"]
  = Worker.Response {| exitCode := 0;
                       stdErr := dq "note {'warnings':[],'errors':[]}";
                       stdOut := text ["// @filename: /out/a.ts"; "x"]%string |}.
Proof.
  assert (Hnd : NoDup (JsMap.keys (produced [] (noisy_sandbox []
                                                  [str "bebopc"; str "build"])))).
  { vm_compute. apply NoDup_singleton. }
  pose proof (successful_build_sends_produced_files noisy_sandbox []
                [str "bebopc"; str "build"]) as K.
  cbv zeta in K.
  rewrite (proj1 (K eq_refl eq_refl eq_refl Hnd)). vm_compute. reflexivity.
Defined.

(** X20. A build in emit mode whose binary succeeds without leaving a
    file the caller did not supply fails: the worker sends an empty
    standard output, and build throws the generic compiler error with
    the raw standard error text and code 0.  Output written over an input
    file is lost in this way. *)
Theorem build_without_new_files_fails sandbox self gens opts h xs :
  let argv := fst (build_command self gens opts h) in
  let run := sandbox (fileMap self) argv in
  h !! args (builder self) = Some xs ->
  Worker.termination run = Worker.Completed ->
  JS.includes argv (str "--stdout") = false ->
  from_option noEmit false opts = false ->
  Forall (fun p => JsMap.has (fileMap self) p = true)
    (Worker.walk (Worker.fs run) [SLASH]) ->
  fst (BebopCompiler_build sandbox self gens opts h)
  = Throw (ThrowCompilerError (error3 (Worker.stderr run) 0)).
Proof.
  intros argv run Hl Hdone Hraw Hemit Hall.
  assert (Hbuild : JS.includes argv (str "build") = true).
  { unfold argv. rewrite (build_command_run self gens opts h xs Hl). cbn [fst].
    apply includes_elem, elem_of_app. right. unfold build_tokens.
    apply list_elem_of_here. }
  assert (Hnone : produced (fileMap self) run = []).
  { unfold produced.
    replace (List.filter _ _) with (@nil (list N)); [reflexivity|].
    symmetry. induction Hall as [|p ps Hp _ IH]; [reflexivity|].
    cbn [List.filter]. rewrite Hp. exact IH. }
  rewrite BebopCompiler_build_run. fold argv.
  unfold Worker.runBebopc. fold run. rewrite Hdone, Hbuild, Hraw.
  cbn [negb andb orb Z.eqb]. cbv iota.
  rewrite multiplex_produced, Hnone.
  change (JS.trim (concat (map chunk []))) with (@nil N).
  unfold build_response. cbn [exitCode stdErr stdOut Z.eqb negb]. rewrite Hemit.
  cbn [mbind result_bind].
  rewrite throwCompilerError_outcome. reflexivity.
Qed.

Lemma build_without_new_files_fails_witness :
  fst (BebopCompiler_build rewriting_sandbox input_compiler
         (Some [plain_config "ts" "in.bop"]) None bare_store)
  = Throw (ThrowCompilerError (error3 (str "nothing new") 0)).
Proof.
  pose proof (build_without_new_files_fails rewriting_sandbox input_compiler
                (Some [plain_config "ts" "in.bop"]) None bare_store [str "bebopc"])
    as K.
  cbv zeta in K. apply K.
  - vm_compute. reflexivity.
  - reflexivity.
  - vm_compute. reflexivity.
  - reflexivity.
  - vm_compute. repeat constructor.
Defined.

(** X27. init does not read a file the caller supplied: when the binary
    ends normally and leaves no file the caller did not supply (the
    configuration it wrote replaces an input file, say), the worker sends
    an empty standard output and init throws the generic compiler error
    with the raw standard error text and code 0, before it looks for a
    bebop.json. *)
Theorem init_without_new_files_fails sandbox self h xs :
  let argv := xs ++ [str "--init"] in
  let run := sandbox (fileMap self) argv in
  h !! args (builder self) = Some xs ->
  Worker.termination run = Worker.Completed ->
  Forall (fun p => JsMap.has (fileMap self) p = true)
    (Worker.walk (Worker.fs run) [SLASH]) ->
  fst (init sandbox self h)
  = Throw (ThrowCompilerError (error3 (Worker.stderr run) 0)).
Proof.
  intros argv run Hl Hdone Hall.
  assert (Hinit : JS.includes argv (str "--init") = true).
  { apply includes_elem, elem_of_app. right. apply list_elem_of_here. }
  assert (Hnone : produced (fileMap self) run = []).
  { unfold produced.
    replace (List.filter _ _) with (@nil (list N)); [reflexivity|].
    symmetry. induction Hall as [|p ps Hp _ IH]; [reflexivity|].
    cbn [List.filter]. rewrite Hp. exact IH. }
  unfold init. rewrite method_result, (invoke_run sandbox self "--init" h xs Hl).
  cbn [fst]. fold argv.
  unfold Worker.runBebopc. fold run. rewrite Hdone, Hinit.
  cbn [negb Z.eqb]. rewrite orb_true_r. cbv iota.
  rewrite multiplex_produced, Hnone.
  change (JS.trim (concat (map chunk []))) with (@nil N).
  unfold check_output, check_exit. cbn [exitCode stdErr stdOut Z.eqb negb].
  cbn [mbind result_bind]. rewrite throwCompilerError_outcome. reflexivity.
Qed.

Lemma init_without_new_files_fails_witness :
  fst (init rewriting_sandbox input_compiler bare_store)
  = Throw (ThrowCompilerError (error3 (str "nothing new") 0)).
Proof.
  pose proof (init_without_new_files_fails rewriting_sandbox input_compiler
                bare_store [str "bebopc"]) as K.
  cbv zeta in K. apply K.
  - vm_compute. reflexivity.
  - reflexivity.
  - vm_compute. repeat constructor.
Defined.

End Sending.

(** ** Beyond the claims: the walk over the virtual file system *)

Section Walk.

Implicit Types (dir name s : jsstring).

Lemma endsWith_last s c :
  JS.endsWith s [c] = match last s with Some d => d =? c | None => false end.
Proof.
  unfold JS.endsWith. change (rev [c]) with [c].
  destruct (rev s) as [|d r] eqn:E.
  - apply rev_nil_inv in E. subst s. reflexivity.
  - apply (f_equal (@rev N)) in E. rewrite rev_involutive in E. subst s.
    cbn [rev]. rewrite last_snoc. cbn [JS.startsWith].
    destruct r; apply andb_true_r.
Qed.

Lemma entry_name_facts name :
  entry_name name = true ->
  name <> [] /\ slash_free name /\ exists d, last name = Some d /\ d <> SLASH.
Proof.
  unfold entry_name. rewrite andb_true_iff, negb_true_iff. intros [Hne Hfree].
  apply eqb_false in Hne.
  assert (Hall : slash_free name).
  { apply Forall_forall. intros c Hc. rewrite forallb_forall in Hfree.
    apply list_elem_of_In, Hfree in Hc. apply negb_true_iff, N.eqb_neq in Hc. exact Hc. }
  split; [exact Hne|]. split; [exact Hall|].
  destruct (last name) as [d|] eqn:Hl.
  - exists d. split; [reflexivity|]. unfold slash_free in Hall.
    rewrite Forall_forall in Hall. apply Hall.
    apply last_Some in Hl. destruct Hl as [l' ->]. apply elem_of_app. right.
    apply list_elem_of_here.
  - apply last_None in Hl. congruence.
Qed.

(** Joining an absolute directory and a name gives an absolute
    normalized path. *)
Lemma join_normalized dir name :
  Path.isAbsolute dir = true -> entry_name name = true ->
  Path.is_normalized_absolute (Path.join dir name) = true.
Proof.
  intros Hdir Hname.
  destruct (entry_name_facts name Hname) as (Hne & Hfree & d & Hlast & Hd).
  destruct dir as [|c dir]; [discriminate|].
  destruct name as [|n name]; [congruence|].
  cbn [Path.join].
  cbn [Path.isAbsolute] in Hdir. apply N.eqb_eq in Hdir. subst c.
  set (path := (SLASH :: dir) ++ [SLASH] ++ n :: name).
  assert (Habs : Path.isAbsolute path = true) by reflexivity.
  assert (Htrail : JS.endsWith path [SLASH] = false).
  { rewrite endsWith_last. unfold path.
    rewrite app_assoc, last_app, Hlast. apply N.eqb_neq, Hd. }
  assert (Hnorm : Path.normalize path = SLASH :: Path.normalizeString path false).
  { unfold Path.normalize. change path with (SLASH :: (dir ++ [SLASH] ++ n :: name)) at 1.
    cbv iota. rewrite Htrail, Habs. cbn [negb].
    destruct (Path.normalizeString path false); reflexivity. }
  rewrite Hnorm. unfold Path.normalizeString.
  apply absolute_of_good_segments, normalize_segments_good; [|constructor].
  apply split_on_segments_free.
Qed.

Lemma walk_normalized : forall node dir,
  Path.isAbsolute dir = true -> well_named node = true ->
  Forall (fun p => Path.is_normalized_absolute p = true) (Worker.walk node dir).
Proof.
  fix IH 1. intros node dir Hdir Hnames.
  destruct node as [data|entries|]; [constructor| |constructor].
  cbn [Worker.walk well_named] in *.
  induction entries as [|[name child] entries IHentries]; [constructor|].
  cbn [flat_map forallb fst snd] in *.
  apply andb_true_iff in Hnames. destruct Hnames as [Hhead Hrest].
  apply andb_true_iff in Hhead. destruct Hhead as [Hname Hchild].
  apply Forall_app_2; [|apply IHentries, Hrest].
  pose proof (join_normalized dir name Hdir Hname) as Hentry.
  pose proof (IH child (Path.join dir name) (normalized_absolute _ Hentry) Hchild)
    as Hsub.
  destruct child as [data|entries'|].
  - constructor; [exact Hentry | constructor].
  - exact Hsub.
  - constructor.
Qed.

(** X21. When no name in the virtual file system is empty or holds a
    slash, every path walk yields from the root is an absolute normalized
    path: a slash followed by segments separated by single slashes, none
    of them empty, a dot or a double dot.  createFileMap therefore reads
    the marker line of such a path back as the same path. *)
Theorem walk_yields_normalized_paths node :
  well_named node = true ->
  Forall (fun p => Path.is_normalized_absolute p = true /\ Path.resolve_root p = p)
    (Worker.walk node [SLASH]).
Proof.
  intros Hnames. eapply Forall_impl; [apply walk_normalized; [reflexivity | exact Hnames]|].
  intros p Hp. split; [exact Hp | apply resolve_root_id, Hp].
Qed.

Lemma walk_yields_normalized_paths_witness :
  Worker.walk small_tree [SLASH] = [str "/out/a.ts"; str "/b.cs"]
  /\ Forall (fun p => Path.is_normalized_absolute p = true /\ Path.resolve_root p = p)
       [str "/out/a.ts"; str "/b.cs"].
Proof.
  assert (Hw : Worker.walk small_tree [SLASH] = [str "/out/a.ts"; str "/b.cs"])
    by (vm_compute; reflexivity).
  split; [exact Hw|]. rewrite <- Hw.
  apply (walk_yields_normalized_paths small_tree). vm_compute. reflexivity.
Defined.

End Walk.

(** ** Beyond the claims: what the search for objects ignores *)

Section Prose.

Implicit Types (s pre post : jsstring).

Lemma matches_skip pre s :
  Forall (fun c => c <> 123) pre ->
  JsonRegex.matches None (pre ++ s) = JsonRegex.matches None s.
Proof.
  induction 1 as [|c pre Hc _ IH]; [reflexivity|].
  cbn [app JsonRegex.matches]. apply N.eqb_neq in Hc. rewrite Hc. exact IH.
Qed.

Lemma matches_open_end post : forall opened,
  Forall (fun c => c <> 125) post -> JsonRegex.matches opened post = [].
Proof.
  induction post as [|c post IH]; intros opened Hpost; [reflexivity|].
  inversion Hpost as [|? ? Hc Hrest]; subst. apply N.eqb_neq in Hc.
  cbn [JsonRegex.matches]. destruct opened as [m|].
  - rewrite Hc. apply IH, Hrest.
  - destruct (c =? 123); apply IH, Hrest.
Qed.

Lemma matches_tail post s : forall opened,
  Forall (fun c => c <> 125) post ->
  JsonRegex.matches opened (s ++ post) = JsonRegex.matches opened s.
Proof.
  induction s as [|c s IH]; intros opened Hpost.
  - cbn [app]. rewrite matches_open_end by exact Hpost. destruct opened; reflexivity.
  - cbn [app JsonRegex.matches]. destruct opened as [m|].
    + destruct (c =? 125); rewrite IH by exact Hpost; reflexivity.
    + destruct (c =? 123); rewrite IH by exact Hpost; reflexivity.
Qed.

(** X22. Prose around the objects does not matter: text without an
    opening brace put before the standard error text, and text without a
    closing brace put behind it, leave what findErrorEntries finds
    unchanged. *)
Theorem findErrorEntries_ignores_prose_around pre s post :
  Forall (fun c => c <> 123) pre ->
  Forall (fun c => c <> 125) post ->
  findErrorEntries ((pre ++ s) ++ post) = findErrorEntries s.
Proof.
  intros Hpre Hpost. unfold findErrorEntries, JsonRegex.match_all.
  rewrite matches_tail by exact Hpost. rewrite matches_skip by exact Hpre.
  reflexivity.
Qed.

Lemma findErrorEntries_ignores_prose_around_witness :
  findErrorEntries prose_around_stderr = findErrorEntries span_array_stderr.
Proof.
  apply (findErrorEntries_ignores_prose_around (str "error: ") span_array_stderr
           (str " (see above)")).
  - vm_compute. repeat constructor; discriminate.
  - vm_compute. repeat constructor; discriminate.
Defined.

Lemma last_elem {A} (l : list A) x : last l = Some x -> x ∈ l.
Proof.
  intros H. apply last_Some in H. destruct H as [l' ->].
  apply elem_of_app. right. apply list_elem_of_here.
Qed.

Lemma classified_span stdError code :
  match span (classified stdError code) with
  | Some v => objects v = 0%nat
  | None => True
  end.
Proof.
  unfold classified.
  destruct (last (findErrorEntries stdError)) as [o|] eqn:Hl; [|exact I].
  destruct (isCompilerException (Some o)); [|exact I].
  apply last_elem in Hl.
  pose proof (entry_flat stdError o Hl) as Hflat.
  destruct o as [|b|n|s0|items|fields]; cbn [flat_object] in Hflat; try contradiction.
  cbn [exception_error span property flat_object] in *.
  destruct (List.find _ fields) as [e|] eqn:Hf; [|exact I].
  cbn [fmap option_fmap option_map]. apply find_some in Hf. destruct Hf as [Hin _].
  rewrite Forall_forall in Hflat. apply Hflat, list_elem_of_In, Hin.
Qed.

(** X23. No compiler error that throwCompilerError or parseStandardError
    throws carries a span that is an object or holds one: the span is
    undefined or a value without any object in it, whatever the standard
    error text is. *)
Theorem thrown_errors_carry_no_span_object stdError code e :
  throwCompilerError stdError code = Throw (ThrowCompilerError e)
  \/ parseStandardError stdError code = Throw (ThrowCompilerError e) ->
  match span e with
  | Some v => objects v = 0%nat
  | None => True
  end.
Proof.
  intros [H|H].
  - rewrite throwCompilerError_outcome in H. inversion H; subst e.
    unfold failure. destruct (400 <=? code)%Z; [apply classified_span | exact I].
  - rewrite parseStandardError_table in H.
    destruct (findErrorEntries stdError) as [|o rest].
    + inversion H. apply classified_span.
    + destruct (_ && _); [discriminate|]. inversion H. apply classified_span.
Qed.

Lemma thrown_errors_carry_no_span_object_witness :
  throwCompilerError span_array_stderr 400
  = Throw (ThrowCompilerError
             (mkCompilerError (jsstr (str "error")) (jsstr (str "bad")) (jsint 12)
                (Some (JArr [JNum (NumInt 1); JNum (NumInt 2)])) None))
  /\ objects (JArr [JNum (NumInt 1); JNum (NumInt 2)]) = 0%nat.
Proof.
  assert (H : throwCompilerError span_array_stderr 400
              = Throw (ThrowCompilerError
                         (mkCompilerError (jsstr (str "error")) (jsstr (str "bad"))
                            (jsint 12)
                            (Some (JArr [JNum (NumInt 1); JNum (NumInt 2)])) None)))
    by (vm_compute; reflexivity).
  split; [exact H|].
  exact (thrown_errors_carry_no_span_object span_array_stderr 400 _ (or_introl H)).
Defined.

End Prose.

(** ** Beyond the claims: how the assembler picks a file *)

Section Picking.

Implicit Types (files : list (jsstring * jsstring)) (config : GeneratorConfig)
  (s r acc : jsstring).

Lemma find_first {A} (P : A -> bool) (l : list A) x :
  List.find P l = Some x ->
  exists before after,
    l = before ++ x :: after /\ P x = true /\ Forall (fun y => P y = false) before.
Proof.
  induction l as [|y l IH]; [discriminate|]. cbn [List.find].
  destruct (P y) eqn:E.
  - intros H. inversion H; subst. exists [], l. repeat split; [exact E | constructor].
  - intros H. destruct (IH H) as (before & after & -> & Hx & Hb).
    exists (y :: before), after. repeat split; [exact Hx | constructor; assumption].
Qed.

(** X24. When several produced files have a name that ends with the
    resolved output path of a config, the assembler takes the first of
    them in the order of the file map: no key before the name of the
    returned file ends with that path. *)
Theorem generate_takes_first_match files config g :
  generate files config = Return g ->
  exists before after,
    JsMap.keys files = before ++ name g :: after
    /\ Forall (fun k => JS.endsWith k (Path.resolve_root (outFile (body config))) = false)
         before.
Proof.
  unfold generate.
  destruct (extMatch _); [|discriminate].
  destruct (extLookupTable _) as [extInfo|]; [|discriminate].
  destruct (nonempty (JS.find _ _)) as [outFileMatch|] eqn:Hfind; [|discriminate].
  apply nonempty_Some in Hfind. destruct Hfind as [Hfind _].
  apply find_first in Hfind. destruct Hfind as (before & after & Hkeys & _ & Hb).
  assert (Hname : name g = outFileMatch -> exists before after,
            JsMap.keys files = before ++ name g :: after
            /\ Forall (fun k => JS.endsWith k
                                  (Path.resolve_root (outFile (body config))) = false)
                 before).
  { intros ->. exists before, after. split; assumption. }
  destruct (nonempty (auxiliaryExt extInfo)) as [auxExt|].
  - destruct (nonempty (JS.find _ _)); [|discriminate].
    intros H. inversion H; subst g. apply Hname. reflexivity.
  - intros H. inversion H; subst g. apply Hname. reflexivity.
Qed.

Lemma generate_takes_first_match_witness :
  exists before after,
    JsMap.keys ambiguous_files = before ++ str "/v1/out/a.ts" :: after
    /\ Forall (fun k => JS.endsWith k (Path.resolve_root (str "out/a.ts")) = false)
         before.
Proof.
  assert (H : generate ambiguous_files (plain_config "ts" "out/a.ts")
              = Return {| name := str "/v1/out/a.ts"; content := str "old";
                          generator := str "ts"; auxiliaryFile := None |})
    by (vm_compute; reflexivity).
  exact (generate_takes_first_match ambiguous_files (plain_config "ts" "out/a.ts") _ H).
Defined.

Lemma ext_scan_None r : forall acc,
  ext_scan r acc = None <-> DOT ∉ r \/ (acc = [] /\ exists r', r = DOT :: r').
Proof.
  induction r as [|c r IH]; intros acc; cbn [ext_scan].
  - split; [intros _; left; apply not_elem_of_nil | reflexivity].
  - destruct (c =? DOT) eqn:E.
    + apply N.eqb_eq in E. subst c. split.
      * destruct acc; [|discriminate]. intros _. right. eauto.
      * intros [Hn | [-> _]]; [|reflexivity].
        exfalso. apply Hn, list_elem_of_here.
    + apply N.eqb_neq in E. rewrite IH. split.
      * intros [Hn | [Hacc _]]; [|discriminate]. left.
        apply not_elem_of_cons. split; [congruence | exact Hn].
      * intros [Hn | [_ [r' Hr]]]; [|congruence]. left.
        apply not_elem_of_cons in Hn. tauto.
Qed.

Lemma elem_of_rev c s : c ∈ rev s <-> c ∈ s.
Proof. rewrite !list_elem_of_In. symmetry. apply in_rev. Qed.

Lemma extMatch_None s : extMatch s = None <-> DOT ∉ s \/ last s = Some DOT.
Proof.
  unfold extMatch. rewrite ext_scan_None. split.
  - intros [Hn | [_ [r' Hr]]].
    + left. intros Hin. apply Hn, (proj2 (elem_of_rev _ _)). exact Hin.
    + right. apply (f_equal (@rev N)) in Hr. rewrite rev_involutive in Hr. subst s.
      cbn [rev]. apply last_snoc.
  - intros [Hn | Hl].
    + left. intros Hin. apply Hn, (proj1 (elem_of_rev _ _)). exact Hin.
    + right. split; [reflexivity|]. apply last_Some in Hl. destruct Hl as [l' ->].
      rewrite rev_app_distr. cbn [rev app]. eauto.
Qed.

(** X25. The check of the extension looks at the resolved output path as
    a whole: the assembler fails with unable to determine extension
    exactly when that path holds no dot or ends with a dot.  A dot in a
    directory name is enough to pass the check. *)
Theorem extension_check_wants_a_dot files config :
  generate files config
  = Throw (ThrowCompilerError (error3 (str "unable to determine extension") 1))
  <-> DOT ∉ Path.resolve_root (outFile (body config))
      \/ last (Path.resolve_root (outFile (body config))) = Some DOT.
Proof.
  rewrite <- extMatch_None. unfold generate.
  destruct (extMatch _) as [e|]; [|split; reflexivity].
  split; [|discriminate].
  destruct (extLookupTable _) as [extInfo|]; [|discriminate].
  destruct (nonempty (JS.find _ _)); [|discriminate].
  destruct (nonempty (auxiliaryExt extInfo)); [|discriminate].
  destruct (nonempty (JS.find _ _)); discriminate.
Qed.

Example extension_check_passes_on_directory_dot :
  generate [(str "/v1.2/out", str "x")] (plain_config "ts" "v1.2/out")
  = Return {| name := str "/v1.2/out"; content := str "x"; generator := str "ts";
              auxiliaryFile := None |}.
Proof. vm_compute. reflexivity. Qed.

End Picking.

(** ** Beyond the claims: line ends *)

Section LineEnds.

Implicit Types (x s rest : jsstring) (lines : list jsstring).

Lemma split_lines_crlf x rest :
  Forall (fun c => c <> LF) x ->
  JS.split_lines (x ++ CR :: LF :: rest) = x :: JS.split_lines rest.
Proof.
  induction 1 as [|c x Hc Hx IH]; [reflexivity|].
  assert (Hnext : exists d t, x ++ CR :: LF :: rest = d :: t /\ d <> LF).
  { destruct x as [|d x']; [exists CR, (LF :: rest); split; [reflexivity | discriminate]|].
    inversion Hx; subst. exists d, (x' ++ CR :: LF :: rest). split; [reflexivity | assumption]. }
  destruct Hnext as (d & t & Heq & Hd).
  change ((c :: x) ++ CR :: LF :: rest) with (c :: (x ++ CR :: LF :: rest)).
  rewrite Heq, split_lines_cons2, <- Heq, IH.
  apply N.eqb_neq in Hc, Hd. rewrite Hc, Hd, andb_false_r. reflexivity.
Qed.

Lemma split_lines_lf x rest :
  Forall (fun c => c <> LF) x -> last x <> Some CR ->
  JS.split_lines (x ++ LF :: rest) = x :: JS.split_lines rest.
Proof.
  intros Hx Hl. rewrite split_lines_app_LF by exact Hl.
  rewrite split_lines_free by exact Hx. reflexivity.
Qed.

Lemma split_lines_join (sep : jsstring) lines :
  (forall x rest, Forall (fun c => c <> LF) x -> last x <> Some CR ->
                  JS.split_lines (x ++ sep ++ rest) = x :: JS.split_lines rest) ->
  lines <> [] ->
  Forall (fun x => Forall (fun c => c <> LF) x /\ last x <> Some CR) lines ->
  JS.split_lines (JS.join sep lines) = lines.
Proof.
  intros Hsep Hne Hall. induction Hall as [|x lines [Hx Hl] Hrest IH]; [congruence|].
  destruct lines as [|y lines].
  - cbn [JS.join]. apply split_lines_free, Hx.
  - change (JS.join sep (x :: y :: lines)) with (x ++ sep ++ JS.join sep (y :: lines)).
    rewrite Hsep by assumption. rewrite IH by discriminate. reflexivity.
Qed.

(** X26. createFileMap reads lines that end in a carriage return and a
    line feed like lines that end in a line feed: for lines without a
    line feed that do not end in a carriage return, one of which is a
    marker line, the text with the lines joined by carriage return and
    line feed gives the same map as the text with the lines joined by
    line feeds.  The carriage returns are not in the contents. *)
Theorem createFileMap_reads_crlf_like_lf lines line :
  Forall (fun x => Forall (fun c => c <> LF) x /\ last x <> Some CR) lines ->
  line ∈ lines -> is_Some (FileNameRegexp.exec line) ->
  createFileMap (JS.join [CR; LF] lines) = createFileMap (JS.join [LF] lines).
Proof.
  intros Hall Hin Hm.
  assert (Hne : lines <> []) by (intros ->; inversion Hin).
  assert (Hcrlf : JS.split_lines (JS.join [CR; LF] lines) = lines).
  { apply split_lines_join; [|exact Hne | exact Hall].
    intros x rest Hx _. apply split_lines_crlf, Hx. }
  assert (Hlf : JS.split_lines (JS.join [LF] lines) = lines).
  { apply split_lines_join; [|exact Hne | exact Hall].
    intros x rest Hx Hl. apply split_lines_lf; assumption. }
  unfold createFileMap.
  assert (H1 : FileNameRegexp.test (JS.join [CR; LF] lines) = true).
  { apply bool_decide_eq_true_2, (line_match_text _ line); [|exact Hm].
    rewrite Hcrlf. exact Hin. }
  assert (H2 : FileNameRegexp.test (JS.join [LF] lines) = true).
  { apply bool_decide_eq_true_2, (line_match_text _ line); [|exact Hm].
    rewrite Hlf. exact Hin. }
  rewrite H1, H2, Hcrlf, Hlf. reflexivity.
Qed.

Lemma createFileMap_reads_crlf_like_lf_witness :
  createFileMap (JS.join [CR; LF] (map str ["// @filename: /a"; "x"; "y"]%string))
  = Return [(str "/a", text ["x"; "y"]%string)].
Proof.
  rewrite (createFileMap_reads_crlf_like_lf
             (map str ["// @filename: /a"; "x"; "y"]%string) (str "// @filename: /a")).
  - vm_compute. reflexivity.
  - vm_compute. repeat constructor; discriminate.
  - vm_compute. apply list_elem_of_here.
  - vm_compute. eauto.
Defined.

End LineEnds.
